(** * Verification of the Coinbase ingestion pipeline

    Shallow embedding of [src/ingestion/coinbase/main.py]: the [OHLCV] bar
    accumulator, the bucket store kept by [CoinbaseIngestor], the stream
    loop, the REST fallback and the flush of completed hour buckets.

    Python floats are IEEE-754 binary64 values, modelled with the
    specification floats of the standard library.  Python [datetime]
    objects are records of their calendar fields.  The state of the
    ingestor is threaded through a small state-and-exception monad. *)

From Stdlib Require Import ZArith List String Ascii Bool Lia.
From Stdlib Require Import Floats.SpecFloat.
Import ListNotations.
Open Scope Z_scope.

(** ** Python floats (binary64) *)

Module PyFloat.

Definition float : Type := spec_float.

Definition prec : Z := 53.
Definition emax : Z := 1024.

(** The literal [0.0]. *)
Definition zero : float := S754_zero false.
Definition neg_zero : float := S754_zero true.

(** [x + y], rounding to nearest even. *)
Definition add (x y : float) : float := SFadd prec emax x y.

(** [x < y] and [x > y]; both are [False] as soon as one side is NaN. *)
Definition ltb (x y : float) : bool := SFltb x y.
Definition gtb (x y : float) : bool := SFltb y x.

(** [x <= y] and [x == y]. *)
Definition leb (x y : float) : bool := SFleb x y.
Definition eqb (x y : float) : bool := SFeqb x y.

Definition is_nan (x : float) : bool :=
  match x with S754_nan => true | _ => false end.

Definition is_finite (x : float) : bool :=
  match x with S754_zero _ | S754_finite _ _ _ => true | _ => false end.

(** [bool(x)]: every float but the two zeros is truthy. *)
Definition truthy (x : float) : bool :=
  match x with S754_zero _ => false | _ => true end.

(** [float(n)] for a Python integer: the nearest binary64 value, or
    OverflowError ([None]) when that value is not finite. *)
Definition of_int (n : Z) : option float :=
  match binary_normalize prec emax n 0 false with
  | S754_infinity _ | S754_nan => None
  | r => Some r
  end.

(** Integer-valued constants, for examples. *)
Definition lit (n : Z) : float := binary_normalize prec emax n 0 false.

(** [sum] as the accumulator computes it: a left fold starting at [0.0]. *)
Definition sum (l : list float) : float := fold_left add l zero.

End PyFloat.

(** ** Python datetimes *)

Module Datetime.

(** [tzinfo] is [None] for a naive datetime and [Some off] for an aware one,
    [off] being the UTC offset in seconds. *)
Record datetime : Type := mkDatetime {
  year : Z;
  month : Z;
  day : Z;
  hour : Z;
  minute : Z;
  second : Z;
  microsecond : Z;
  tzinfo : option Z
}.

(** [timezone.utc] *)
Definition utc : option Z := Some 0.

Definition is_leap (y : Z) : bool :=
  (y mod 4 =? 0) && (negb (y mod 100 =? 0) || (y mod 400 =? 0)).

Definition days_before_year (y : Z) : Z :=
  let y := y - 1 in y * 365 + y / 4 - y / 100 + y / 400.

Definition DAYS_IN_MONTH : list Z :=
  [-1; 31; 28; 31; 30; 31; 30; 31; 31; 30; 31; 30; 31].

Definition DAYS_BEFORE_MONTH : list Z :=
  [-1; 0; 31; 59; 90; 120; 151; 181; 212; 243; 273; 304; 334].

Definition days_in_month (y m : Z) : Z :=
  if (m =? 2) && is_leap y then 29 else nth (Z.to_nat m) DAYS_IN_MONTH 0.

Definition days_before_month (y m : Z) : Z :=
  nth (Z.to_nat m) DAYS_BEFORE_MONTH 0
  + (if (2 <? m) && is_leap y then 1 else 0).

(** Proleptic Gregorian ordinal of a date, 0001-01-01 being day 1. *)
Definition ymd2ord (y m d : Z) : Z :=
  days_before_year y + days_before_month y m + d.

(** The field ranges every Python datetime satisfies. *)
Definition valid (d : datetime) : bool :=
  (1 <=? year d) && (year d <=? 9999)
  && (1 <=? month d) && (month d <=? 12)
  && (1 <=? day d) && (day d <=? days_in_month (year d) (month d))
  && (0 <=? hour d) && (hour d <? 24)
  && (0 <=? minute d) && (minute d <? 60)
  && (0 <=? second d) && (second d <? 60)
  && (0 <=? microsecond d) && (microsecond d <? 1000000)
  && match tzinfo d with
     | None => true
     | Some off => (-86400 <? off) && (off <? 86400)
     end.

(** Seconds from 0001-01-01T00:00:00 to the wall-clock reading of [d],
    the offset not applied. *)
Definition wall_seconds (d : datetime) : Z :=
  ((ymd2ord (year d) (month d) (day d) * 24 + hour d) * 60 + minute d) * 60
  + second d.

(** The absolute instant of [d] in microseconds, for the given offset. *)
Definition instant_with (off : Z) (d : datetime) : Z :=
  (wall_seconds d - off) * 1000000 + microsecond d.

(** The absolute instant of an aware datetime; a naive one is read as UTC. *)
Definition instant (d : datetime) : Z :=
  instant_with (match tzinfo d with Some off => off | None => 0 end) d.

(** [a < b].  Two aware datetimes compare by instant, two naive ones by
    their fields; mixing them raises TypeError ([None]). *)
Definition lt (a b : datetime) : option bool :=
  match tzinfo a, tzinfo b with
  | Some oa, Some ob => Some (instant_with oa a <? instant_with ob b)
  | None, None => Some (instant_with 0 a <? instant_with 0 b)
  | _, _ => None
  end.

(** [d.replace(minute=0, second=0, microsecond=0)] *)
Definition replace_hour_start (d : datetime) : datetime :=
  mkDatetime (year d) (month d) (day d) (hour d) 0 0 0 (tzinfo d).

(** [d.replace(minute=0, second=0, microsecond=0, tzinfo=timezone.utc)] *)
Definition replace_hour_start_utc (d : datetime) : datetime :=
  mkDatetime (year d) (month d) (day d) (hour d) 0 0 0 utc.

(** One hour in microseconds, and the start of the UTC hour an instant
    falls in: [floor(t, I)] of the specification for [I] one hour. *)
Definition HOUR_US : Z := 3600000000.

Definition floor_hour (i : Z) : Z := i / HOUR_US * HOUR_US.

(** [datetime.min] *)
Definition dt_min : datetime := mkDatetime 1 1 1 0 0 0 0 None.

(** *** [isoformat] *)

Definition digit (n : Z) : ascii := ascii_of_nat (48 + Z.to_nat (n mod 10)).

Definition fmt2 (n : Z) : string :=
  String (digit (n / 10)) (String (digit n) EmptyString).

Definition fmt4 (n : Z) : string :=
  String (digit (n / 1000)) (String (digit (n / 100)) (fmt2 n)).

Definition fmt6 (n : Z) : string :=
  String (digit (n / 100000)) (String (digit (n / 10000)) (fmt4 n)).

Definition format_offset (off : Z) : string :=
  let sign := if off <? 0 then "-"%string else "+"%string in
  let a := Z.abs off in
  let hh := a / 3600 in
  let mm := (a mod 3600) / 60 in
  let ss := a mod 60 in
  let whole_minutes := ss =? 0 in
  (sign ++ fmt2 hh ++ ":" ++ fmt2 mm
   ++ (if whole_minutes then "" else ":" ++ fmt2 ss))%string.

Definition isoformat (d : datetime) : string :=
  let whole_seconds := microsecond d =? 0 in
  (fmt4 (year d) ++ "-" ++ fmt2 (month d) ++ "-" ++ fmt2 (day d)
   ++ "T" ++ fmt2 (hour d) ++ ":" ++ fmt2 (minute d) ++ ":" ++ fmt2 (second d)
   ++ (if whole_seconds then "" else "." ++ fmt6 (microsecond d))
   ++ match tzinfo d with
      | None => ""
      | Some off => format_offset off
      end)%string.

(** *** A reference ISO-8601 parser

    [parser.isoparse] belongs to dateutil and stays a parameter of the
    ingestor below.  This parser reads the extended format
    [YYYY-MM-DDTHH:MM:SS[.ffffff][Z|+HH:MM|-HH:MM]], which covers what the
    exchange sends and what [isoformat] prints for bucket keys; it serves
    to instantiate that parameter. *)

Definition digit_val (c : ascii) : option Z :=
  let n := Z.of_nat (nat_of_ascii c) in
  if (48 <=? n) && (n <=? 57) then Some (n - 48) else None.

Fixpoint read_digits (n : nat) (acc : Z) (s : string) : option (Z * string) :=
  match n with
  | O => Some (acc, s)
  | S n' =>
      match s with
      | String c s' =>
          match digit_val c with
          | Some v => read_digits n' (acc * 10 + v) s'
          | None => None
          end
      | EmptyString => None
      end
  end.

Definition expect (c : ascii) (s : string) : option string :=
  match s with
  | String c' s' => if Ascii.eqb c c' then Some s' else None
  | EmptyString => None
  end.

Definition read_fraction (s : string) : option (Z * string) :=
  match s with
  | String c s' =>
      if Ascii.eqb c "."%char then read_digits 6 0 s' else Some (0, s)
  | EmptyString => Some (0, s)
  end.

Definition read_tz (s : string) : option (option Z) :=
  match s with
  | EmptyString => Some None
  | String c s' =>
      if Ascii.eqb c "Z"%char then
        match s' with EmptyString => Some (Some 0) | _ => None end
      else
        let sign :=
          if Ascii.eqb c "+"%char then Some 1
          else if Ascii.eqb c "-"%char then Some (-1)
          else None in
        match sign with
        | None => None
        | Some sg =>
            match read_digits 2 0 s' with
            | Some (hh, s1) =>
                match expect ":"%char s1 with
                | Some s2 =>
                    match read_digits 2 0 s2 with
                    | Some (mm, EmptyString) =>
                        Some (Some (sg * (hh * 3600 + mm * 60)))
                    | _ => None
                    end
                | None => None
                end
            | None => None
            end
        end
  end.

Definition obind {A B : Type} (o : option A) (f : A -> option B) : option B :=
  match o with Some a => f a | None => None end.

Definition isoparse_ext (s : string) : option datetime :=
  obind (read_digits 4 0 s) (fun '(y, s) =>
  obind (expect "-"%char s) (fun s =>
  obind (read_digits 2 0 s) (fun '(mo, s) =>
  obind (expect "-"%char s) (fun s =>
  obind (read_digits 2 0 s) (fun '(dd, s) =>
  obind (expect "T"%char s) (fun s =>
  obind (read_digits 2 0 s) (fun '(hh, s) =>
  obind (expect ":"%char s) (fun s =>
  obind (read_digits 2 0 s) (fun '(mi, s) =>
  obind (expect ":"%char s) (fun s =>
  obind (read_digits 2 0 s) (fun '(ss, s) =>
  obind (read_fraction s) (fun '(us, s) =>
  obind (read_tz s) (fun tz =>
  let d := mkDatetime y mo dd hh mi ss us tz in
  if valid d then Some d else None))))))))))))).

End Datetime.

(** ** The bar accumulator *)

Module OHLCV.

Import PyFloat.

(** The dictionary [to_row] returns, one field per key. *)
Record row : Type := mkRow {
  row_timestamp : string;
  row_symbol : string;
  row_open : option float;
  row_high : option float;
  row_low : option float;
  row_close : option float;
  row_volume : float
}.

(** The attributes of an [OHLCV] object; [None] is Python's [None]. *)
Record t : Type := mkOHLCV {
  open : option float;
  high : option float;
  low : option float;
  close : option float;
  volume : float
}.

(** [OHLCV.__init__] *)
Definition init : t := mkOHLCV None None None None zero.

(** [OHLCV.add_tick] *)
Definition add_tick (self : t) (price size : float) : t :=
  let open' :=
    match open self with
    | None => Some price
    | Some o => Some o
    end in
  let high' :=
    match high self with
    | None => price
    | Some h => if gtb price h then price else h
    end in
  let low' :=
    match low self with
    | None => price
    | Some l => if ltb price l then price else l
    end in
  mkOHLCV open' (Some high') (Some low') (Some price) (add (volume self) size).

(** [OHLCV.to_row]; [float(x)] of a float is that float. *)
Definition to_row (self : t) (symbol : string) (ts : Datetime.datetime) : row :=
  mkRow (Datetime.isoformat ts) symbol
        (open self) (high self) (low self) (close self) (volume self).

(** A tick is a price and a size; a bar absorbs ticks in order. *)
Definition tick : Type := (float * float)%type.

Definition add_ticks (self : t) (ticks : list tick) : t :=
  fold_left (fun o pq => add_tick o (fst pq) (snd pq)) ticks self.

Definition prices (ticks : list tick) : list float := map fst ticks.
Definition sizes (ticks : list tick) : list float := map snd ticks.

(** What the specification asks of a bar that absorbed [ticks]: the first
    and last price, a greatest and a least price of the run, and the
    running sum of the sizes. *)
Record summarises (ticks : list tick) (bar : t) : Prop := {
  sum_open : open bar = hd_error (prices ticks);
  sum_close : close bar = hd_error (rev (prices ticks));
  sum_high : exists h, high bar = Some h /\ In h (prices ticks)
                       /\ forall p, In p (prices ticks) -> leb p h = true;
  sum_low : exists l, low bar = Some l /\ In l (prices ticks)
                      /\ forall p, In p (prices ticks) -> leb l p = true;
  sum_volume : volume bar = PyFloat.sum (sizes ticks)
}.

End OHLCV.

(** ** Decoded JSON values *)

Module Json.

Import PyFloat.

(** What [json.loads] and [r.json()] return. *)
#[warnings="-register-all"]
Inductive value : Type :=
| JNull
| JBool (b : bool)
| JInt (n : Z)
| JFloat (f : float)
| JStr (s : string)
| JArr (items : list value)
| JObj (fields : list (string * value)).

Fixpoint assoc (k : string) (fields : list (string * value)) : option value :=
  match fields with
  | [] => None
  | (k', v) :: rest => if String.eqb k k' then Some v else assoc k rest
  end.

(** The value under [k] in a dictionary, [default] when [k] is missing. *)
Definition lookup_or (fields : list (string * value)) (k : string)
           (default : value) : value :=
  match assoc k fields with
  | Some v => v
  | None => default
  end.

(** [bool(v)] *)
Definition truthy (v : value) : bool :=
  match v with
  | JNull => false
  | JBool b => b
  | JInt n => negb (n =? 0)
  | JFloat f => PyFloat.truthy f
  | JStr s => negb (String.eqb s "")
  | JArr items => match items with [] => false | _ => true end
  | JObj fields => match fields with [] => false | _ => true end
  end.

(** [v == s] for a string literal [s] *)
Definition eq_str (v : value) (s : string) : bool :=
  match v with
  | JStr s' => String.eqb s' s
  | _ => false
  end.

End Json.

(** ** The ingestor *)

Module CoinbaseIngestor.

Import PyFloat Datetime Json.

Definition PRODUCT_ID : string := "BTC-USD".

Inductive exn : Type :=
| TypeError
| ValueError
| AttributeError
| OverflowError
| KeyError
| ConnectionFailed
| ConnectionClosedError
| HTTPError
| GoogleAPICallError.

Inductive result (A : Type) : Type :=
| Ok (a : A)
| Raise (e : exn).

Arguments Ok {A} a.
Arguments Raise {A} e.

(** What the ingestor does to the outside world, oldest first: the batches
    it hands to [insert_rows_json], each with the outcome of that call (the
    error list it returned or the exception it raised), its log lines, and
    its sleeps. *)
Inductive event : Type :=
| BqInsert (table_id : string) (rows : list OHLCV.row)
           (outcome : result (list string))
| LogInsertErrors (errors : list string)
| LogInserted (count : nat) (table_id : string)
| LogSubscribed (product : string)
| LogWsFailed (e : exn)
| LogRestFailed (e : exn)
| Sleep (seconds : Z).

(** The attributes of a [CoinbaseIngestor]; [agg] is the dictionary from
    key to bar in insertion order, [project] stands for
    [bq_client.project], [events] records the effects so far. *)
Record ingestor : Type := mkIngestor {
  product_id : string;
  running : bool;
  agg : list (string * OHLCV.t);
  project : string;
  dataset : string;
  table : string;
  events : list event
}.

(** [CoinbaseIngestor.__init__] *)
Definition init (bq_project product : string) : ingestor :=
  mkIngestor product false [] bq_project "moda_mcp" "raw_ohlcv" [].

Definition set_agg (a : list (string * OHLCV.t)) (st : ingestor) : ingestor :=
  mkIngestor (product_id st) (running st) a (project st) (dataset st)
             (table st) (events st).

Definition set_running (b : bool) (st : ingestor) : ingestor :=
  mkIngestor (product_id st) b (agg st) (project st) (dataset st)
             (table st) (events st).

Definition add_event (e : event) (st : ingestor) : ingestor :=
  mkIngestor (product_id st) (running st) (agg st) (project st) (dataset st)
             (table st) (events st ++ [e]).

(** *** The state-and-exception monad

    A method either returns or raises; in both cases the mutations it made
    to [self] stay. *)

Definition M (A : Type) : Type := ingestor -> result A * ingestor.

Definition ret {A : Type} (a : A) : M A := fun st => (Ok a, st).

Definition raise {A : Type} (e : exn) : M A := fun st => (Raise e, st).

Definition bind {A B : Type} (m : M A) (f : A -> M B) : M B :=
  fun st =>
    match m st with
    | (Ok a, st') => f a st'
    | (Raise e, st') => (Raise e, st')
    end.

Definition lift {A : Type} (r : result A) : M A := fun st => (r, st).

Definition emit (e : event) : M unit := fun st => (Ok tt, add_event e st).

(** [try: m except Exception as e: h e] *)
Definition try_except {A : Type} (m : M A) (h : exn -> M A) : M A :=
  fun st =>
    match m st with
    | (Ok a, st') => (Ok a, st')
    | (Raise e, st') => h e st'
    end.

Declare Scope py_scope.
Delimit Scope py_scope with py.
Notation "x <- m ;; k" := (bind m (fun x => k))
  (at level 61, m at next level, right associativity) : py_scope.
Notation "m ;; k" := (bind m (fun _ => k))
  (at level 61, right associativity) : py_scope.
Open Scope py_scope.

(** *** The bucket store: a [defaultdict(OHLCV)] *)

Definition store : Type := list (string * OHLCV.t).

Definition keys (a : store) : list string := map fst a.

Fixpoint lookup (k : string) (a : store) : option OHLCV.t :=
  match a with
  | [] => None
  | (k', o) :: rest => if String.eqb k k' then Some o else lookup k rest
  end.

(** [agg[k]] for its side effect: a missing key gets a fresh bar, appended. *)
Definition getitem_default (k : string) (a : store) : store :=
  match lookup k a with
  | Some _ => a
  | None => a ++ [(k, OHLCV.init)]
  end.

(** In-place mutation of the bar stored under [k]. *)
Fixpoint mutate (k : string) (f : OHLCV.t -> OHLCV.t) (a : store) : store :=
  match a with
  | [] => []
  | (k', o) :: rest =>
      if String.eqb k k' then (k', f o) :: rest
      else (k', o) :: mutate k f rest
  end.

(** [agg.pop(k)]: the bar and the dictionary without it, [None] for
    KeyError. *)
Fixpoint pop (k : string) (a : store) : option (OHLCV.t * store) :=
  match a with
  | [] => None
  | (k', o) :: rest =>
      if String.eqb k k' then Some (o, rest)
      else
        match pop k rest with
        | Some (o', rest') => Some (o', (k', o) :: rest')
        | None => None
        end
  end.

(** [self.agg[key].add_tick(price, size)] *)
Definition agg_add_tick (key : string) (price size : float) : M unit :=
  fun st =>
    let a := getitem_default key (agg st) in
    (Ok tt, set_agg (mutate key (fun o => OHLCV.add_tick o price size) a) st).

(** [o = self.agg.pop(k)] *)
Definition agg_pop (k : string) : M OHLCV.t :=
  fun st =>
    match pop k (agg st) with
    | Some (o, a) => (Ok o, set_agg a st)
    | None => (Raise KeyError, st)
    end.

(** What the environment supplies while one trade is handled: the reading
    of the clock in [maybe_flush_old_buckets] and what the call
    [bq_client.insert_rows_json(table_id, rows)] does if it is made: it
    returns a list of errors, empty when every row was accepted, or it
    raises (the client's own exceptions, a transport failure). *)
Record env : Type := mkEnv {
  now : datetime;
  insert_rows_json : result (list string)
}.

(** One inbound websocket message after [json.loads]. *)
Inductive ws_msg : Type :=
| Undecodable
| Decoded (data : value).

Record frame : Type := mkFrame {
  frame_msg : ws_msg;
  frame_env : env
}.

(** One websocket connection: whether [websockets.connect] succeeds, the
    messages received, and whether the connection then ends with an
    error. *)
Record ws_session : Type := mkSession {
  connect_ok : bool;
  frames : list frame;
  closes_with_error : bool
}.

(** One REST fallback cycle: the outcome of [rest_get_ticker], the clock
    read when the ticker carries no time, and the flush environment. *)
Record rest_input : Type := mkRest {
  ticker_response : result value;
  rest_clock : datetime;
  rest_env : env
}.

(** *** Specification side

    A bar that absorbed at least one tick, a row made from such a bar, and
    the invariant of the ingestor built from them. *)
Definition has_ticks (o : OHLCV.t) : Prop :=
  exists ticks, ticks <> [] /\ o = OHLCV.add_ticks OHLCV.init ticks.

Definition row_from_ticks (r : OHLCV.row) : Prop :=
  exists ticks symbol ts,
    ticks <> [] /\ r = OHLCV.to_row (OHLCV.add_ticks OHLCV.init ticks) symbol ts.

Definition bars_have_ticks (st : ingestor) : Prop :=
  forall k o, In (k, o) (agg st) -> has_ticks o.

Definition rows_have_ticks (st : ingestor) : Prop :=
  forall table_id rows errors,
    In (BqInsert table_id rows errors) (events st) ->
    forall r, In r rows -> row_from_ticks r.

Definition invariant (st : ingestor) : Prop :=
  bars_have_ticks st /\ rows_have_ticks st.

Definition good_rows (rows : list OHLCV.row) : Prop :=
  forall r, In r rows -> row_from_ticks r.

(** The events of the Row Sink, and the ingestor with those events left
    out: what remains is the store, the configuration and the trace of
    the supervisor (subscriptions, failures, sleeps). *)
Definition is_write_event (ev : event) : bool :=
  match ev with
  | BqInsert _ _ _ | LogInsertErrors _ | LogInserted _ _ => true
  | _ => false
  end.

Definition skeleton (st : ingestor) : ingestor :=
  mkIngestor (product_id st) (running st) (agg st) (project st) (dataset st)
             (table st) (filter (fun ev => negb (is_write_event ev)) (events st)).

(** [m] and [m'] cannot be told apart by the store, the configuration and
    the supervisor's trace. *)
Definition alike {A : Type} (m m' : M A) : Prop :=
  forall st st', skeleton st = skeleton st' ->
    fst (m st) = fst (m' st')
    /\ skeleton (snd (m st)) = skeleton (snd (m' st')).

(** [m] keeps [I] and, when it returns, returns a value in [Q]. *)
Definition keeps {A : Type} (I : ingestor -> Prop) (m : M A) (Q : A -> Prop)
  : Prop :=
  forall st, I st ->
    I (snd (m st)) /\ forall a, fst (m st) = Ok a -> Q a.

(** What every call of [insert_rows_json] should look like for an ingestor
    of project [proj] and product [pid]: a batch that is not empty, sent to
    the table [proj.moda_mcp.raw_ohlcv], every row carrying the product as
    its symbol. *)
Definition good_event (proj pid : string) (ev : event) : Prop :=
  match ev with
  | BqInsert table_id rows _ =>
      rows <> []
      /\ table_id = (proj ++ ".moda_mcp.raw_ohlcv")%string
      /\ forall r, In r rows -> OHLCV.row_symbol r = pid
  | _ => True
  end.

Definition trace_invariant (proj pid : string) (st : ingestor) : Prop :=
  project st = proj /\ product_id st = pid
  /\ dataset st = "moda_mcp"%string /\ table st = "raw_ohlcv"%string
  /\ forall ev, In ev (events st) -> good_event proj pid ev.

(** The backend call returns, with or without errors. *)
Definition returns (e : env) : Prop :=
  exists errors, insert_rows_json e = Ok errors.

Definition session_returns (s : ws_session) : Prop :=
  Forall (fun f => returns (frame_env f)) (frames s).

Definition turn_returns (t : ws_session * rest_input) : Prop :=
  session_returns (fst t) /\ returns (rest_env (snd t)).

(** The same inputs with a backend that accepts every batch. *)
Definition accepting_env (e : env) : env := mkEnv (now e) (Ok []).

Definition accepting_frame (f : frame) : frame :=
  mkFrame (frame_msg f) (accepting_env (frame_env f)).

Definition accepting_session (s : ws_session) : ws_session :=
  mkSession (connect_ok s) (map accepting_frame (frames s)) (closes_with_error s).

Definition accepting_rest (r : rest_input) : rest_input :=
  mkRest (ticker_response r) (rest_clock r) (accepting_env (rest_env r)).

Definition accepting_turn (t : ws_session * rest_input)
  : ws_session * rest_input :=
  (accepting_session (fst t), accepting_rest (snd t)).

(** A reference instance of [float(s)] on strings: unsigned decimal
    integers only.  It serves to instantiate the parameter below. *)
Fixpoint decimal_value (acc : Z) (s : string) : option Z :=
  match s with
  | EmptyString => Some acc
  | String c s' =>
      match digit_val c with
      | Some v => decimal_value (acc * 10 + v) s'
      | None => None
      end
  end.

Definition float_of_decimal (s : string) : option float :=
  match s with
  | EmptyString => None
  | _ =>
      match decimal_value 0 s with
      | Some n => PyFloat.of_int n
      | None => None
      end
  end.

Section WithExternals.

(** [float(s)] for a string and [dateutil.parser.isoparse(s)]; [None]
    stands for ValueError. *)
Variable float_of_str : string -> option float.
Variable isoparse : string -> option datetime.

(** [d.get(k, default)]; AttributeError when [d] is not a dictionary. *)
Definition get (d : value) (k : string) (default : value) : result value :=
  match d with
  | JObj fields => Ok (lookup_or fields k default)
  | _ => Raise AttributeError
  end.

(** [float(v)] *)
Definition py_float (v : value) : result float :=
  match v with
  | JFloat f => Ok f
  | JInt n =>
      match PyFloat.of_int n with
      | Some f => Ok f
      | None => Raise OverflowError
      end
  | JBool b => Ok (if b then PyFloat.lit 1 else PyFloat.zero)
  | JStr s =>
      match float_of_str s with
      | Some f => Ok f
      | None => Raise ValueError
      end
  | JNull | JArr _ | JObj _ => Raise TypeError
  end.

(** [parser.isoparse(v)].  A string is parsed.  Any other value reaches
    dateutil's [len(dt_str)]: TypeError for null, a number or a boolean,
    which have no length; ValueError (string too short) for a list or a
    dictionary of fewer than four items; a longer one fails at
    [dt_str[0:4]] (TypeError, on a dictionary up to Python 3.11). *)
Definition isoparse_value (v : value) : result datetime :=
  match v with
  | JStr s =>
      match isoparse s with
      | Some d => Ok d
      | None => Raise ValueError
      end
  | JArr items =>
      if (List.length items <? 4)%nat then Raise ValueError else Raise TypeError
  | JObj fields =>
      if (List.length fields <? 4)%nat then Raise ValueError else Raise TypeError
  | _ => Raise TypeError
  end.

(** The key of the bucket a trade stamped [t] goes to. *)
Definition bucket_key (t : datetime) : string :=
  isoformat (replace_hour_start_utc t).

(** [write_rows_bq], [outcome] being what [insert_rows_json] does when it
    is called: the call is not guarded, so its exception is the method's. *)
Definition write_rows_bq (rows : list OHLCV.row)
           (outcome : result (list string)) : M unit :=
  fun st =>
    let table_id := (project st ++ "." ++ dataset st ++ "." ++ table st)%string in
    (emit (BqInsert table_id rows outcome) ;;
     errors <- lift outcome ;;
     match errors with
     | _ :: _ => emit (LogInsertErrors errors)
     | [] => emit (LogInserted (List.length rows) table_id)
     end) st.

(** [parser.isoparse(k) < current_hour] *)
Definition is_old (current_hour : datetime) (k : string) : result bool :=
  match isoparse k with
  | None => Raise ValueError
  | Some dt =>
      match Datetime.lt dt current_hour with
      | Some b => Ok b
      | None => Raise TypeError
      end
  end.

(** [[k for k in self.agg.keys() if parser.isoparse(k) < current_hour]] *)
Fixpoint select_old (current_hour : datetime) (ks : list string)
  : result (list string) :=
  match ks with
  | [] => Ok []
  | k :: ks' =>
      match is_old current_hour k with
      | Raise e => Raise e
      | Ok b =>
          match select_old current_hour ks' with
          | Raise e => Raise e
          | Ok l => Ok (if b then k :: l else l)
          end
      end
  end.

(** The loop [for k in to_flush], [rows] being the list built so far. *)
Fixpoint flush_loop (to_flush : list string) (rows : list OHLCV.row)
  : M (list OHLCV.row) :=
  match to_flush with
  | [] => ret rows
  | k :: ks =>
      dt <- lift (isoparse_value (JStr k)) ;;
      o <- agg_pop k ;;
      r <- (fun st => (Ok (OHLCV.to_row o (product_id st) dt), st)) ;;
      flush_loop ks (rows ++ [r])
  end.

(** Lines 104 to 111 of [maybe_flush_old_buckets]: select the old keys,
    pop them and build the rows. *)
Definition evict_old_buckets (e : env) : M (list OHLCV.row) :=
  let current_hour := replace_hour_start (now e) in
  to_flush <- (fun st => (select_old current_hour (keys (agg st)), st)) ;;
  flush_loop to_flush [].

(** [maybe_flush_old_buckets] *)
Definition maybe_flush_old_buckets (e : env) : M unit :=
  rows <- evict_old_buckets e ;;
  match rows with
  | _ :: _ => write_rows_bq rows (insert_rows_json e)
  | [] => ret tt
  end.

(** Specification side of the flush: what "older than the current hour"
    selects when every key can be parsed and compared, the entries that
    go, the entries that stay, and the rows built from those that go. *)
Definition old_key (current_hour : datetime) (k : string) : bool :=
  match is_old current_hour k with
  | Ok b => b
  | Raise _ => false
  end.

Definition comparable (current_hour : datetime) (a : store) : Prop :=
  forall k, In k (keys a) -> exists b, is_old current_hour k = Ok b.

Definition flushed (current_hour : datetime) (a : store) : store :=
  filter (fun kv => old_key current_hour (fst kv)) a.

Definition remaining (current_hour : datetime) (a : store) : store :=
  filter (fun kv => negb (old_key current_hour (fst kv))) a.

Definition parsed_key (k : string) : datetime :=
  match isoparse k with
  | Some d => d
  | None => dt_min
  end.

Definition row_of_entry (product : string) (kv : string * OHLCV.t)
  : OHLCV.row :=
  OHLCV.to_row (snd kv) product (parsed_key (fst kv)).

(** The bucket start of key [k] lies strictly before [boundary]. *)
Definition starts_before (boundary : Z) (k : string) : Prop :=
  exists dt, isoparse k = Some dt /\ instant dt < boundary.

(** [handle_trade_msg] *)
Definition handle_trade_msg (data : value) (e : env) : M unit :=
  price <- lift (match get data "price" JNull with
                 | Ok v => py_float v
                 | Raise x => Raise x
                 end) ;;
  size <- lift (match get data "size" (JFloat PyFloat.zero) with
                | Ok v => py_float v
                | Raise x => Raise x
                end) ;;
  t <- lift (match get data "time" JNull with
             | Ok v => isoparse_value v
             | Raise x => Raise x
             end) ;;
  agg_add_tick (bucket_key t) price size ;;
  maybe_flush_old_buckets e.

(** The body of [async for msg in ws]. *)
Definition on_message (f : frame) : M unit :=
  match frame_msg f with
  | Undecodable => ret tt
  | Decoded data =>
      ty <- lift (get data "type" JNull) ;;
      if eq_str ty "match" then handle_trade_msg data (frame_env f)
      else ret tt
  end.

Fixpoint message_loop (fs : list frame) : M unit :=
  match fs with
  | [] => ret tt
  | f :: fs' => on_message f ;; message_loop fs'
  end.

(** [connect_ws] *)
Definition connect_ws (s : ws_session) : M unit :=
  if connect_ok s then
    p <- (fun st => (Ok (product_id st), st)) ;;
    emit (LogSubscribed p) ;;
    message_loop (frames s) ;;
    if closes_with_error s then raise ConnectionClosedError else ret tt
  else raise ConnectionFailed.

(** The inner [try] block of [run]: one REST poll. *)
Definition rest_poll (r : rest_input) : M unit :=
  ticker <- lift (ticker_response r) ;;
  price <- lift (match get ticker "price" JNull with
                 | Ok v => py_float v
                 | Raise x => Raise x
                 end) ;;
  size <- lift (match get ticker "size" (JFloat PyFloat.zero) with
                | Ok v => py_float v
                | Raise x => Raise x
                end) ;;
  tv <- lift (get ticker "time" JNull) ;;
  t <- lift (if truthy tv then isoparse_value tv else Ok (rest_clock r)) ;;
  agg_add_tick (bucket_key t) price size ;;
  maybe_flush_old_buckets (rest_env r).

(** One turn of the [while self.running] loop of [run]. *)
Definition run_iteration (s : ws_session) (r : rest_input) : M unit :=
  try_except (connect_ws s) (fun e =>
    emit (LogWsFailed e) ;;
    try_except (rest_poll r) (fun re => emit (LogRestFailed re)) ;;
    emit (Sleep 5)).

(** [run], for as many turns as the environment describes. *)
Fixpoint run_loop (turns : list (ws_session * rest_input)) : M unit :=
  match turns with
  | [] => ret tt
  | (s, r) :: rest => run_iteration s r ;; run_loop rest
  end.

Definition run (turns : list (ws_session * rest_input)) : M unit :=
  (fun st => (Ok tt, set_running true st)) ;; run_loop turns.

(** A frame that carries a well-formed trade for bucket [k], read while the
    clock stands in the hour that starts at [ch]. *)
Definition carries (k : string) (ch : datetime) (f : frame)
           (tick : OHLCV.tick) : Prop :=
  exists fields t,
    frame_msg f = Decoded (JObj fields)
    /\ eq_str (lookup_or fields "type" JNull) "match" = true
    /\ py_float (lookup_or fields "price" JNull) = Ok (fst tick)
    /\ py_float (lookup_or fields "size" (JFloat zero)) = Ok (snd tick)
    /\ isoparse_value (lookup_or fields "time" JNull) = Ok t
    /\ bucket_key t = k
    /\ replace_hour_start (now (frame_env f)) = ch.

(** The states the ingestor passes through between two messages or polls. *)
Inductive reachable : ingestor -> Prop :=
| reach_init : forall bq_project product,
    reachable (init bq_project product)
| reach_message : forall st f,
    reachable st -> reachable (snd (on_message f st))
| reach_rest : forall st r,
    reachable st -> reachable (snd (rest_poll r st))
| reach_turn : forall st s r,
    reachable st -> reachable (snd (run_iteration s r st))
| reach_run : forall st turns,
    reachable st -> reachable (snd (run turns st)).

End WithExternals.

End CoinbaseIngestor.

(** ** The breakout signal ([src/signals/rule_based/signals.py]) *)

Module Signals.

Import PyFloat.

(** [x >= y] *)
Definition geb (x y : float) : bool := SFleb y x.

(** [max(l)]: ValueError ([None]) on the empty list, otherwise the first
    item that no later item exceeds. *)
Definition py_max (l : list float) : option float :=
  match l with
  | [] => None
  | x :: rest => Some (fold_left (fun m y => if gtb y m then y else m) rest x)
  end.

(** [prices[-n:]] for [1 <= n <= len(prices)] *)
Definition last_n (n : nat) (prices : list float) : list float :=
  skipn (List.length prices - n) prices.

(** [breakout_signal]; [None] stands for an exception. *)
Definition breakout_signal (prices : list float) (lookback : Z) : option bool :=
  if match prices with [] => true | _ :: _ => false end
     || (lookback <=? 0)
     || (Z.of_nat (List.length prices) <? lookback)
  then Some false
  else
    let window := last_n (Z.to_nat lookback) prices in
    match py_max window with
    | None => None
    | Some m => Some (geb (last prices zero) m)
    end.

End Signals.

(** ** The moving average ([src/features/utils.py]) *)

Module Features.

Section SimpleSma.

Variables A B : Type.

(** [sum(w) / len(w)] on a list that is not empty. *)
Variable average : list A -> B.

(** [sum(w) / len(w)]: ZeroDivisionError ([None]) on the empty list. *)
Definition window_mean (w : list A) : option B :=
  match w with
  | [] => None
  | _ :: _ => Some (average w)
  end.

(** [values[start:stop]] for indices that are not negative *)
Definition slice (values : list A) (start stop : nat) : list A :=
  firstn (stop - start) (skipn start values).

(** [values[max(0, i - window + 1):i+1]] *)
Definition window_at (values : list A) (window : Z) (i : nat) : list A :=
  let start := Z.max 0 (Z.of_nat i - window + 1) in
  slice values (Z.to_nat start) (i + 1).

(** The loop [for i in range(len(values))], [out] being the list so far. *)
Fixpoint sma_loop (values : list A) (window : Z) (indices : list nat)
         (out : list B) : option (list B) :=
  match indices with
  | [] => Some out
  | i :: rest =>
      match window_mean (window_at values window i) with
      | None => None
      | Some m => sma_loop values window rest (out ++ [m])
      end
  end.

(** [simple_sma] *)
Definition simple_sma (values : list A) (window : Z) : option (list B) :=
  if match values with [] => true | _ :: _ => false end || (window <=? 0)
  then Some []
  else sma_loop values window (seq 0 (List.length values)) [].

End SimpleSma.

End Features.

(** ** The broker simulator ([src/paper_trading/broker.py]) *)

Module Broker.

Import PyFloat.

Definition sub (x y : float) : float := SFsub prec emax x y.
Definition mul (x y : float) : float := SFmul prec emax x y.

(** The attributes of a [Broker]; [positions] is the dictionary from
    symbol to quantity, in insertion order. *)
Record t : Type := mkBroker {
  cash : float;
  positions : list (string * float)
}.

(** [Broker.__init__] *)
Definition init (starting_cash : float) : t := mkBroker starting_cash [].

(** [positions.get(symbol, default)] *)
Fixpoint get (symbol : string) (ps : list (string * float)) (default : float)
  : float :=
  match ps with
  | [] => default
  | (k, v) :: rest => if String.eqb symbol k then v else get symbol rest default
  end.

(** [positions[symbol] = v] *)
Fixpoint set (symbol : string) (v : float) (ps : list (string * float))
  : list (string * float) :=
  match ps with
  | [] => [(symbol, v)]
  | (k, w) :: rest =>
      if String.eqb symbol k then (k, v) :: rest
      else (k, w) :: set symbol v rest
  end.

(** [Broker.buy]: the value returned and the broker afterwards. *)
Definition buy (self : t) (symbol : string) (qty price : float) : bool * t :=
  let cost := mul qty price in
  if gtb cost (cash self) then (false, self)
  else
    (true,
     mkBroker (sub (cash self) cost)
              (set symbol (add (get symbol (positions self) zero) qty)
                   (positions self))).

(** [Broker.sell] *)
Definition sell (self : t) (symbol : string) (qty price : float) : bool * t :=
  let pos := get symbol (positions self) zero in
  if gtb qty pos then (false, self)
  else
    (true,
     mkBroker (add (cash self) (mul qty price))
              (set symbol (sub pos qty) (positions self))).

(** A float that is zero or finite and in canonical binary64 form, as
    every finite Python float is. *)
Definition finite_valid (x : float) : Prop :=
  is_finite x = true /\ valid_binary prec emax x = true.

(** [0.0 <= x] is [True]: [x] is a number and it is not negative. *)
Definition nonneg (x : float) : Prop := leb zero x = true.

End Broker.

(** ** A scenario

    The run of the specification: trades at 10:05, 10:40 and 11:02 on
    2024-01-01, the clock one second after each trade, and a backend that
    rejects the batch flushed by the third trade.  Prices and sizes come as
    decimal strings, as the exchange sends them. *)

Module Scenario.

Import PyFloat Datetime Json CoinbaseIngestor.

Definition clock (h mi s : Z) : datetime := mkDatetime 2024 1 1 h mi s 0 utc.

Definition st0 : ingestor := init "proj" PRODUCT_ID.

Definition trade (price size time : string) : value :=
  JObj [("type", JStr "match"); ("price", JStr price); ("size", JStr size);
        ("time", JStr time)]%string.

Definition f1 : frame :=
  mkFrame (Decoded (trade "100" "1" "2024-01-01T10:05:00Z"))
          (mkEnv (clock 10 5 1) (Ok [])).

Definition f2 : frame :=
  mkFrame (Decoded (trade "105" "2" "2024-01-01T10:40:00Z"))
          (mkEnv (clock 10 40 1) (Ok [])).

Definition f3 : frame :=
  mkFrame (Decoded (trade "95" "1" "2024-01-01T11:02:00Z"))
          (mkEnv (clock 11 2 1) (Ok ["backend unavailable"%string])).

(** The third trade when the BigQuery client raises instead of answering,
    and a fourth trade that follows it on the same connection. *)
Definition f3_raising : frame :=
  mkFrame (Decoded (trade "95" "1" "2024-01-01T11:02:00Z"))
          (mkEnv (clock 11 2 1) (Raise GoogleAPICallError)).

Definition f4 : frame :=
  mkFrame (Decoded (trade "96" "1" "2024-01-01T11:03:00Z"))
          (mkEnv (clock 11 3 1) (Ok [])).

Definition key10 : string := "2024-01-01T10:00:00+00:00".
Definition key11 : string := "2024-01-01T11:00:00+00:00".

(** The ingestor when the third trade has been absorbed and the flush is
    about to run. *)
Definition st_two_buckets : ingestor :=
  snd (agg_add_tick key11 (lit 95) (lit 1)
         (snd (message_loop float_of_decimal isoparse_ext [f1; f2] st0))).

(** A match message without [size], one without [price], a message of
    another type, and a trade stamped with a UTC offset of five hours. *)
Definition no_size_fields : list (string * value) :=
  [("type", JStr "match"); ("price", JStr "100");
   ("time", JStr "2024-01-01T10:05:00Z")]%string.

Definition no_price_fields : list (string * value) :=
  [("type", JStr "match"); ("size", JStr "1");
   ("time", JStr "2024-01-01T10:05:00Z")]%string.


Definition offset_trade : value := trade "100" "1" "2024-01-01T10:30:00+05:00".

Definition quiet : env := mkEnv (clock 10 5 1) (Ok []).

Definition idle_rest : rest_input :=
  mkRest (Raise HTTPError) (clock 10 5 2) quiet.

End Scenario.

(** * Properties *)

(** ** Order and addition on floats *)

Section FloatFacts.

Import PyFloat.

Ltac compare_cases :=
  repeat match goal with
  | |- context [Z.compare ?x ?y] => destruct (Z.compare_spec x y)
  | |- context [Pos.compare ?x ?y] => destruct (Pos.compare_spec x y)
  end.

Ltac float_cases a := destruct a as [[|]|[|]| |[|] ? ?].

Lemma ltb_trans (a b c : float) :
  ltb a b = true -> ltb b c = true -> ltb a c = true.
Proof.
  unfold ltb, SFltb, SFcompare.
  change (Pos.compare_cont Eq) with Pos.compare.
  float_cases a; float_cases b; float_cases c;
    try discriminate; try reflexivity;
    compare_cases; simpl; try discriminate; try reflexivity;
    intros; subst; lia.
Qed.

Lemma ltb_irrefl (a : float) : ltb a a = false.
Proof.
  unfold ltb, SFltb, SFcompare.
  change (Pos.compare_cont Eq) with Pos.compare.
  float_cases a; try reflexivity;
    rewrite Z.compare_refl, Pos.compare_refl; reflexivity.
Qed.

Lemma leb_refl (a : float) : is_nan a = false -> leb a a = true.
Proof.
  unfold leb, SFleb, SFcompare.
  change (Pos.compare_cont Eq) with Pos.compare.
  float_cases a; try reflexivity; try discriminate;
    rewrite Z.compare_refl, Pos.compare_refl; reflexivity.
Qed.

(** On floats that are not NaN, [a <= b] holds as soon as [b < a] fails. *)
Lemma leb_of_not_ltb (a b : float) :
  is_nan a = false -> is_nan b = false -> ltb b a = false -> leb a b = true.
Proof.
  unfold ltb, leb, SFltb, SFleb, SFcompare.
  change (Pos.compare_cont Eq) with Pos.compare.
  float_cases a; float_cases b;
    try discriminate; try reflexivity; intros _ _;
    compare_cases; simpl; try discriminate; try reflexivity;
    intros; subst; lia.
Qed.

(** [a <= b] and [b < a] exclude each other. *)
Lemma leb_ltb_absurd (a b : float) : leb a b = true -> ltb b a = true -> False.
Proof.
  unfold ltb, leb, SFltb, SFleb, SFcompare.
  change (Pos.compare_cont Eq) with Pos.compare.
  float_cases a; float_cases b; try discriminate;
    compare_cases; simpl; try discriminate; intros; subst; lia.
Qed.

(** Adding [0.0] returns the other operand, negative zero apart. *)
Lemma add_zero_r (v : float) : v <> neg_zero -> add v zero = v.
Proof.
  unfold add, zero, neg_zero.
  float_cases v; try reflexivity. congruence.
Qed.

(** In Python's [==], [v + 0.0 == v] for every [v] that is not NaN. *)
Lemma add_zero_r_eqb (v : float) : is_nan v = false -> eqb (add v zero) v = true.
Proof.
  unfold eqb, SFeqb, SFcompare, add, zero.
  change (Pos.compare_cont Eq) with Pos.compare.
  float_cases v; try reflexivity; try discriminate;
    intros _; simpl; rewrite Z.compare_refl, Pos.compare_refl; reflexivity.
Qed.

End FloatFacts.

(** ** The bar accumulator *)

Section BarAccumulator.

Import PyFloat.

Lemma add_ticks_snoc (o : OHLCV.t) (ticks : list OHLCV.tick) (t : OHLCV.tick) :
  OHLCV.add_ticks o (ticks ++ [t])
  = OHLCV.add_tick (OHLCV.add_ticks o ticks) (fst t) (snd t).
Proof. unfold OHLCV.add_ticks. rewrite fold_left_app. reflexivity. Qed.

Lemma volume_add_ticks (ticks : list OHLCV.tick) (o : OHLCV.t) :
  OHLCV.volume (OHLCV.add_ticks o ticks)
  = fold_left add (OHLCV.sizes ticks) (OHLCV.volume o).
Proof.
  revert o. induction ticks as [|t ticks IH]; intros o; [reflexivity|].
  unfold OHLCV.add_ticks in *. simpl. rewrite IH. reflexivity.
Qed.

Lemma summarises_first (t : OHLCV.tick) :
  is_nan (fst t) = false ->
  OHLCV.summarises [t] (OHLCV.add_ticks OHLCV.init [t]).
Proof.
  intros Hn. destruct t as [p q]. simpl in Hn.
  constructor; simpl; try reflexivity.
  - exists p. repeat split; auto.
    intros p' [<-|[]]. now apply leb_refl.
  - exists p. repeat split; auto.
    intros p' [<-|[]]. now apply leb_refl.
Qed.

Lemma summarises_snoc (ticks : list OHLCV.tick) (t : OHLCV.tick) (bar : OHLCV.t) :
  ticks <> [] ->
  (forall x, In x (ticks ++ [t]) -> is_nan (fst x) = false) ->
  OHLCV.summarises ticks bar ->
  OHLCV.summarises (ticks ++ [t]) (OHLCV.add_tick bar (fst t) (snd t)).
Proof.
  intros Hne Hnan [Ho Hc [h [Hh [Hhin Hhmax]]] [l [Hl [Hlin Hlmin]]] Hv].
  destruct t as [p q]. simpl fst; simpl snd.
  assert (Hp : is_nan p = false).
  { apply (Hnan (p, q)). apply in_or_app. right. now left. }
  assert (Hold : forall x, In x (OHLCV.prices ticks) -> is_nan x = false).
  { intros x Hx. unfold OHLCV.prices in Hx. apply in_map_iff in Hx.
    destruct Hx as [[x1 x2] [<- Hin]]. apply (Hnan (x1, x2)).
    apply in_or_app. now left. }
  constructor; unfold OHLCV.add_tick, OHLCV.prices, OHLCV.sizes in *;
    rewrite ?map_app; simpl.
  - rewrite Ho. destruct ticks; [congruence|]. reflexivity.
  - rewrite rev_app_distr. reflexivity.
  - rewrite Hh. destruct (gtb p h) eqn:E.
    + exists p. split; [reflexivity|]. split.
      * apply in_or_app. right. now left.
      * intros p' Hin. apply in_app_or in Hin. destruct Hin as [Hin|[<-|[]]].
        -- apply leb_of_not_ltb; auto.
           destruct (ltb p p') eqn:E'; [|reflexivity].
           change (ltb h p = true) in E.
           exfalso. apply (leb_ltb_absurd p' h); [now apply Hhmax|].
           exact (ltb_trans _ _ _ E E').
        -- now apply leb_refl.
    + exists h. split; [reflexivity|]. split.
      * apply in_or_app. now left.
      * intros p' Hin. apply in_app_or in Hin. destruct Hin as [Hin|[<-|[]]].
        -- now apply Hhmax.
        -- apply leb_of_not_ltb; auto.
  - rewrite Hl. destruct (ltb p l) eqn:E.
    + exists p. split; [reflexivity|]. split.
      * apply in_or_app. right. now left.
      * intros p' Hin. apply in_app_or in Hin. destruct Hin as [Hin|[<-|[]]].
        -- apply leb_of_not_ltb; auto.
           destruct (ltb p' p) eqn:E'; [|reflexivity].
           exfalso. apply (leb_ltb_absurd l p'); [now apply Hlmin|].
           exact (ltb_trans _ _ _ E' E).
        -- now apply leb_refl.
    + exists l. split; [reflexivity|]. split.
      * apply in_or_app. now left.
      * intros p' Hin. apply in_app_or in Hin. destruct Hin as [Hin|[<-|[]]].
        -- now apply Hlmin.
        -- apply leb_of_not_ltb; auto.
  - rewrite Hv. unfold PyFloat.sum. rewrite fold_left_app. reflexivity.
Qed.

Lemma has_ticks_add_tick (o : OHLCV.t) (p s : float) :
  CoinbaseIngestor.has_ticks o \/ o = OHLCV.init -> CoinbaseIngestor.has_ticks (OHLCV.add_tick o p s).
Proof.
  intros [[ticks [Hne ->]] | ->].
  - exists (ticks ++ [(p, s)]). split.
    + intros H. apply app_eq_nil in H. destruct H. discriminate.
    + now rewrite add_ticks_snoc.
  - exists [(p, s)]. split; [discriminate | reflexivity].
Qed.

Lemma has_ticks_open (o : OHLCV.t) : CoinbaseIngestor.has_ticks o -> OHLCV.open o <> None.
Proof.
  intros [ticks [Hne ->]].
  destruct ticks as [|t ticks _] using rev_ind; [congruence|].
  rewrite add_ticks_snoc. unfold OHLCV.add_tick. simpl.
  destruct (OHLCV.open _); discriminate.
Qed.

Lemma row_from_ticks_open (r : OHLCV.row) :
  CoinbaseIngestor.row_from_ticks r -> OHLCV.row_open r <> None.
Proof.
  intros [ticks [symbol [ts [Hne ->]]]]. simpl.
  apply has_ticks_open. exists ticks. auto.
Qed.

End BarAccumulator.

Section BarClaims.

Import PyFloat.

(** C1.  For every non-empty sequence of ticks applied in order to a fresh
    bar, whose prices are numbers (not NaN): [open] is the price of the
    first tick, [close] the price of the last, [high] is one of the prices
    and every price is [<=] it, [low] is one of the prices and it is [<=]
    every price, and [volume] is the running float sum of the sizes. *)
Theorem add_ticks_summarises (ticks : list OHLCV.tick) :
  ticks <> [] ->
  (forall t, In t ticks -> is_nan (fst t) = false) ->
  OHLCV.summarises ticks (OHLCV.add_ticks OHLCV.init ticks).
Proof.
  induction ticks as [|t ticks IH] using rev_ind; [congruence|].
  intros _ Hnan. destruct ticks as [|t0 ticks].
  - apply summarises_first. apply Hnan. now left.
  - rewrite add_ticks_snoc. apply summarises_snoc.
    + discriminate.
    + exact Hnan.
    + apply IH; [discriminate|].
      intros x Hx. apply Hnan. apply in_or_app. now left.
Qed.

(** The round trip of the specification: ticks (100,1), (105,2), (95,1)
    give open 100, high 105, low 95, close 95 and volume 4. *)
Lemma add_ticks_summarises_witness :
  let ticks := [(lit 100, lit 1); (lit 105, lit 2); (lit 95, lit 1)] in
  OHLCV.summarises ticks (OHLCV.add_ticks OHLCV.init ticks)
  /\ OHLCV.add_ticks OHLCV.init ticks
     = OHLCV.mkOHLCV (Some (lit 100)) (Some (lit 105)) (Some (lit 95))
                     (Some (lit 95)) (lit 4).
Proof.
  split.
  - apply add_ticks_summarises.
    + discriminate.
    + intros t [<-|[<-|[<-|[]]]]; reflexivity.
  - vm_compute. reflexivity.
Defined.

(** C10.  [to_row] on a bar that never absorbed a tick returns a row: its
    open, high, low and close are null and its volume is [0.0].  Such bars
    are the only ones whose row has a null open. *)
Theorem to_row_of_fresh_bar (symbol : string) (ts : Datetime.datetime) :
  OHLCV.to_row OHLCV.init symbol ts
  = OHLCV.mkRow (Datetime.isoformat ts) symbol None None None None zero
  /\ forall ticks,
       OHLCV.row_open (OHLCV.to_row (OHLCV.add_ticks OHLCV.init ticks) symbol ts)
       = None <-> ticks = [].
Proof.
  split; [reflexivity|].
  intros ticks. split.
  - intros Hnull. destruct ticks as [|t ticks]; [reflexivity|].
    exfalso. revert Hnull. apply has_ticks_open.
    exists (t :: ticks). split; [discriminate | reflexivity].
  - intros ->. reflexivity.
Qed.

End BarClaims.

(** ** Datetimes: hour boundaries, printing and parsing *)

Section DatetimeFacts.

Import Datetime.

Lemma days_in_month_le (y m : Z) : 1 <= m <= 12 -> days_in_month y m <= 31.
Proof.
  intros Hm. unfold days_in_month.
  assert (Hcases : m = 1 \/ m = 2 \/ m = 3 \/ m = 4 \/ m = 5 \/ m = 6 \/ m = 7
                   \/ m = 8 \/ m = 9 \/ m = 10 \/ m = 11 \/ m = 12) by lia.
  repeat (destruct Hcases as [-> | Hcases]); try subst m;
    destruct (is_leap y); simpl; lia.
Qed.

Lemma valid_ranges (d : datetime) :
  valid d = true ->
  1 <= year d <= 9999 /\ 1 <= month d <= 12 /\ 1 <= day d <= 31
  /\ 0 <= hour d < 24 /\ 0 <= minute d < 60 /\ 0 <= second d < 60
  /\ 0 <= microsecond d < 1000000.
Proof.
  unfold valid. rewrite !andb_true_iff.
  rewrite !Z.leb_le, !Z.ltb_lt. intros H.
  pose proof (days_in_month_le (year d) (month d)). lia.
Qed.

Lemma wall_seconds_hour_start (d : datetime) :
  wall_seconds (replace_hour_start d)
  = wall_seconds d - (minute d * 60 + second d).
Proof. unfold wall_seconds, replace_hour_start. simpl. lia. Qed.

(** The start of the hour of an instant, from its decomposition. *)
Lemma floor_hour_decompose (w r : Z) :
  0 <= r < HOUR_US -> floor_hour (w * HOUR_US + r) = w * HOUR_US.
Proof.
  intros Hr. unfold floor_hour. f_equal.
  symmetry. apply (Z.div_unique_pos _ _ _ r); unfold HOUR_US in *; lia.
Qed.

(** On a UTC datetime, zeroing minute, second and microsecond gives the
    start of the hour of its instant. *)
Lemma instant_hour_start_utc (d : datetime) :
  valid d = true -> tzinfo d = utc ->
  instant (replace_hour_start d) = floor_hour (instant d).
Proof.
  intros Hv Htz. apply valid_ranges in Hv.
  unfold instant. simpl tzinfo. rewrite Htz. unfold utc, instant_with.
  rewrite wall_seconds_hour_start.
  set (w := ymd2ord (year d) (month d) (day d) * 24 + hour d).
  assert (Hw : wall_seconds d = w * 3600 + (minute d * 60 + second d)).
  { unfold wall_seconds, w. lia. }
  rewrite Hw. simpl microsecond.
  replace ((w * 3600 + (minute d * 60 + second d) - 0) * 1000000 + microsecond d)
    with (w * HOUR_US + ((minute d * 60 + second d) * 1000000 + microsecond d))
    by (unfold HOUR_US; lia).
  rewrite floor_hour_decompose by (unfold HOUR_US; lia).
  unfold HOUR_US. lia.
Qed.

(** The same for the key datetime of a trade whose stamp is UTC or naive. *)
Lemma instant_key_utc (t : datetime) :
  valid t = true -> (tzinfo t = utc \/ tzinfo t = None) ->
  instant (replace_hour_start_utc t) = floor_hour (instant t).
Proof.
  intros Hv Htz. apply valid_ranges in Hv.
  assert (Hi : instant t = instant_with 0 t).
  { unfold instant. destruct Htz as [-> | ->]; reflexivity. }
  rewrite Hi. unfold instant, replace_hour_start_utc, instant_with, wall_seconds.
  simpl.
  set (w := ymd2ord (year t) (month t) (day t) * 24 + hour t).
  replace ((((w * 60 + minute t) * 60 + second t) - 0) * 1000000 + microsecond t)
    with (w * HOUR_US + ((minute t * 60 + second t) * 1000000 + microsecond t))
    by (unfold HOUR_US; lia).
  rewrite floor_hour_decompose by (unfold HOUR_US; lia).
  unfold HOUR_US. lia.
Qed.

Lemma digit_val_digit (n : Z) : digit_val (digit n) = Some (n mod 10).
Proof.
  unfold digit_val, digit.
  pose proof (Z.mod_pos_bound n 10 ltac:(lia)) as Hb.
  rewrite nat_ascii_embedding by lia.
  rewrite Nat2Z.inj_add, Z2Nat.id by lia. simpl Z.of_nat.
  replace (48 <=? 48 + n mod 10) with true by (symmetry; apply Z.leb_le; lia).
  replace (48 + n mod 10 <=? 57) with true by (symmetry; apply Z.leb_le; lia).
  cbn [andb]. f_equal. lia.
Qed.

Lemma read_fmt2 (n : Z) (rest : string) :
  0 <= n < 100 ->
  read_digits 2 0 (fmt2 n ++ rest) = Some (n, rest).
Proof.
  intros Hn. unfold fmt2. cbn [append read_digits].
  rewrite !digit_val_digit. do 2 f_equal.
  Z.div_mod_to_equations. lia.
Qed.

Lemma read_fmt4 (n : Z) (rest : string) :
  0 <= n < 10000 ->
  read_digits 4 0 (fmt4 n ++ rest) = Some (n, rest).
Proof.
  intros Hn. unfold fmt4, fmt2. cbn [append read_digits].
  rewrite !digit_val_digit. do 2 f_equal.
  Z.div_mod_to_equations. lia.
Qed.

(** The reference parser reads back every bucket key: a valid UTC datetime
    on the hour survives [isoformat] followed by parsing. *)
Lemma isoparse_ext_hour_key (d : datetime) :
  valid d = true -> minute d = 0 -> second d = 0 -> microsecond d = 0 ->
  tzinfo d = utc ->
  isoparse_ext (isoformat d) = Some d.
Proof.
  intros Hv Hmi Hs Hus Htz. pose proof (valid_ranges d Hv) as Hr.
  destruct d as [y mo dd hh mi ss us tz].
  cbn [year month day hour minute second microsecond tzinfo] in Hmi, Hs, Hus, Htz, Hr.
  subst mi ss us tz.
  unfold isoparse_ext, isoformat. cbn [year month day hour minute second
    microsecond tzinfo Z.eqb]. unfold utc at 1.
  rewrite read_fmt4 by lia. cbn [obind append expect Ascii.eqb Bool.eqb].
  rewrite read_fmt2 by lia. cbn [obind append expect Ascii.eqb Bool.eqb].
  rewrite read_fmt2 by lia. cbn [obind append expect Ascii.eqb Bool.eqb].
  rewrite read_fmt2 by lia. cbn [obind append expect Ascii.eqb Bool.eqb].
  rewrite read_fmt2 by lia. cbn [obind append expect Ascii.eqb Bool.eqb].
  rewrite read_fmt2 by lia. cbn [obind].
  change (read_fraction (format_offset 0)) with (Some (0, "+00:00"%string)).
  cbn [obind].
  change (read_tz "+00:00") with (Some (Some 0)).
  cbn [obind]. fold utc. rewrite Hv. reflexivity.
Qed.

Lemma valid_hour_start_utc (t : datetime) :
  valid t = true -> valid (replace_hour_start_utc t) = true.
Proof.
  unfold valid, replace_hour_start_utc. cbn [year month day hour minute second
    microsecond tzinfo utc].
  rewrite !andb_true_iff. intros H. repeat split; try tauto; reflexivity.
Qed.

(** Every key the ingestor makes from a valid timestamp is read back by
    the reference parser as the UTC hour it was printed from. *)
Lemma bucket_key_parses (t : datetime) :
  valid t = true ->
  isoparse_ext (CoinbaseIngestor.bucket_key t) = Some (replace_hour_start_utc t).
Proof.
  intros Hv. unfold CoinbaseIngestor.bucket_key.
  apply isoparse_ext_hour_key; try reflexivity.
  now apply valid_hour_start_utc.
Qed.

End DatetimeFacts.

(** ** The bucket store *)

Section StoreFacts.

Import CoinbaseIngestor.

Lemma lookup_app_none (k : string) (a b : store) :
  lookup k a = None -> lookup k (a ++ b) = lookup k b.
Proof.
  induction a as [|[k' o] a IH]; simpl; [reflexivity|].
  destruct (String.eqb k k'); [discriminate|]. exact IH.
Qed.

Lemma lookup_app_some (k : string) (a b : store) (o : OHLCV.t) :
  lookup k a = Some o -> lookup k (a ++ b) = Some o.
Proof.
  induction a as [|[k' o'] a IH]; simpl; [discriminate|].
  destruct (String.eqb k k'); auto.
Qed.

Lemma lookup_mutate (k : string) (f : OHLCV.t -> OHLCV.t) (a : store) (o : OHLCV.t) :
  lookup k a = Some o -> lookup k (mutate k f a) = Some (f o).
Proof.
  induction a as [|[k' o'] a IH]; simpl; [discriminate|].
  destruct (String.eqb k k') eqn:E; simpl; rewrite E.
  - congruence.
  - exact IH.
Qed.

Lemma lookup_mutate_other (k k0 : string) (f : OHLCV.t -> OHLCV.t) (a : store) :
  k0 <> k -> lookup k0 (mutate k f a) = lookup k0 a.
Proof.
  intros Hne. induction a as [|[k' o'] a IH]; simpl; [reflexivity|].
  destruct (String.eqb k k') eqn:E; simpl.
  - apply String.eqb_eq in E. subst k'.
    destruct (String.eqb k0 k) eqn:E0; [|reflexivity].
    apply String.eqb_eq in E0. congruence.
  - rewrite IH. reflexivity.
Qed.

(** After [agg[k].add_tick(...)] the bar under [k] is the former bar, or a
    fresh one, with the update applied. *)
Lemma lookup_after_update (k : string) (f : OHLCV.t -> OHLCV.t) (a : store) :
  lookup k (mutate k f (getitem_default k a))
  = Some (f (match lookup k a with Some o => o | None => OHLCV.init end)).
Proof.
  unfold getitem_default. destruct (lookup k a) as [o|] eqn:E.
  - now apply lookup_mutate.
  - apply lookup_mutate. rewrite lookup_app_none by exact E.
    simpl. rewrite String.eqb_refl. reflexivity.
Qed.

Lemma in_mutate (k : string) (f : OHLCV.t -> OHLCV.t) (a : store)
      (kv : string * OHLCV.t) :
  In kv (mutate k f a) ->
  In kv a \/ exists o, In (k, o) a /\ kv = (k, f o).
Proof.
  induction a as [|[k' o'] a IH]; simpl; [tauto|].
  destruct (String.eqb k k') eqn:E; simpl.
  - apply String.eqb_eq in E. subst k'. intros [<-|H]; [|tauto].
    right. exists o'. auto.
  - intros [<-|H]; [tauto|]. destruct (IH H) as [H'|[o [H1 H2]]]; [tauto|].
    right. exists o. auto.
Qed.

Lemma in_getitem_default (k : string) (a : store) (kv : string * OHLCV.t) :
  In kv (getitem_default k a) -> In kv a \/ kv = (k, OHLCV.init).
Proof.
  unfold getitem_default. destruct (lookup k a); [tauto|].
  intros H. apply in_app_or in H. destruct H as [H|[<-|[]]]; tauto.
Qed.

Lemma mutate_app_none (k : string) (f : OHLCV.t -> OHLCV.t) (a b : store) :
  lookup k a = None -> mutate k f (a ++ b) = a ++ mutate k f b.
Proof.
  induction a as [|[k' o'] a IH]; simpl; [reflexivity|].
  destruct (String.eqb k k'); [discriminate|].
  intros H. now rewrite IH.
Qed.

(** The entries after [agg[k].add_tick(...)]: those already there, and the
    updated bar, made from a former bar or from a fresh one. *)
Lemma in_update (k : string) (f : OHLCV.t -> OHLCV.t) (a : store)
      (kv : string * OHLCV.t) :
  In kv (mutate k f (getitem_default k a)) ->
  In kv a \/ exists o, (In (k, o) a \/ o = OHLCV.init) /\ kv = (k, f o).
Proof.
  unfold getitem_default. destruct (lookup k a) eqn:E.
  - intros H. apply in_mutate in H. destruct H as [H|[o [H1 H2]]]; [tauto|].
    right. exists o. tauto.
  - rewrite mutate_app_none by exact E. simpl. rewrite String.eqb_refl.
    intros H. apply in_app_or in H. destruct H as [H|[<-|[]]]; [tauto|].
    right. exists OHLCV.init. tauto.
Qed.

Lemma pop_in (k : string) (a a' : store) (o : OHLCV.t) :
  pop k a = Some (o, a') ->
  In (k, o) a /\ forall kv, In kv a' -> In kv a.
Proof.
  revert a' o. induction a as [|[k' o'] a IH]; intros a' o; simpl; [discriminate|].
  destruct (String.eqb k k') eqn:E.
  - apply String.eqb_eq in E. subst k'. intros [= <- <-]. split; auto.
  - destruct (pop k a) as [[o1 a1]|] eqn:Ep; [|discriminate].
    intros [= <- <-]. destruct (IH _ _ eq_refl) as [H1 H2]. split; [auto|].
    intros kv [<-|H]; auto.
Qed.

(** Popping a key that first occurs after the prefix [pre]. *)
Lemma pop_middle (k : string) (o : OHLCV.t) (pre post : store) :
  (forall kv, In kv pre -> fst kv <> k) ->
  pop k (pre ++ (k, o) :: post) = Some (o, pre ++ post).
Proof.
  induction pre as [|[k' o'] pre IH]; intros Hpre; simpl.
  - rewrite String.eqb_refl. reflexivity.
  - destruct (String.eqb k k') eqn:E.
    + apply String.eqb_eq in E. subst k'.
      exfalso. apply (Hpre (k, o')); [now left | reflexivity].
    + rewrite IH; [reflexivity|]. intros kv H. apply Hpre. now right.
Qed.

Lemma lookup_none_not_in (k : string) (a : store) :
  (forall kv, In kv a -> fst kv <> k) -> lookup k a = None.
Proof.
  induction a as [|[k' o'] a IH]; intros H; simpl; [reflexivity|].
  destruct (String.eqb k k') eqn:E.
  - apply String.eqb_eq in E. subst k'.
    exfalso. apply (H (k, o')); [now left | reflexivity].
  - apply IH. intros kv Hin. apply H. now right.
Qed.

End StoreFacts.

(** ** The flush of completed buckets *)

Section FlushFacts.

Import Datetime Json CoinbaseIngestor.

Variable isoparse : string -> option datetime.

Local Abbreviation is_old := (is_old isoparse).
Local Abbreviation old_key := (old_key isoparse).
Local Abbreviation select_old := (select_old isoparse).
Local Abbreviation flush_loop := (flush_loop isoparse).
Local Abbreviation comparable := (comparable isoparse).
Local Abbreviation flushed := (flushed isoparse).
Local Abbreviation remaining := (remaining isoparse).
Local Abbreviation row_of_entry := (row_of_entry isoparse).
Local Abbreviation evict_old_buckets := (evict_old_buckets isoparse).
Local Abbreviation maybe_flush_old_buckets := (maybe_flush_old_buckets isoparse).

Lemma old_key_true (ch : datetime) (k : string) :
  old_key ch k = true ->
  exists dt, isoparse k = Some dt /\ Datetime.lt dt ch = Some true.
Proof.
  unfold CoinbaseIngestor.old_key, CoinbaseIngestor.is_old.
  destruct (isoparse k) as [dt|]; [|discriminate].
  destruct (Datetime.lt dt ch) as [b|] eqn:E; [|discriminate].
  intros ->. exists dt. split; [reflexivity | exact E].
Qed.

(** The comprehension returns the old keys when every key can be parsed and
    compared, and raises otherwise. *)
Lemma select_old_ok (ch : datetime) (ks : list string) :
  (forall k, In k ks -> exists b, is_old ch k = Ok b) ->
  select_old ch ks = Ok (filter (old_key ch) ks).
Proof.
  induction ks as [|k ks IH]; intros H; simpl; [reflexivity|].
  destruct (H k (or_introl eq_refl)) as [b Hb].
  unfold CoinbaseIngestor.old_key at 1. rewrite Hb.
  rewrite IH by (intros k' Hk'; apply H; now right).
  destruct b; reflexivity.
Qed.

Lemma select_old_inv (ch : datetime) (ks l : list string) :
  select_old ch ks = Ok l ->
  forall k, In k ks -> exists b, is_old ch k = Ok b.
Proof.
  revert l. induction ks as [|k ks IH]; intros l; simpl; [tauto|].
  destruct (is_old ch k) as [b|e] eqn:E; [|discriminate].
  destruct (select_old ch ks) as [l'|e] eqn:E'; [|discriminate].
  intros _ k' [<-|Hin]; [eauto|]. eapply IH; eauto.
Qed.

Lemma select_old_cases (ch : datetime) (a : store) :
  (comparable ch a /\ select_old ch (keys a) = Ok (keys (flushed ch a)))
  \/ (exists e, select_old ch (keys a) = Raise e).
Proof.
  destruct (select_old ch (keys a)) as [l|e] eqn:E; [left | right; eauto].
  pose proof (select_old_inv _ _ _ E) as Hc. split; [exact Hc|].
  rewrite select_old_ok in E by exact Hc. rewrite <- E.
  unfold keys, CoinbaseIngestor.flushed. clear.
  induction a as [|[k o] a IH]; simpl; [reflexivity|].
  destruct (old_key ch k); simpl; congruence.
Qed.

Lemma set_agg_set_agg (a b : store) (st : ingestor) :
  set_agg a (set_agg b st) = set_agg a st.
Proof. reflexivity. Qed.

Lemma set_agg_same (st : ingestor) : set_agg (agg st) st = st.
Proof. destruct st; reflexivity. Qed.

(** The eviction loop, run on the old keys of the part [post] of the
    store that follows a prefix without old keys: it returns the rows of
    the old entries and leaves the others in place. *)
Lemma flush_loop_spec (ch : datetime) (post pre : store)
      (rows : list OHLCV.row) (st : ingestor) :
  agg st = pre ++ post ->
  (forall kv, In kv pre -> old_key ch (fst kv) = false) ->
  flush_loop (filter (old_key ch) (keys post)) rows st
  = (Ok (rows ++ map (row_of_entry (product_id st)) (flushed ch post)),
     set_agg (pre ++ remaining ch post) st).
Proof.
  revert pre rows st.
  induction post as [|[k o] post IH]; intros pre rows st Hagg Hpre.
  - simpl. unfold ret. rewrite <- Hagg, set_agg_same, app_nil_r.
    reflexivity.
  - unfold keys, CoinbaseIngestor.flushed, CoinbaseIngestor.remaining in *.
    simpl map. simpl filter.
    destruct (old_key ch k) eqn:E; simpl negb; cbv iota.
    + destruct (old_key_true _ _ E) as [dt [Hdt _]].
      simpl. unfold bind at 1, lift, isoparse_value. rewrite Hdt.
      unfold bind at 1, agg_pop. rewrite Hagg.
      rewrite pop_middle.
      2:{ intros kv Hin Heq. specialize (Hpre kv Hin). congruence. }
      unfold bind at 1. simpl product_id.
      rewrite (IH pre); [| reflexivity | exact Hpre].
      simpl product_id. rewrite set_agg_set_agg.
      rewrite <- app_assoc. simpl.
      unfold CoinbaseIngestor.row_of_entry at 2, CoinbaseIngestor.parsed_key.
      simpl. rewrite Hdt. reflexivity.
    + rewrite (IH (pre ++ [(k, o)])).
      * rewrite <- app_assoc. reflexivity.
      * rewrite <- app_assoc. exact Hagg.
      * intros kv Hin. apply in_app_or in Hin.
        destruct Hin as [Hin|[<-|[]]]; auto.
Qed.

(** Lines 104 to 111 as a function of the store. *)
Lemma evict_spec (e : env) (st : ingestor) :
  let ch := replace_hour_start (now e) in
  comparable ch (agg st) ->
  evict_old_buckets e st
  = (Ok (map (row_of_entry (product_id st)) (flushed ch (agg st))),
     set_agg (remaining ch (agg st)) st).
Proof.
  intros ch Hc. unfold CoinbaseIngestor.evict_old_buckets, bind.
  fold ch. rewrite select_old_ok by exact Hc.
  exact (flush_loop_spec ch (agg st) [] [] st eq_refl (fun _ H => match H with end)).
Qed.

Lemma evict_raises (e : env) (st : ingestor) :
  let ch := replace_hour_start (now e) in
  ~ comparable ch (agg st) ->
  exists x, evict_old_buckets e st = (Raise x, st).
Proof.
  intros ch Hc. unfold CoinbaseIngestor.evict_old_buckets, bind. fold ch.
  destruct (select_old_cases ch (agg st)) as [[H _]|[x Hx]]; [tauto|].
  exists x. rewrite Hx. reflexivity.
Qed.

Lemma write_rows_bq_spec (rows : list OHLCV.row)
      (outcome : result (list string)) (st : ingestor) :
  let table_id := (project st ++ "." ++ dataset st ++ "." ++ table st)%string in
  let called := add_event (BqInsert table_id rows outcome) st in
  write_rows_bq rows outcome st
  = match outcome with
    | Ok errors =>
        (Ok tt,
         add_event (match errors with
                    | [] => LogInserted (List.length rows) table_id
                    | _ :: _ => LogInsertErrors errors
                    end) called)
    | Raise x => (Raise x, called)
    end.
Proof. destruct outcome as [[|]|]; reflexivity. Qed.

(** The call is made whatever its outcome, and the store is not touched. *)
Lemma write_rows_bq_agg (rows : list OHLCV.row)
      (outcome : result (list string)) (st : ingestor) :
  agg (snd (write_rows_bq rows outcome st)) = agg st.
Proof. rewrite write_rows_bq_spec. destruct outcome; reflexivity. Qed.

Lemma write_rows_bq_fst (rows : list OHLCV.row)
      (outcome : result (list string)) (st : ingestor) :
  fst (write_rows_bq rows outcome st)
  = match outcome with
    | Ok _ => Ok tt
    | Raise x => Raise x
    end.
Proof. rewrite write_rows_bq_spec. destruct outcome; reflexivity. Qed.

Lemma old_key_remaining (ch : datetime) (a : store) :
  filter (old_key ch) (keys (remaining ch a)) = [].
Proof.
  unfold keys, CoinbaseIngestor.remaining.
  induction a as [|[k o] a IH]; simpl; [reflexivity|].
  destruct (old_key ch k) eqn:E; simpl; [exact IH|].
  rewrite E. exact IH.
Qed.

Lemma comparable_remaining (ch : datetime) (a : store) :
  comparable ch a -> comparable ch (remaining ch a).
Proof.
  intros Hc k Hk. apply Hc. unfold keys in *. apply in_map_iff in Hk.
  destruct Hk as [kv [<- Hin]]. apply in_map.
  unfold CoinbaseIngestor.remaining in Hin. apply filter_In in Hin. tauto.
Qed.

Lemma lookup_remaining_old (ch : datetime) (a : store) (k : string) :
  old_key ch k = true -> lookup k (remaining ch a) = None.
Proof.
  intros Hk. apply lookup_none_not_in. intros kv Hin Heq.
  unfold CoinbaseIngestor.remaining in Hin. apply filter_In in Hin.
  destruct Hin as [_ Hin]. rewrite Heq, Hk in Hin. discriminate.
Qed.

Lemma lookup_remaining_kept (ch : datetime) (a : store) (k : string) :
  old_key ch k = false -> lookup k (remaining ch a) = lookup k a.
Proof.
  intros Hk. unfold CoinbaseIngestor.remaining.
  induction a as [|[k' o] a IH]; simpl; [reflexivity|].
  destruct (String.eqb k k') eqn:E.
  - apply String.eqb_eq in E. subst k'. rewrite Hk. simpl.
    rewrite String.eqb_refl. reflexivity.
  - destruct (old_key ch k'); simpl; [exact IH|].
    rewrite E. exact IH.
Qed.

Lemma keys_flushed (ch : datetime) (a : store) :
  keys (flushed ch a) = filter (old_key ch) (keys a).
Proof.
  unfold keys, CoinbaseIngestor.flushed.
  induction a as [|[k o] a IH]; simpl; [reflexivity|].
  destruct (old_key ch k); simpl; congruence.
Qed.

End FlushFacts.

Section FlushClaims.

Import Datetime Json CoinbaseIngestor.

Variable isoparse : string -> option datetime.

Local Abbreviation is_old := (is_old isoparse).
Local Abbreviation old_key := (old_key isoparse).
Local Abbreviation select_old := (select_old isoparse).
Local Abbreviation comparable := (comparable isoparse).
Local Abbreviation flushed := (flushed isoparse).
Local Abbreviation remaining := (remaining isoparse).
Local Abbreviation row_of_entry := (row_of_entry isoparse).
Local Abbreviation starts_before := (starts_before isoparse).
Local Abbreviation evict_old_buckets := (evict_old_buckets isoparse).
Local Abbreviation maybe_flush_old_buckets := (maybe_flush_old_buckets isoparse).

(** The whole flush as a function of the store, when it completes. *)
Lemma maybe_flush_spec (e : env) (st : ingestor) :
  let ch := replace_hour_start (now e) in
  comparable ch (agg st) ->
  let rows := map (row_of_entry (product_id st)) (flushed ch (agg st)) in
  let mid := set_agg (remaining ch (agg st)) st in
  maybe_flush_old_buckets e st
  = match rows with
    | [] => (Ok tt, mid)
    | _ :: _ => write_rows_bq rows (insert_rows_json e) mid
    end.
Proof.
  intros ch Hc rows mid.
  unfold CoinbaseIngestor.maybe_flush_old_buckets, bind.
  rewrite (evict_spec isoparse e st Hc). fold ch rows mid.
  destruct rows; reflexivity.
Qed.

(** How a flush ends when the keys can be compared: it raises exactly when
    it calls the backend and that call raises. *)
Lemma maybe_flush_fst (e : env) (st : ingestor) :
  let ch := replace_hour_start (now e) in
  comparable ch (agg st) ->
  fst (maybe_flush_old_buckets e st)
  = match flushed ch (agg st), insert_rows_json e with
    | _ :: _, Raise x => Raise x
    | _, _ => Ok tt
    end.
Proof.
  intros ch Hc. rewrite (maybe_flush_spec e st Hc). fold ch.
  destruct (flushed ch (agg st)) as [|kv gone]; [reflexivity|].
  simpl map. cbv iota. rewrite write_rows_bq_fst.
  destruct (insert_rows_json e); reflexivity.
Qed.

Lemma maybe_flush_agg (e : env) (st : ingestor) :
  let ch := replace_hour_start (now e) in
  comparable ch (agg st) ->
  agg (snd (maybe_flush_old_buckets e st)) = remaining ch (agg st).
Proof.
  intros ch Hc. rewrite (maybe_flush_spec e st Hc). fold ch.
  destruct (map _ _); [reflexivity|]. now rewrite write_rows_bq_agg.
Qed.

Lemma maybe_flush_result (e : env) (st : ingestor) :
  let ch := replace_hour_start (now e) in
  comparable ch (agg st) ->
  returns e \/ flushed ch (agg st) = [] ->
  fst (maybe_flush_old_buckets e st) = Ok tt
  /\ agg (snd (maybe_flush_old_buckets e st)) = remaining ch (agg st).
Proof.
  intros ch Hc Hret. split; [|exact (maybe_flush_agg e st Hc)].
  rewrite (maybe_flush_fst e st Hc). fold ch.
  destruct Hret as [[errors ->] | ->]; [|reflexivity].
  destruct (flushed ch (agg st)); reflexivity.
Qed.

(** Nothing old in the store: the flush is a no-op. *)
Lemma remaining_all (ch : datetime) (a : store) :
  flushed ch a = [] -> remaining ch a = a.
Proof.
  unfold CoinbaseIngestor.flushed, CoinbaseIngestor.remaining.
  induction a as [|[k o] a IH]; simpl; [reflexivity|].
  destruct (old_key ch k); simpl; [discriminate|].
  intros H. now rewrite IH.
Qed.

Lemma flushed_remaining (ch : datetime) (a : store) :
  flushed ch (remaining ch a) = [].
Proof.
  unfold CoinbaseIngestor.flushed, CoinbaseIngestor.remaining.
  induction a as [|[k o] a IH]; simpl; [reflexivity|].
  destruct (old_key ch k) eqn:E; simpl; [exact IH|].
  rewrite E. exact IH.
Qed.

Lemma maybe_flush_nothing_old (e : env) (st : ingestor) :
  let ch := replace_hour_start (now e) in
  comparable ch (agg st) -> flushed ch (agg st) = [] ->
  maybe_flush_old_buckets e st = (Ok tt, st).
Proof.
  intros ch Hc Hnone. rewrite (maybe_flush_spec e st Hc). fold ch.
  rewrite Hnone, (remaining_all ch _ Hnone). simpl. now rewrite set_agg_same.
Qed.

(** A flush that cannot parse or compare some key raises before it
    touches anything. *)
Lemma maybe_flush_raises (e : env) (st : ingestor) :
  let ch := replace_hour_start (now e) in
  ~ comparable ch (agg st) ->
  exists x, maybe_flush_old_buckets e st = (Raise x, st).
Proof.
  intros ch Hc. destruct (evict_raises isoparse e st Hc) as [x Hx].
  exists x. unfold CoinbaseIngestor.maybe_flush_old_buckets, bind.
  rewrite Hx. reflexivity.
Qed.

(** Keys that parse to aware datetimes compare with a UTC hour start. *)
Lemma aware_keys_comparable (ch : datetime) (a : store) :
  tzinfo ch = utc ->
  (forall k, In k (keys a) ->
     exists dt off, isoparse k = Some dt /\ tzinfo dt = Some off) ->
  comparable ch a.
Proof.
  intros Hch Hk k Hin. destruct (Hk k Hin) as [dt [off [Hp Htz]]].
  unfold CoinbaseIngestor.is_old, Datetime.lt.
  rewrite Hp, Htz, Hch. unfold utc. eauto.
Qed.

Lemma old_key_iff (ch : datetime) (k : string) :
  tzinfo ch = utc ->
  (exists dt off, isoparse k = Some dt /\ tzinfo dt = Some off) ->
  old_key ch k = true <-> starts_before (instant ch) k.
Proof.
  intros Hch [dt [off [Hp Htz]]].
  unfold CoinbaseIngestor.old_key, CoinbaseIngestor.is_old,
    CoinbaseIngestor.starts_before, Datetime.lt.
  rewrite Hp, Htz, Hch. unfold utc.
  assert (Hi : instant dt = instant_with off dt) by (unfold instant; now rewrite Htz).
  assert (Hc : instant ch = instant_with 0 ch) by (unfold instant; now rewrite Hch).
  rewrite Z.ltb_lt. split.
  - intros H. exists dt. split; [reflexivity|]. lia.
  - intros [dt' [[= <-] H]]. lia.
Qed.

(** C2.  The keys the flush selects are exactly the keys of the store whose
    bucket start lies strictly before the start of the current UTC hour,
    computed from the clock; no key whose bucket starts at or after that
    boundary is selected, the key of the current hour in particular.
    Once the flush has run no selected key is left in the store, and
    nothing else has left it: every entry under a key that was not
    selected is still there, every such key reads as before, the bucket of
    the current hour among them.  This holds whether the flush returns or
    the backend call it makes raises; it raises only then.  The keys are
    taken to parse as aware datetimes, as those the ingestor creates do. *)
Theorem flush_selects_exactly_old_keys (e : env) (st : ingestor) :
  valid (now e) = true ->
  tzinfo (now e) = utc ->
  (forall k, In k (keys (agg st)) ->
     exists dt off, isoparse k = Some dt /\ tzinfo dt = Some off) ->
  isoparse (bucket_key (now e)) = Some (replace_hour_start_utc (now e)) ->
  let boundary := floor_hour (instant (now e)) in
  let st' := snd (maybe_flush_old_buckets e st) in
  exists to_flush,
    select_old (replace_hour_start (now e)) (keys (agg st)) = Ok to_flush
    /\ (forall k, In k to_flush <->
                  In k (keys (agg st)) /\ starts_before boundary k)
    /\ (forall k dt, isoparse k = Some dt -> boundary <= instant dt ->
                     ~ In k to_flush)
    /\ ~ In (bucket_key (now e)) to_flush
    /\ (forall k, In k to_flush -> lookup k (agg st') = None)
    /\ (forall k o, In (k, o) (agg st) -> ~ In k to_flush -> In (k, o) (agg st'))
    /\ (forall k, ~ In k to_flush -> lookup k (agg st') = lookup k (agg st))
    /\ lookup (bucket_key (now e)) (agg st')
       = lookup (bucket_key (now e)) (agg st)
    /\ (forall kv, In kv (agg st') -> In kv (agg st))
    /\ fst (maybe_flush_old_buckets e st)
       = match to_flush, insert_rows_json e with
         | _ :: _, Raise x => Raise x
         | _, _ => Ok tt
         end.
Proof.
  intros Hv Hutc Hkeys Hcur boundary st'.
  set (ch := replace_hour_start (now e)).
  assert (Hch : tzinfo ch = utc) by exact Hutc.
  assert (Hb : instant ch = boundary) by (apply instant_hour_start_utc; assumption).
  pose proof (aware_keys_comparable ch (agg st) Hch Hkeys) as Hc.
  exists (filter (old_key ch) (keys (agg st))).
  assert (Hsel : forall k, In k (filter (old_key ch) (keys (agg st))) <->
                           In k (keys (agg st)) /\ starts_before boundary k).
  { intros k. rewrite filter_In. rewrite <- Hb. split.
    - intros [Hin Hold]. split; [exact Hin|].
      apply old_key_iff; auto.
    - intros [Hin Hold]. split; [exact Hin|].
      apply old_key_iff; auto. }
  split; [now apply select_old_ok|].
  split; [exact Hsel|].
  assert (Hlate : forall k dt, isoparse k = Some dt -> boundary <= instant dt ->
                    ~ In k (filter (old_key ch) (keys (agg st)))).
  { intros k dt Hp Hge Hin. apply Hsel in Hin.
    destruct Hin as [_ [dt' [Hp' Hlt]]].
    rewrite Hp in Hp'. injection Hp' as <-. lia. }
  split; [exact Hlate|].
  assert (Hnow : ~ In (bucket_key (now e)) (filter (old_key ch) (keys (agg st)))).
  { apply (Hlate _ _ Hcur).
    assert (Hsame : replace_hour_start_utc (now e) = ch).
    { unfold ch, replace_hour_start, replace_hour_start_utc. now rewrite Hutc. }
    rewrite Hsame, Hb. lia. }
  split; [exact Hnow|].
  pose proof (maybe_flush_agg e st Hc) as Hagg. fold ch st' in Hagg.
  assert (Hkept : forall k, ~ In k (filter (old_key ch) (keys (agg st))) ->
                    lookup k (agg st') = lookup k (agg st)).
  { intros k Hout. rewrite Hagg.
    destruct (old_key ch k) eqn:Ek; [|now apply lookup_remaining_kept].
    rewrite lookup_remaining_old by exact Ek. symmetry.
    apply lookup_none_not_in. intros kv Hin Heq. apply Hout.
    apply filter_In. split; [|exact Ek].
    rewrite <- Heq. unfold keys. now apply in_map. }
  split.
  { intros k Hin. rewrite Hagg. apply lookup_remaining_old.
    apply filter_In in Hin. tauto. }
  split.
  { intros k o Hin Hout. rewrite Hagg. unfold CoinbaseIngestor.remaining.
    apply filter_In. split; [exact Hin|]. simpl.
    destruct (old_key ch k) eqn:Ek; [|reflexivity].
    exfalso. apply Hout. apply filter_In. split; [|exact Ek].
    unfold keys. now apply (in_map fst) in Hin. }
  split; [exact Hkept|].
  split; [now apply Hkept|].
  split.
  { intros kv Hin. rewrite Hagg in Hin. unfold CoinbaseIngestor.remaining in Hin.
    apply filter_In in Hin. tauto. }
  rewrite (maybe_flush_fst e st Hc). fold ch.
  rewrite <- (keys_flushed isoparse ch (agg st)).
  destruct (flushed ch (agg st)); reflexivity.
Qed.

(** C7.  A flush evicts before it writes and never puts a bucket back: the
    eviction phase ends with no selected key left in the store and with
    nothing yet handed to the backend; the write, if any, starts from that
    store; and the store after the flush is that same store whatever the
    backend does, return errors or raise.  When it returns errors the
    batch was handed over once, the errors were logged, and the buckets
    are gone; when it raises the batch was handed over once, nothing was
    logged, and the buckets are gone all the same. *)
Theorem flush_evicts_before_write (e : env) (st : ingestor) :
  let ch := replace_hour_start (now e) in
  comparable ch (agg st) ->
  exists rows mid,
    evict_old_buckets e st = (Ok rows, mid)
    /\ events mid = events st
    /\ (forall k, In k (keys (flushed ch (agg st))) -> lookup k (agg mid) = None)
    /\ maybe_flush_old_buckets e st
       = match rows with
         | [] => (Ok tt, mid)
         | _ :: _ => write_rows_bq rows (insert_rows_json e) mid
         end
    /\ agg (snd (maybe_flush_old_buckets e st)) = agg mid
    /\ (rows <> [] ->
        let table_id := (project st ++ "." ++ dataset st ++ "." ++ table st)%string in
        (forall x errors, insert_rows_json e = Ok (x :: errors) ->
           events (snd (maybe_flush_old_buckets e st))
           = events st ++ [BqInsert table_id rows (Ok (x :: errors));
                           LogInsertErrors (x :: errors)])
        /\ (forall x, insert_rows_json e = Raise x ->
              events (snd (maybe_flush_old_buckets e st))
              = events st ++ [BqInsert table_id rows (Raise x)])).
Proof.
  intros ch Hc.
  exists (map (row_of_entry (product_id st)) (flushed ch (agg st))).
  exists (set_agg (remaining ch (agg st)) st).
  split; [exact (evict_spec isoparse e st Hc)|].
  split; [reflexivity|].
  split.
  { intros k Hin. simpl. apply lookup_remaining_old.
    unfold keys, CoinbaseIngestor.flushed in Hin. apply in_map_iff in Hin.
    destruct Hin as [kv [<- Hin]]. apply filter_In in Hin. tauto. }
  split; [exact (maybe_flush_spec e st Hc)|].
  split; [exact (maybe_flush_agg e st Hc)|].
  rewrite (maybe_flush_spec e st Hc). fold ch.
  destruct (map _ _) as [|r rows] eqn:E; [congruence|].
  intros _ table_id. rewrite write_rows_bq_spec. split.
  - intros x errors ->. cbn [snd]. simpl. rewrite <- app_assoc. reflexivity.
  - intros x ->. reflexivity.
Qed.

(** C8.  Two flushes in a row at the same hour boundary: the second one
    leaves the ingestor as the first left it, so it hands nothing to the
    backend; and when the first completed, the second selects no key and
    builds the empty batch. *)
Theorem flush_twice_writes_once (e1 e2 : env) (st : ingestor) :
  replace_hour_start (now e1) = replace_hour_start (now e2) ->
  let st1 := snd (maybe_flush_old_buckets e1 st) in
  snd (maybe_flush_old_buckets e2 st1) = st1
  /\ (fst (maybe_flush_old_buckets e1 st) = Ok tt ->
      select_old (replace_hour_start (now e2)) (keys (agg st1)) = Ok []
      /\ evict_old_buckets e2 st1 = (Ok [], st1)
      /\ maybe_flush_old_buckets e2 st1 = (Ok tt, st1)).
Proof.
  intros Hsame st1. set (ch := replace_hour_start (now e1)).
  destruct (select_old_cases isoparse ch (agg st)) as [[Hc _]|[x Hx]].
  - (* the first flush completes *)
    pose proof (maybe_flush_agg e1 st Hc) as Hagg. fold ch st1 in Hagg.
    assert (Hc1 : comparable (replace_hour_start (now e2)) (agg st1)).
    { rewrite <- Hsame, Hagg. now apply comparable_remaining. }
    assert (Hnone : flushed (replace_hour_start (now e2)) (agg st1) = []).
    { rewrite <- Hsame. fold ch. rewrite Hagg.
      unfold CoinbaseIngestor.flushed, CoinbaseIngestor.remaining.
      clear. induction (agg st) as [|[k o] a IH]; simpl; [reflexivity|].
      destruct (old_key ch k) eqn:E; simpl; [exact IH|].
      rewrite E. exact IH. }
    assert (Hrem : remaining (replace_hour_start (now e2)) (agg st1) = agg st1).
    { rewrite <- Hsame. fold ch. rewrite Hagg.
      unfold CoinbaseIngestor.remaining.
      clear. induction (agg st) as [|[k o] a IH]; simpl; [reflexivity|].
      destruct (old_key ch k) eqn:E; simpl; [exact IH|].
      rewrite E. simpl. now rewrite IH. }
    assert (Hflush : maybe_flush_old_buckets e2 st1 = (Ok tt, st1)).
    { rewrite (maybe_flush_spec e2 st1 Hc1). rewrite Hnone, Hrem. simpl.
      now rewrite set_agg_same. }
    split; [now rewrite Hflush|]. intros _.
    split.
    { rewrite select_old_ok by exact Hc1. rewrite <- Hsame. fold ch.
      rewrite Hagg. now rewrite old_key_remaining. }
    split; [|exact Hflush].
    rewrite (evict_spec isoparse e2 st1 Hc1). rewrite Hnone, Hrem. simpl.
    now rewrite set_agg_same.
  - (* the first flush raises on a key and changes nothing *)
    assert (Hn : ~ comparable ch (agg st)).
    { intros Hc. rewrite select_old_ok in Hx by exact Hc. discriminate. }
    destruct (maybe_flush_raises e1 st Hn) as [y Hy].
    assert (Hst1 : st1 = st) by (unfold st1; now rewrite Hy).
    split.
    + rewrite Hst1.
      assert (Hn2 : ~ comparable (replace_hour_start (now e2)) (agg st))
        by (now rewrite <- Hsame).
      destruct (maybe_flush_raises e2 st Hn2) as [z Hz]. now rewrite Hz.
    + rewrite Hy. discriminate.
Qed.

End FlushClaims.

(** ** Reasoning about methods *)

Section MonadFacts.

Import CoinbaseIngestor.

Lemma keeps_bind {A B : Type} (I : ingestor -> Prop) (m : M A) (f : A -> M B)
      (Q : A -> Prop) (R : B -> Prop) :
  keeps I m Q -> (forall a, Q a -> keeps I (f a) R) -> keeps I (bind m f) R.
Proof.
  intros Hm Hf st Hst. unfold bind.
  destruct (Hm st Hst) as [H1 H2].
  destruct (m st) as [[a|x] st']; simpl in *.
  - apply Hf; auto.
  - split; [exact H1 | discriminate].
Qed.

Lemma keeps_lift {A : Type} (I : ingestor -> Prop) (r : result A) :
  keeps I (lift r) (fun a => r = Ok a).
Proof. intros st Hst. split; auto. Qed.

Lemma keeps_ret {A : Type} (I : ingestor -> Prop) (a : A) (Q : A -> Prop) :
  Q a -> keeps I (ret a) Q.
Proof. intros Ha st Hst. split; [exact Hst|]. intros a' [= <-]. exact Ha. Qed.

Lemma keeps_raise {A : Type} (I : ingestor -> Prop) (x : exn) (Q : A -> Prop) :
  keeps I (raise x) Q.
Proof. intros st Hst. split; [exact Hst | discriminate]. Qed.

Lemma keeps_weaken {A : Type} (I : ingestor -> Prop) (m : M A)
      (Q R : A -> Prop) :
  keeps I m Q -> (forall a, Q a -> R a) -> keeps I m R.
Proof. intros Hm HQR st Hst. destruct (Hm st Hst). split; auto. Qed.

Lemma keeps_try {A : Type} (I : ingestor -> Prop) (m : M A) (h : exn -> M A)
      (Q : A -> Prop) :
  keeps I m Q -> (forall x, keeps I (h x) Q) -> keeps I (try_except m h) Q.
Proof.
  intros Hm Hh st Hst. unfold try_except.
  destruct (Hm st Hst) as [H1 H2].
  destruct (m st) as [[a|x] st']; simpl in *.
  - split; [exact H1|]. intros a' [= <-]. now apply H2.
  - now apply Hh.
Qed.

Lemma alike_bind {A B : Type} (m m' : M A) (f f' : A -> M B) :
  alike m m' -> (forall a, alike (f a) (f' a)) -> alike (bind m f) (bind m' f').
Proof.
  intros Hm Hf st st' Hs. unfold bind.
  destruct (Hm st st' Hs) as [H1 H2].
  destruct (m st) as [[a|x] s1]; destruct (m' st') as [[a'|x'] s1'];
    simpl in *; try discriminate.
  - injection H1 as <-. now apply Hf.
  - injection H1 as <-. split; [reflexivity | assumption].
Qed.

Lemma alike_pure {A : Type} (r : result A) : alike (lift r) (lift r).
Proof. intros st st' Hs. split; [reflexivity | exact Hs]. Qed.

Lemma alike_ret {A : Type} (a : A) : alike (ret a) (ret a).
Proof. intros st st' Hs. split; [reflexivity | exact Hs]. Qed.

Lemma alike_raise {A : Type} (x : exn) : alike (@raise A x) (raise x).
Proof. intros st st' Hs. split; [reflexivity | exact Hs]. Qed.

Lemma alike_try {A : Type} (m m' : M A) (h h' : exn -> M A) :
  alike m m' -> (forall x, alike (h x) (h' x)) ->
  alike (try_except m h) (try_except m' h').
Proof.
  intros Hm Hh st st' Hs. unfold try_except.
  destruct (Hm st st' Hs) as [H1 H2].
  destruct (m st) as [[a|x] s1]; destruct (m' st') as [[a'|x'] s1'];
    simpl in *; try discriminate.
  - split; assumption.
  - injection H1 as <-. now apply Hh.
Qed.

Lemma skeleton_add_event (ev : event) (st : ingestor) :
  skeleton (add_event ev st)
  = if is_write_event ev then skeleton st else add_event ev (skeleton st).
Proof.
  unfold skeleton, add_event. simpl. rewrite filter_app. simpl.
  destruct (is_write_event ev); simpl; [now rewrite app_nil_r | reflexivity].
Qed.

Lemma alike_emit (ev : event) : alike (emit ev) (emit ev).
Proof.
  intros st st' Hs. split; [reflexivity|]. simpl.
  rewrite !skeleton_add_event, Hs. reflexivity.
Qed.

Lemma skeleton_fields (st st' : ingestor) :
  skeleton st = skeleton st' ->
  product_id st = product_id st' /\ agg st = agg st'
  /\ running st = running st'.
Proof. unfold skeleton. intros [= H1 H2 H3 _ _ _ _]. auto. Qed.

Lemma skeleton_set_agg (a : store) (st st' : ingestor) :
  skeleton st = skeleton st' ->
  skeleton (set_agg a st) = skeleton (set_agg a st').
Proof. unfold skeleton, set_agg. simpl. intros [= -> -> _ -> -> -> ->]. reflexivity. Qed.

Lemma skeleton_set_running (b : bool) (st st' : ingestor) :
  skeleton st = skeleton st' ->
  skeleton (set_running b st) = skeleton (set_running b st').
Proof.
  unfold skeleton, set_running. simpl. intros [= -> _ -> -> -> -> ->]. reflexivity.
Qed.

End MonadFacts.

(** ** The invariant: no bar without a tick *)

Section InvariantFacts.

Import PyFloat Datetime Json CoinbaseIngestor.

Variable float_of_str : string -> option float.
Variable isoparse : string -> option datetime.

Local Abbreviation flush_loop := (flush_loop isoparse).
Local Abbreviation evict_old_buckets := (evict_old_buckets isoparse).
Local Abbreviation maybe_flush_old_buckets := (maybe_flush_old_buckets isoparse).
Local Abbreviation handle_trade_msg := (handle_trade_msg float_of_str isoparse).
Local Abbreviation on_message := (on_message float_of_str isoparse).
Local Abbreviation message_loop := (message_loop float_of_str isoparse).
Local Abbreviation connect_ws := (connect_ws float_of_str isoparse).
Local Abbreviation rest_poll := (rest_poll float_of_str isoparse).
Local Abbreviation run_iteration := (run_iteration float_of_str isoparse).
Local Abbreviation run_loop := (run_loop float_of_str isoparse).
Local Abbreviation run := (run float_of_str isoparse).
Local Abbreviation reachable := (reachable float_of_str isoparse).

Lemma keeps_emit_log (ev : event) :
  (forall t r x, ev <> BqInsert t r x) ->
  keeps invariant (emit ev) (fun _ => True).
Proof.
  intros Hev st [Hb Hr]. split; [|trivial]. split.
  - exact Hb.
  - intros t rows errs Hin. simpl in Hin. apply in_app_or in Hin.
    destruct Hin as [Hin|[Heq|[]]]; [eapply Hr; eauto|].
    exfalso. eapply Hev; eauto.
Qed.

Lemma keeps_agg_add_tick (k : string) (p s : float) :
  keeps invariant (agg_add_tick k p s) (fun _ => True).
Proof.
  intros st [Hb Hr]. split; [|trivial]. split; [|exact Hr].
  intros k' o' Hin. simpl in Hin. apply in_update in Hin.
  destruct Hin as [Hin | [o [Ho [= -> ->]]]].
  - eapply Hb; eauto.
  - apply has_ticks_add_tick. destruct Ho as [Ho | ->]; [left | now right].
    eapply Hb; eauto.
Qed.

Lemma keeps_agg_pop (k : string) :
  keeps invariant (agg_pop k) has_ticks.
Proof.
  intros st [Hb Hr]. unfold agg_pop.
  destruct (pop k (agg st)) as [[o a]|] eqn:E; simpl.
  - destruct (pop_in _ _ _ _ E) as [Hin Hsub]. split.
    + split; [|exact Hr]. intros k' o' H. simpl in H.
      eapply Hb. apply Hsub. exact H.
    + intros o' [= <-]. eapply Hb; eauto.
  - split; [split; assumption | discriminate].
Qed.

Lemma keeps_flush_loop (to_flush : list string) (rows : list OHLCV.row) :
  good_rows rows -> keeps invariant (flush_loop to_flush rows) good_rows.
Proof.
  revert rows. induction to_flush as [|k ks IH]; intros rows Hrows.
  - now apply keeps_ret.
  - simpl. eapply keeps_bind; [apply keeps_lift|]. intros dt _.
    eapply keeps_bind; [apply keeps_agg_pop|]. intros o Ho.
    eapply keeps_bind with (Q := fun r => row_from_ticks r).
    + intros st Hst. split; [exact Hst|]. intros r [= <-].
      destruct Ho as [ticks [Hne ->]]. exists ticks. eauto.
    + intros r Hr. apply IH. intros r' Hin. apply in_app_or in Hin.
      destruct Hin as [Hin|[<-|[]]]; auto.
Qed.

Lemma keeps_evict (e : env) :
  keeps invariant (evict_old_buckets e) good_rows.
Proof.
  unfold CoinbaseIngestor.evict_old_buckets.
  eapply keeps_bind with (Q := fun _ => True).
  - intros st Hst. split; [exact Hst | trivial].
  - intros to_flush _. apply keeps_flush_loop. intros r [].
Qed.

Lemma keeps_write (rows : list OHLCV.row) (outcome : result (list string)) :
  good_rows rows ->
  keeps invariant (write_rows_bq rows outcome) (fun _ => True).
Proof.
  intros Hrows st [Hb Hr]. rewrite write_rows_bq_spec. split; [|trivial].
  assert (Hcall : forall t rows' out,
            In (BqInsert t rows' out)
               (events st ++ [BqInsert (project st ++ "." ++ dataset st ++ "."
                                        ++ table st) rows outcome]) ->
            forall r, In r rows' -> row_from_ticks r).
  { intros t rows' out Hin. apply in_app_or in Hin.
    destruct Hin as [Hin|[[= _ <- _]|[]]]; [eapply Hr; eauto | exact Hrows]. }
  destruct outcome as [errors|x]; cbn [snd]; (split; [exact Hb|]).
  - intros t rows' out Hin. simpl in Hin.
    apply in_app_or in Hin. destruct Hin as [Hin|[Heq|[]]].
    + eapply Hcall; eauto.
    + destruct errors; discriminate.
  - intros t rows' out Hin. eapply Hcall; eauto.
Qed.

Lemma keeps_maybe_flush (e : env) :
  keeps invariant (maybe_flush_old_buckets e) (fun _ => True).
Proof.
  unfold CoinbaseIngestor.maybe_flush_old_buckets.
  eapply keeps_bind; [apply keeps_evict|]. intros rows Hrows.
  destruct rows; [now apply keeps_ret | now apply keeps_write].
Qed.

Lemma keeps_handle (data : value) (e : env) :
  keeps invariant (handle_trade_msg data e) (fun _ => True).
Proof.
  unfold CoinbaseIngestor.handle_trade_msg.
  eapply keeps_bind; [apply keeps_lift|]. intros p _.
  eapply keeps_bind; [apply keeps_lift|]. intros s _.
  eapply keeps_bind; [apply keeps_lift|]. intros t _.
  eapply keeps_bind; [apply keeps_agg_add_tick|]. intros _ _.
  apply keeps_maybe_flush.
Qed.

Lemma keeps_on_message (f : frame) :
  keeps invariant (on_message f) (fun _ => True).
Proof.
  unfold CoinbaseIngestor.on_message. destruct (frame_msg f) as [|data].
  - now apply keeps_ret.
  - eapply keeps_bind; [apply keeps_lift|]. intros ty _.
    destruct (eq_str ty "match"); [apply keeps_handle | now apply keeps_ret].
Qed.

Lemma keeps_message_loop (fs : list frame) :
  keeps invariant (message_loop fs) (fun _ => True).
Proof.
  induction fs as [|f fs IH]; simpl; [now apply keeps_ret|].
  eapply keeps_bind; [apply keeps_on_message|]. intros _ _. exact IH.
Qed.

Lemma keeps_connect_ws (s : ws_session) :
  keeps invariant (connect_ws s) (fun _ => True).
Proof.
  unfold CoinbaseIngestor.connect_ws. destruct (connect_ok s); [|apply keeps_raise].
  eapply keeps_bind with (Q := fun _ => True).
  { intros st Hst. split; [exact Hst | trivial]. }
  intros p _. eapply keeps_bind; [apply keeps_emit_log; discriminate|].
  intros _ _. eapply keeps_bind; [apply keeps_message_loop|]. intros _ _.
  destruct (closes_with_error s); [apply keeps_raise | now apply keeps_ret].
Qed.

Lemma keeps_rest_poll (r : rest_input) :
  keeps invariant (rest_poll r) (fun _ => True).
Proof.
  unfold CoinbaseIngestor.rest_poll.
  eapply keeps_bind; [apply keeps_lift|]. intros ticker _.
  eapply keeps_bind; [apply keeps_lift|]. intros p _.
  eapply keeps_bind; [apply keeps_lift|]. intros s _.
  eapply keeps_bind; [apply keeps_lift|]. intros tv _.
  eapply keeps_bind; [apply keeps_lift|]. intros t _.
  eapply keeps_bind; [apply keeps_agg_add_tick|]. intros _ _.
  apply keeps_maybe_flush.
Qed.

Lemma keeps_run_iteration (s : ws_session) (r : rest_input) :
  keeps invariant (run_iteration s r) (fun _ => True).
Proof.
  unfold CoinbaseIngestor.run_iteration.
  apply keeps_try; [apply keeps_connect_ws|]. intros x.
  eapply keeps_bind; [apply keeps_emit_log; discriminate|]. intros _ _.
  eapply keeps_bind.
  - apply keeps_try; [apply keeps_rest_poll|]. intros y.
    apply keeps_emit_log; discriminate.
  - intros _ _. apply keeps_emit_log; discriminate.
Qed.

Lemma keeps_run_loop (turns : list (ws_session * rest_input)) :
  keeps invariant (run_loop turns) (fun _ => True).
Proof.
  induction turns as [|[s r] turns IH]; simpl; [now apply keeps_ret|].
  eapply keeps_bind; [apply keeps_run_iteration|]. intros _ _. exact IH.
Qed.

Lemma keeps_run (turns : list (ws_session * rest_input)) :
  keeps invariant (run turns) (fun _ => True).
Proof.
  unfold CoinbaseIngestor.run.
  eapply keeps_bind with (Q := fun _ => True); [|intros _ _; apply keeps_run_loop].
  intros st [Hb Hr]. split; [|trivial]. split; assumption.
Qed.

Lemma reachable_invariant (st : ingestor) : reachable st -> invariant st.
Proof.
  induction 1 as [bq product | st f _ IH | st r _ IH | st s r _ IH | st turns _ IH].
  - split; [intros k o [] | intros t rows errs []].
  - now apply keeps_on_message.
  - now apply keeps_rest_poll.
  - now apply keeps_run_iteration.
  - now apply keeps_run.
Qed.

(** C4.  In every reachable state, every bar of the bucket store absorbed
    at least one tick, so its [open] is set; and every row of every batch
    handed to the backend was made by [to_row] from a bar that absorbed at
    least one tick, so its [open] is not null. *)
Theorem no_row_without_tick (st : ingestor) :
  reachable st ->
  (forall k o, In (k, o) (agg st) ->
     has_ticks o /\ OHLCV.open o <> None)
  /\ (forall table_id rows errors r,
        In (BqInsert table_id rows errors) (events st) -> In r rows ->
        row_from_ticks r /\ OHLCV.row_open r <> None).
Proof.
  intros Hreach. destruct (reachable_invariant st Hreach) as [Hb Hr]. split.
  - intros k o Hin. pose proof (Hb k o Hin) as H.
    split; [exact H | now apply has_ticks_open].
  - intros t rows errs r Hin Hr'. pose proof (Hr t rows errs Hin r Hr') as H.
    split; [exact H | now apply row_from_ticks_open].
Qed.

End InvariantFacts.

(** ** Write failures and the course of ingestion *)

Section SinkFacts.

Import PyFloat Datetime Json CoinbaseIngestor.

Variable float_of_str : string -> option float.
Variable isoparse : string -> option datetime.

Local Abbreviation select_old := (select_old isoparse).
Local Abbreviation evict_old_buckets := (evict_old_buckets isoparse).
Local Abbreviation maybe_flush_old_buckets := (maybe_flush_old_buckets isoparse).
Local Abbreviation handle_trade_msg := (handle_trade_msg float_of_str isoparse).
Local Abbreviation on_message := (on_message float_of_str isoparse).
Local Abbreviation message_loop := (message_loop float_of_str isoparse).
Local Abbreviation connect_ws := (connect_ws float_of_str isoparse).
Local Abbreviation rest_poll := (rest_poll float_of_str isoparse).
Local Abbreviation run_iteration := (run_iteration float_of_str isoparse).
Local Abbreviation run_loop := (run_loop float_of_str isoparse).
Local Abbreviation run := (run float_of_str isoparse).

Lemma alike_agg_add_tick (k : string) (p s : float) :
  alike (agg_add_tick k p s) (agg_add_tick k p s).
Proof.
  intros st st' Hs. split; [reflexivity|]. simpl.
  destruct (skeleton_fields _ _ Hs) as [_ [-> _]].
  now apply skeleton_set_agg.
Qed.

Lemma alike_evict (e e' : env) :
  now e = now e' -> alike (evict_old_buckets e) (evict_old_buckets e').
Proof.
  intros Hnow st st' Hs.
  destruct (skeleton_fields _ _ Hs) as [Hp [Ha _]].
  set (ch := replace_hour_start (now e)).
  destruct (select_old_cases isoparse ch (agg st)) as [[Hc _]|[x Hx]].
  - rewrite (evict_spec isoparse e st Hc).
    assert (Hc' : comparable isoparse (replace_hour_start (now e')) (agg st'))
      by (rewrite <- Hnow, <- Ha; exact Hc).
    rewrite (evict_spec isoparse e' st' Hc').
    rewrite <- Hnow, <- Ha, <- Hp. split; [reflexivity|].
    now apply skeleton_set_agg.
  - unfold CoinbaseIngestor.evict_old_buckets, bind.
    rewrite <- Hnow, <- Ha. fold ch. rewrite Hx. split; [reflexivity | exact Hs].
Qed.

Lemma alike_write (rows : list OHLCV.row) (errors errors' : list string) :
  alike (write_rows_bq rows (Ok errors)) (write_rows_bq rows (Ok errors')).
Proof.
  intros st st' Hs. rewrite !write_rows_bq_spec. split; [reflexivity|].
  cbn [snd]. rewrite !skeleton_add_event.
  destruct errors, errors'; exact Hs.
Qed.

Lemma alike_maybe_flush (e e' : env) :
  now e = now e' -> returns e -> returns e' ->
  alike (maybe_flush_old_buckets e) (maybe_flush_old_buckets e').
Proof.
  intros Hnow [errors He] [errors' He'].
  unfold CoinbaseIngestor.maybe_flush_old_buckets.
  apply alike_bind; [now apply alike_evict|].
  intros [|r rows]; [apply alike_ret|]. rewrite He, He'. apply alike_write.
Qed.

Lemma alike_handle (data : value) (e e' : env) :
  now e = now e' -> returns e -> returns e' ->
  alike (handle_trade_msg data e) (handle_trade_msg data e').
Proof.
  intros Hnow He He'. unfold CoinbaseIngestor.handle_trade_msg.
  apply alike_bind; [apply alike_pure|]. intros p.
  apply alike_bind; [apply alike_pure|]. intros s.
  apply alike_bind; [apply alike_pure|]. intros t.
  apply alike_bind; [apply alike_agg_add_tick|]. intros _.
  now apply alike_maybe_flush.
Qed.

Lemma accepting_returns (e : env) : returns (accepting_env e).
Proof. exists []. reflexivity. Qed.

Lemma alike_on_message (f : frame) :
  returns (frame_env f) ->
  alike (on_message f) (on_message (accepting_frame f)).
Proof.
  intros Hf. unfold CoinbaseIngestor.on_message. simpl.
  destruct (frame_msg f) as [|data]; [apply alike_ret|].
  apply alike_bind; [apply alike_pure|]. intros ty.
  destruct (eq_str ty "match"); [|apply alike_ret].
  apply alike_handle; [reflexivity | exact Hf | apply accepting_returns].
Qed.

Lemma alike_message_loop (fs : list frame) :
  Forall (fun f => returns (frame_env f)) fs ->
  alike (message_loop fs) (message_loop (map accepting_frame fs)).
Proof.
  induction 1 as [|f fs Hf _ IH]; simpl; [apply alike_ret|].
  apply alike_bind; [now apply alike_on_message | intros _; exact IH].
Qed.

Lemma alike_connect_ws (s : ws_session) :
  session_returns s ->
  alike (connect_ws s) (connect_ws (accepting_session s)).
Proof.
  intros Hs. unfold CoinbaseIngestor.connect_ws. simpl.
  destruct (connect_ok s); [|apply alike_raise].
  apply alike_bind.
  { intros st st' Hsk. destruct (skeleton_fields _ _ Hsk) as [-> _].
    split; [reflexivity | exact Hsk]. }
  intros p. apply alike_bind; [apply alike_emit|]. intros _.
  apply alike_bind; [now apply alike_message_loop|]. intros _.
  destruct (closes_with_error s); [apply alike_raise | apply alike_ret].
Qed.

Lemma alike_rest_poll (r : rest_input) :
  returns (rest_env r) ->
  alike (rest_poll r) (rest_poll (accepting_rest r)).
Proof.
  intros Hr. unfold CoinbaseIngestor.rest_poll. simpl.
  apply alike_bind; [apply alike_pure|]. intros ticker.
  apply alike_bind; [apply alike_pure|]. intros p.
  apply alike_bind; [apply alike_pure|]. intros s.
  apply alike_bind; [apply alike_pure|]. intros tv.
  apply alike_bind; [apply alike_pure|]. intros t.
  apply alike_bind; [apply alike_agg_add_tick|]. intros _.
  apply alike_maybe_flush; [reflexivity | exact Hr | apply accepting_returns].
Qed.

Lemma alike_run_iteration (s : ws_session) (r : rest_input) :
  turn_returns (s, r) ->
  alike (run_iteration s r)
        (run_iteration (accepting_session s) (accepting_rest r)).
Proof.
  intros [Hs Hr]. unfold CoinbaseIngestor.run_iteration.
  apply alike_try; [now apply alike_connect_ws|]. intros x.
  apply alike_bind; [apply alike_emit|]. intros _.
  apply alike_bind; [|intros _; apply alike_emit].
  apply alike_try; [now apply alike_rest_poll|]. intros y. apply alike_emit.
Qed.

Lemma alike_run_loop (turns : list (ws_session * rest_input)) :
  Forall turn_returns turns ->
  alike (run_loop turns) (run_loop (map accepting_turn turns)).
Proof.
  induction 1 as [|[s r] turns Ht _ IH]; simpl; [apply alike_ret|].
  apply alike_bind; [now apply alike_run_iteration | intros _; exact IH].
Qed.

Lemma alike_run (turns : list (ws_session * rest_input)) :
  Forall turn_returns turns ->
  alike (run turns) (run (map accepting_turn turns)).
Proof.
  intros Hall. unfold CoinbaseIngestor.run.
  apply alike_bind; [|intros _; now apply alike_run_loop].
  intros st st' Hs. split; [reflexivity|]. simpl.
  now apply skeleton_set_running.
Qed.

(** X20.  Errors returned by the backend do not touch ingestion.  When
    every call of [insert_rows_json] made during a run returns, whatever
    error lists it returns, the stream loop and the supervisor end the
    same way, with the same store and the same trace of subscriptions,
    failures, fallbacks and sleeps, as in the run where every batch is
    accepted: a rejected batch is logged and dropped, the stream goes on
    and no fallback is triggered by it. *)
Theorem returned_errors_leave_ingestion_alone
        (fs : list frame) (turns : list (ws_session * rest_input))
        (st : ingestor) :
  Forall (fun f => returns (frame_env f)) fs ->
  Forall turn_returns turns ->
  (fst (message_loop fs st) = fst (message_loop (map accepting_frame fs) st)
   /\ skeleton (snd (message_loop fs st))
      = skeleton (snd (message_loop (map accepting_frame fs) st)))
  /\ (fst (run turns st) = fst (run (map accepting_turn turns) st)
      /\ skeleton (snd (run turns st))
         = skeleton (snd (run (map accepting_turn turns) st))).
Proof.
  intros Hfs Hturns. split.
  - now apply alike_message_loop.
  - now apply alike_run.
Qed.

End SinkFacts.

(** ** Inbound messages *)

Section MessageClaims.

Import PyFloat Datetime Json CoinbaseIngestor.

Variable float_of_str : string -> option float.
Variable isoparse : string -> option datetime.

Local Abbreviation py_float := (py_float float_of_str).
Local Abbreviation isoparse_value := (isoparse_value isoparse).
Local Abbreviation maybe_flush_old_buckets := (maybe_flush_old_buckets isoparse).
Local Abbreviation handle_trade_msg := (handle_trade_msg float_of_str isoparse).
Local Abbreviation on_message := (on_message float_of_str isoparse).
Local Abbreviation message_loop := (message_loop float_of_str isoparse).
Local Abbreviation connect_ws := (connect_ws float_of_str isoparse).
Local Abbreviation rest_poll := (rest_poll float_of_str isoparse).
Local Abbreviation run_iteration := (run_iteration float_of_str isoparse).

(** [handle_trade_msg] on a dictionary, step by step. *)
Lemma handle_trade_msg_obj (fields : list (string * value)) (e : env)
      (st : ingestor) :
  handle_trade_msg (JObj fields) e st
  = match py_float (lookup_or fields "price" JNull) with
    | Raise x => (Raise x, st)
    | Ok p =>
        match py_float (lookup_or fields "size" (JFloat zero)) with
        | Raise x => (Raise x, st)
        | Ok s =>
            match isoparse_value (lookup_or fields "time" JNull) with
            | Raise x => (Raise x, st)
            | Ok t =>
                maybe_flush_old_buckets e
                  (snd (agg_add_tick (bucket_key t) p s st))
            end
        end
    end.
Proof.
  unfold CoinbaseIngestor.handle_trade_msg, bind, lift, get.
  destruct (py_float (lookup_or fields "price" JNull)); [|reflexivity].
  destruct (py_float (lookup_or fields "size" (JFloat zero))); [|reflexivity].
  destruct (isoparse_value (lookup_or fields "time" JNull)); reflexivity.
Qed.

Lemma rest_poll_obj (fields : list (string * value)) (r : rest_input)
      (st : ingestor) :
  ticker_response r = Ok (JObj fields) ->
  rest_poll r st
  = match py_float (lookup_or fields "price" JNull) with
    | Raise x => (Raise x, st)
    | Ok p =>
        match py_float (lookup_or fields "size" (JFloat zero)) with
        | Raise x => (Raise x, st)
        | Ok s =>
            match (if truthy (lookup_or fields "time" JNull)
                   then isoparse_value (lookup_or fields "time" JNull)
                   else Ok (rest_clock r)) with
            | Raise x => (Raise x, st)
            | Ok t =>
                maybe_flush_old_buckets (rest_env r)
                  (snd (agg_add_tick (bucket_key t) p s st))
            end
        end
    end.
Proof.
  intros Hr. unfold CoinbaseIngestor.rest_poll, bind, lift, get. rewrite Hr.
  destruct (py_float (lookup_or fields "price" JNull)); [|reflexivity].
  destruct (py_float (lookup_or fields "size" (JFloat zero))); [|reflexivity].
  destruct (truthy (lookup_or fields "time" JNull));
    [destruct (isoparse_value (lookup_or fields "time" JNull))|]; reflexivity.
Qed.

(** C9.  A trade message or ticker response without [size] is not dropped:
    with a usable price and time it is applied as a tick of size [0.0] to
    the bar of its bucket and the flush follows.  On that bar [close]
    becomes the price, [open], [high] and [low] are updated from the
    price, and [volume] becomes [volume + 0.0]: the same float unless the
    volume was negative zero, and equal to it for [==] unless it was NaN.
    A message or response without [price] gets no default: it raises
    TypeError and the ingestor is as before. *)
Theorem missing_size_is_zero
        (fields : list (string * value)) (e : env) (r : rest_input)
        (st : ingestor) (p : float) (t : datetime) :
  assoc "size" fields = None ->
  py_float (lookup_or fields "price" JNull) = Ok p ->
  let time := lookup_or fields "time" JNull in
  let key := bucket_key t in
  let old := match lookup key (agg st) with
             | Some o => o
             | None => OHLCV.init
             end in
  let bar := OHLCV.add_tick old p zero in
  let st1 := snd (agg_add_tick key p zero st) in
  (isoparse_value time = Ok t ->
   handle_trade_msg (JObj fields) e st = maybe_flush_old_buckets e st1)
  /\ (ticker_response r = Ok (JObj fields) ->
      (if truthy time then isoparse_value time else Ok (rest_clock r)) = Ok t ->
      rest_poll r st = maybe_flush_old_buckets (rest_env r) st1)
  /\ lookup key (agg st1) = Some bar
  /\ OHLCV.volume bar = add (OHLCV.volume old) zero
  /\ (OHLCV.volume old <> neg_zero -> OHLCV.volume bar = OHLCV.volume old)
  /\ (is_nan (OHLCV.volume old) = false ->
      eqb (OHLCV.volume bar) (OHLCV.volume old) = true)
  /\ OHLCV.close bar = Some p
  /\ OHLCV.open bar = Some (match OHLCV.open old with Some o => o | None => p end)
  /\ OHLCV.high bar = Some (match OHLCV.high old with
                            | None => p
                            | Some h => if gtb p h then p else h
                            end)
  /\ OHLCV.low bar = Some (match OHLCV.low old with
                           | None => p
                           | Some l => if ltb p l then p else l
                           end)
  /\ (forall fields',
        assoc "price" fields' = None ->
        handle_trade_msg (JObj fields') e st = (Raise TypeError, st)
        /\ (ticker_response r = Ok (JObj fields') ->
            rest_poll r st = (Raise TypeError, st))).
Proof.
  intros Hsize Hprice time key old bar st1.
  assert (Hs : py_float (lookup_or fields "size" (JFloat zero)) = Ok zero).
  { unfold lookup_or. rewrite Hsize. reflexivity. }
  split.
  { intros Htime. rewrite handle_trade_msg_obj, Hprice, Hs. fold time.
    rewrite Htime. reflexivity. }
  split.
  { intros Hr Htime. rewrite (rest_poll_obj fields r st Hr), Hprice, Hs.
    fold time. rewrite Htime. reflexivity. }
  split.
  { unfold st1. simpl. apply lookup_after_update. }
  split; [reflexivity|].
  split; [intros Hz; now apply add_zero_r|].
  split; [intros Hn; now apply add_zero_r_eqb|].
  split; [reflexivity|].
  split; [unfold bar, OHLCV.add_tick; simpl; destruct (OHLCV.open old); reflexivity|].
  split; [reflexivity|].
  split; [reflexivity|].
  intros fields' Hp.
  assert (Hraise : py_float (lookup_or fields' "price" JNull) = Raise TypeError).
  { unfold lookup_or. rewrite Hp. reflexivity. }
  split.
  - rewrite handle_trade_msg_obj, Hraise. reflexivity.
  - intros Hr. rewrite (rest_poll_obj fields' r st Hr), Hraise. reflexivity.
Qed.


End MessageClaims.

(** ** An exception of the backend client *)

Section SinkClaims.

Import PyFloat Datetime Json CoinbaseIngestor.

Variable float_of_str : string -> option float.
Variable isoparse : string -> option datetime.

Local Abbreviation old_key := (old_key isoparse).
Local Abbreviation comparable := (comparable isoparse).
Local Abbreviation flushed := (flushed isoparse).
Local Abbreviation remaining := (remaining isoparse).
Local Abbreviation row_of_entry := (row_of_entry isoparse).
Local Abbreviation maybe_flush_old_buckets := (maybe_flush_old_buckets isoparse).
Local Abbreviation on_message := (on_message float_of_str isoparse).
Local Abbreviation message_loop := (message_loop float_of_str isoparse).
Local Abbreviation connect_ws := (connect_ws float_of_str isoparse).
Local Abbreviation rest_poll := (rest_poll float_of_str isoparse).
Local Abbreviation run_iteration := (run_iteration float_of_str isoparse).
Local Abbreviation carries := (carries float_of_str isoparse).

(** A frame that carries a trade is the tick, then the flush. *)
Lemma on_message_carried (k : string) (ch : datetime) (f : frame)
      (tick : OHLCV.tick) (st : ingestor) :
  carries k ch f tick ->
  on_message f st
  = maybe_flush_old_buckets (frame_env f)
      (snd (agg_add_tick k (fst tick) (snd tick) st)).
Proof.
  intros [fields [t [Hmsg [Hty [Hp [Hs [Ht [Hk _]]]]]]]].
  unfold CoinbaseIngestor.on_message. rewrite Hmsg.
  unfold bind at 1, lift, get. rewrite Hty.
  rewrite handle_trade_msg_obj, Hp, Hs, Ht, Hk. reflexivity.
Qed.

(** A flush that has something to write, with a client that raises. *)
Lemma maybe_flush_write_raises (e : env) (st : ingestor) (k1 : string) (x : exn) :
  let ch := replace_hour_start (now e) in
  comparable ch (agg st) ->
  In k1 (keys (agg st)) -> old_key ch k1 = true ->
  insert_rows_json e = Raise x ->
  let table_id := (project st ++ "." ++ dataset st ++ "." ++ table st)%string in
  let rows := map (row_of_entry (product_id st)) (flushed ch (agg st)) in
  rows <> []
  /\ maybe_flush_old_buckets e st
     = (Raise x,
        add_event (BqInsert table_id rows (Raise x))
                  (set_agg (remaining ch (agg st)) st)).
Proof.
  intros ch Hc Hin Hold Hx table_id rows.
  assert (Hne : rows <> []).
  { unfold rows, keys in *. apply in_map_iff in Hin.
    destruct Hin as [kv [Hk Hin]].
    assert (Hf : In kv (flushed ch (agg st))).
    { unfold CoinbaseIngestor.flushed. apply filter_In.
      split; [exact Hin | now rewrite Hk]. }
    apply (in_map (row_of_entry (product_id st))) in Hf.
    intros Hnil. rewrite Hnil in Hf. destruct Hf. }
  split; [exact Hne|].
  rewrite (maybe_flush_spec isoparse e st Hc). fold ch rows.
  destruct rows as [|r rows']; [congruence|].
  rewrite write_rows_bq_spec, Hx. reflexivity.
Qed.

(** C5, at the exception.  [write_rows_bq] logs the errors the backend
    returns, but the call itself is not guarded.  When a trade completes
    an hour, so that the flush has a batch to write, and the client raises
    on that batch, the exception leaves [write_rows_bq], the flush and the
    handler: the buckets are evicted, the batch is lost and nothing is
    logged about it; the stream loop ends there, the messages that follow
    on the connection are never handled; the connection ends with that
    exception, and the supervisor logs it as a failed connection, polls
    REST and sleeps. *)
Theorem write_exception_ends_the_stream
        (f : frame) (fs : list frame) (closes : bool) (r : rest_input)
        (k k1 : string) (tick : OHLCV.tick) (x : exn) (st : ingestor) :
  let e := frame_env f in
  let ch := replace_hour_start (now e) in
  let ticked := agg (snd (agg_add_tick k (fst tick) (snd tick) st)) in
  carries k ch f tick ->
  comparable ch ticked ->
  In k1 (keys ticked) -> old_key ch k1 = true ->
  insert_rows_json e = Raise x ->
  let s := mkSession true (f :: fs) closes in
  let table_id := (project st ++ "." ++ dataset st ++ "." ++ table st)%string in
  let rows := map (row_of_entry (product_id st)) (flushed ch ticked) in
  let call := BqInsert table_id rows (Raise x) in
  let opened := add_event (LogSubscribed (product_id st)) st in
  let broken := add_event call (set_agg (remaining ch ticked) opened) in
  rows <> []
  /\ write_rows_bq rows (Raise x) (set_agg (remaining ch ticked) st)
     = (Raise x, add_event call (set_agg (remaining ch ticked) st))
  /\ on_message f st
     = (Raise x, add_event call (set_agg (remaining ch ticked) st))
  /\ message_loop (f :: fs) st = on_message f st
  /\ connect_ws s st = (Raise x, broken)
  /\ run_iteration s r st
     = (Ok tt,
        add_event (Sleep 5)
          (match rest_poll r (add_event (LogWsFailed x) broken) with
           | (Ok _, st') => st'
           | (Raise y, st') => add_event (LogRestFailed y) st'
           end)).
Proof.
  intros e ch ticked Hf Hc Hin Hold Hx s table_id rows call opened broken.
  assert (Hstep : forall st0, agg st0 = agg st -> product_id st0 = product_id st ->
            project st0 = project st -> dataset st0 = dataset st ->
            table st0 = table st ->
            on_message f st0
            = (Raise x, add_event call (set_agg (remaining ch ticked) st0))).
  { intros st0 Ha Hpid Hpr Hds Htb.
    rewrite (on_message_carried k ch f tick st0 Hf).
    set (st1 := snd (agg_add_tick k (fst tick) (snd tick) st0)).
    assert (Hagg : agg st1 = ticked).
    { unfold st1, ticked. simpl. now rewrite Ha. }
    assert (Hc1 : comparable ch (agg st1)) by (rewrite Hagg; exact Hc).
    assert (Hin1 : In k1 (keys (agg st1))) by (rewrite Hagg; exact Hin).
    destruct (maybe_flush_write_raises e st1 k1 x Hc1 Hin1 Hold Hx) as [_ Hrun].
    fold e. rewrite Hrun. fold ch. rewrite Hagg.
    unfold call, table_id, rows. simpl.
    rewrite Hpid, Hpr, Hds, Htb. reflexivity. }
  assert (Hmsg : on_message f st
                 = (Raise x, add_event call (set_agg (remaining ch ticked) st)))
    by (apply Hstep; reflexivity).
  assert (Hconn : connect_ws s st = (Raise x, broken)).
  { unfold CoinbaseIngestor.connect_ws, s. simpl.
    unfold bind at 1. unfold bind at 1, emit. unfold bind at 1.
    simpl message_loop. unfold bind at 1.
    rewrite (Hstep (add_event (LogSubscribed (product_id st)) st))
      by reflexivity.
    reflexivity. }
  split.
  { destruct (maybe_flush_write_raises e
                (snd (agg_add_tick k (fst tick) (snd tick) st)) k1 x
                Hc Hin Hold Hx) as [Hne _]. exact Hne. }
  split; [rewrite write_rows_bq_spec; reflexivity|].
  split; [exact Hmsg|].
  split; [simpl; unfold bind at 1; rewrite Hmsg; reflexivity|].
  split; [exact Hconn|].
  unfold CoinbaseIngestor.run_iteration, try_except. rewrite Hconn.
  unfold bind at 1, emit. unfold bind at 1. unfold try_except.
  destruct (rest_poll r (add_event (LogWsFailed x) broken)) as [[[]|y] st3];
    reflexivity.
Qed.

End SinkClaims.

(** ** The scenario, checked *)

Section ScenarioChecks.

Import PyFloat Datetime Json CoinbaseIngestor Scenario.

Local Abbreviation on_message := (on_message float_of_decimal isoparse_ext).
Local Abbreviation message_loop := (message_loop float_of_decimal isoparse_ext).
Local Abbreviation run_iteration := (run_iteration float_of_decimal isoparse_ext).
Local Abbreviation maybe_flush := (maybe_flush_old_buckets isoparse_ext).

(** The third trade flushes the 10:00 bucket as one row (open 100, high
    105, low 100, close 105, volume 3) and keeps the 11:00 bucket. *)
Example third_trade_flushes_first_hour :
  let st := snd (message_loop [f1; f2; f3] st0) in
  keys (agg st) = [key11]
  /\ events st
     = [BqInsert "proj.moda_mcp.raw_ohlcv"
          [OHLCV.mkRow key10 "BTC-USD" (Some (lit 100)) (Some (lit 105))
                       (Some (lit 100)) (Some (lit 105)) (lit 3)]
          (Ok ["backend unavailable"%string]);
        LogInsertErrors ["backend unavailable"%string]].
Proof. vm_compute. split; reflexivity. Qed.

Lemma two_buckets_keys_parse :
  forall k, In k (keys (agg st_two_buckets)) ->
    exists dt off, isoparse_ext k = Some dt /\ tzinfo dt = Some off.
Proof.
  intros k Hin. vm_compute in Hin.
  destruct Hin as [<-|[<-|[]]]; vm_compute; eauto.
Qed.

Lemma flush_selects_exactly_old_keys_witness :
  let e := frame_env f3 in
  let st := st_two_buckets in
  let boundary := floor_hour (instant (now e)) in
  let st' := snd (maybe_flush e st) in
  exists to_flush,
    select_old isoparse_ext (replace_hour_start (now e)) (keys (agg st))
    = Ok to_flush
    /\ (forall k, In k to_flush <->
                  In k (keys (agg st)) /\ starts_before isoparse_ext boundary k)
    /\ (forall k dt, isoparse_ext k = Some dt -> boundary <= instant dt ->
                     ~ In k to_flush)
    /\ ~ In (bucket_key (now e)) to_flush
    /\ (forall k, In k to_flush -> lookup k (agg st') = None)
    /\ (forall k o, In (k, o) (agg st) -> ~ In k to_flush -> In (k, o) (agg st'))
    /\ (forall k, ~ In k to_flush -> lookup k (agg st') = lookup k (agg st))
    /\ lookup (bucket_key (now e)) (agg st')
       = lookup (bucket_key (now e)) (agg st)
    /\ (forall kv, In kv (agg st') -> In kv (agg st))
    /\ fst (maybe_flush e st)
       = match to_flush, insert_rows_json e with
         | _ :: _, Raise x => Raise x
         | _, _ => Ok tt
         end.
Proof.
  intros e st boundary st'.
  apply (flush_selects_exactly_old_keys isoparse_ext e st).
  - reflexivity.
  - reflexivity.
  - exact two_buckets_keys_parse.
  - reflexivity.
Defined.

Lemma two_buckets_comparable :
  comparable isoparse_ext (replace_hour_start (now (frame_env f3)))
             (agg st_two_buckets).
Proof.
  apply aware_keys_comparable; [reflexivity | exact two_buckets_keys_parse].
Qed.

Lemma flush_evicts_before_write_witness :
  let e := frame_env f3 in
  let st := st_two_buckets in
  exists rows mid,
    evict_old_buckets isoparse_ext e st = (Ok rows, mid)
    /\ events mid = events st
    /\ (forall k,
          In k (keys (flushed isoparse_ext (replace_hour_start (now e)) (agg st))) ->
          lookup k (agg mid) = None)
    /\ maybe_flush e st
       = match rows with
         | [] => (Ok tt, mid)
         | _ :: _ => write_rows_bq rows (insert_rows_json e) mid
         end
    /\ agg (snd (maybe_flush e st)) = agg mid
    /\ (rows <> [] ->
        let table_id := (project st ++ "." ++ dataset st ++ "." ++ table st)%string in
        (forall x errors, insert_rows_json e = Ok (x :: errors) ->
           events (snd (maybe_flush e st))
           = events st ++ [BqInsert table_id rows (Ok (x :: errors));
                           LogInsertErrors (x :: errors)])
        /\ (forall x, insert_rows_json e = Raise x ->
              events (snd (maybe_flush e st))
              = events st ++ [BqInsert table_id rows (Raise x)])).
Proof.
  intros e st.
  exact (flush_evicts_before_write isoparse_ext e st two_buckets_comparable).
Defined.

Lemma flush_twice_writes_once_witness :
  let e1 := frame_env f3 in
  let e2 := mkEnv (clock 11 30 0) (Ok []) in
  let st1 := snd (maybe_flush e1 st_two_buckets) in
  replace_hour_start (now e1) = replace_hour_start (now e2)
  /\ snd (maybe_flush e2 st1) = st1
  /\ (fst (maybe_flush e1 st_two_buckets) = Ok tt ->
      select_old isoparse_ext (replace_hour_start (now e2)) (keys (agg st1)) = Ok []
      /\ evict_old_buckets isoparse_ext e2 st1 = (Ok [], st1)
      /\ maybe_flush e2 st1 = (Ok tt, st1)).
Proof.
  intros e1 e2 st1. split; [reflexivity|].
  exact (flush_twice_writes_once isoparse_ext e1 e2 st_two_buckets eq_refl).
Defined.

Lemma no_row_without_tick_witness :
  let st := snd (on_message f3 (snd (on_message f2 (snd (on_message f1 st0))))) in
  reachable float_of_decimal isoparse_ext st
  /\ (forall k o, In (k, o) (agg st) -> has_ticks o /\ OHLCV.open o <> None)
  /\ (forall table_id rows errors r,
        In (BqInsert table_id rows errors) (events st) -> In r rows ->
        row_from_ticks r /\ OHLCV.row_open r <> None).
Proof.
  intros st.
  assert (Hr : reachable float_of_decimal isoparse_ext st).
  { unfold st. repeat apply reach_message. apply reach_init. }
  split; [exact Hr|].
  exact (no_row_without_tick float_of_decimal isoparse_ext st Hr).
Defined.

Lemma missing_size_is_zero_witness :
  let fields := no_size_fields in
  let p := lit 100 in
  let t := mkDatetime 2024 1 1 10 5 0 0 utc in
  let r := mkRest (Ok (JObj fields)) (clock 10 5 2) quiet in
  let st1 := snd (agg_add_tick key10 p zero st0) in
  assoc "size" fields = None
  /\ handle_trade_msg float_of_decimal isoparse_ext (JObj fields) quiet st0
     = maybe_flush quiet st1
  /\ rest_poll float_of_decimal isoparse_ext r st0 = maybe_flush quiet st1
  /\ lookup key10 (agg st1) = Some (OHLCV.add_tick OHLCV.init p zero)
  /\ OHLCV.volume (OHLCV.add_tick OHLCV.init p zero) = zero.
Proof.
  intros fields p t r st1.
  pose proof (missing_size_is_zero float_of_decimal isoparse_ext
                fields quiet r st0 p t eq_refl eq_refl) as H.
  cbv zeta in H.
  destruct H as [H1 [H2 [H3 [_ [H5 _]]]]].
  split; [reflexivity|].
  split; [exact (H1 eq_refl)|].
  split; [exact (H2 eq_refl eq_refl)|].
  split; [exact H3|].
  apply H5. discriminate.
Defined.



(** The run of the scenario, whose third write is rejected, against the
    same run with a backend that accepts everything. *)
Lemma returned_errors_leave_ingestion_alone_witness :
  let fs := [f1; f2; f3; f4] in
  let turns := [(mkSession true fs true, idle_rest)] in
  insert_rows_json (frame_env f3) = Ok ["backend unavailable"%string]
  /\ fst (message_loop fs st0) = Ok tt
  /\ agg (snd (message_loop fs st0))
     = agg (snd (message_loop (map accepting_frame fs) st0))
  /\ skeleton (snd (run float_of_decimal isoparse_ext turns st0))
     = skeleton (snd (run float_of_decimal isoparse_ext
                          (map accepting_turn turns) st0)).
Proof.
  intros fs turns.
  assert (Hq : returns quiet) by (exists []; reflexivity).
  assert (Hfs : Forall (fun f => returns (frame_env f)) fs).
  { repeat constructor; try (exists []; reflexivity).
    exists ["backend unavailable"%string]. reflexivity. }
  destruct (returned_errors_leave_ingestion_alone float_of_decimal isoparse_ext
              fs turns st0 Hfs) as [[Hfst Hskel] [_ Hrun]].
  { constructor; [|constructor]. split; [exact Hfs | exact Hq]. }
  split; [reflexivity|].
  split; [rewrite Hfst; vm_compute; reflexivity|].
  split; [|exact Hrun].
  apply (f_equal agg) in Hskel. exact Hskel.
Defined.

(** C5 at the third trade of the run, the client raising on the batch of
    the 10:00 bucket: the batch is lost without a log line, the fourth
    trade is never handled, and the supervisor falls back to REST. *)
Lemma write_exception_ends_the_stream_witness :
  let st := snd (message_loop [f1; f2] st0) in
  let rows := [OHLCV.mkRow key10 "BTC-USD" (Some (lit 100)) (Some (lit 105))
                           (Some (lit 100)) (Some (lit 105)) (lit 3)] in
  let call := BqInsert "proj.moda_mcp.raw_ohlcv" rows (Raise GoogleAPICallError) in
  fst (on_message f3_raising st) = Raise GoogleAPICallError
  /\ events (snd (on_message f3_raising st)) = [call]
  /\ message_loop [f3_raising; f4] st = on_message f3_raising st
  /\ lookup key11 (agg (snd (message_loop [f3_raising; f4] st)))
     = Some (OHLCV.add_tick OHLCV.init (lit 95) (lit 1))
  /\ events (snd (run_iteration (mkSession true [f3_raising; f4] false)
                                idle_rest st))
     = [LogSubscribed "BTC-USD"; call; LogWsFailed GoogleAPICallError;
        LogRestFailed HTTPError; Sleep 5].
Proof.
  intros st rows call.
  assert (Hc : comparable isoparse_ext
                 (replace_hour_start (now (frame_env f3_raising)))
                 (agg (snd (agg_add_tick key11 (lit 95) (lit 1) st)))).
  { apply aware_keys_comparable; [reflexivity|].
    intros k Hin. vm_compute in Hin.
    destruct Hin as [<-|[<-|[]]]; vm_compute; eauto. }
  assert (Hf : carries float_of_decimal isoparse_ext key11
                 (replace_hour_start (now (frame_env f3_raising)))
                 f3_raising (lit 95, lit 1)).
  { exists [("type", JStr "match"); ("price", JStr "95"); ("size", JStr "1");
            ("time", JStr "2024-01-01T11:02:00Z")]%string,
           (mkDatetime 2024 1 1 11 2 0 0 utc).
    repeat split; reflexivity. }
  destruct (write_exception_ends_the_stream float_of_decimal isoparse_ext
              f3_raising [f4] false idle_rest key11 key10 (lit 95, lit 1)
              GoogleAPICallError st Hf Hc
              ltac:(vm_compute; left; reflexivity) eq_refl eq_refl)
    as [_ [_ [Hmsg [Hloop [_ Hrun]]]]].
  split; [rewrite Hmsg; reflexivity|].
  split; [rewrite Hmsg; vm_compute; reflexivity|].
  split; [exact Hloop|].
  split; [rewrite Hloop, Hmsg; vm_compute; reflexivity|].
  rewrite Hrun. vm_compute. reflexivity.
Defined.

(** C3 at a trade stamped 10:30 at UTC+05:00, that is 05:30 UTC.  Its key
    names 10:00 UTC, five hours after the start of its UTC hour, while a
    trade stamped 05:30 UTC, the same instant, gets the key of 05:00 UTC. *)
Theorem bucket_key_keeps_local_hour :
  let t := mkDatetime 2024 1 1 10 30 0 0 (Some 18000) in
  let u := mkDatetime 2024 1 1 5 30 0 0 utc in
  isoparse_ext "2024-01-01T10:30:00+05:00" = Some t
  /\ instant t = instant u
  /\ bucket_key t = "2024-01-01T10:00:00+00:00"%string
  /\ bucket_key u = "2024-01-01T05:00:00+00:00"%string
  /\ instant (replace_hour_start_utc t) = floor_hour (instant t) + 5 * HOUR_US
  /\ keys (agg (snd (on_message (mkFrame (Decoded offset_trade) quiet) st0)))
     = ["2024-01-01T10:00:00+00:00"%string].
Proof. vm_compute. repeat split; reflexivity. Qed.

End ScenarioChecks.

(** * Further properties of the code *)

(** ** More on the order of floats *)

Section MoreFloatFacts.

Import PyFloat.

Ltac compare_all :=
  repeat match goal with
  | |- context [Z.compare ?x ?y] => destruct (Z.compare_spec x y)
  | |- context [Pos.compare ?x ?y] => destruct (Pos.compare_spec x y)
  end.

Ltac each_float a := destruct a as [[|]|[|]| |[|] ? ?].

Lemma leb_trans (a b c : float) :
  leb a b = true -> leb b c = true -> leb a c = true.
Proof.
  unfold leb, SFleb, SFcompare.
  change (Pos.compare_cont Eq) with Pos.compare.
  each_float a; each_float b; each_float c;
    try discriminate; try reflexivity;
    compare_all; simpl; try discriminate; try reflexivity;
    intros; subst; lia.
Qed.

Lemma ltb_leb (a b : float) : ltb a b = true -> leb a b = true.
Proof.
  unfold ltb, leb, SFltb, SFleb.
  destruct (SFcompare a b) as [[| |]|]; try discriminate; reflexivity.
Qed.

Lemma ltb_not_nan (a b : float) :
  ltb a b = true -> is_nan a = false /\ is_nan b = false.
Proof.
  unfold ltb, SFltb, SFcompare.
  each_float a; each_float b; try discriminate; split; reflexivity.
Qed.

Lemma leb_not_nan (a b : float) :
  leb a b = true -> is_nan a = false /\ is_nan b = false.
Proof.
  unfold leb, SFleb, SFcompare.
  each_float a; each_float b; try discriminate; split; reflexivity.
Qed.

(** Every comparison with NaN is false. *)
Lemma ltb_nan_l (a : float) : ltb S754_nan a = false.
Proof. reflexivity. Qed.

Lemma ltb_nan_r (a : float) : ltb a S754_nan = false.
Proof. destruct a; reflexivity. Qed.

End MoreFloatFacts.

(** ** More on the bar accumulator *)

Section BarExtras.

Import PyFloat.

Lemma summarises_run (ticks : list OHLCV.tick) :
  ticks <> [] ->
  (forall t, In t ticks -> is_nan (fst t) = false) ->
  OHLCV.summarises ticks (OHLCV.add_ticks OHLCV.init ticks).
Proof.
  induction ticks as [|t ticks IH] using rev_ind; [congruence|].
  intros _ Hnan. destruct ticks as [|t0 ticks].
  - apply summarises_first. apply Hnan. now left.
  - rewrite add_ticks_snoc. apply summarises_snoc; [discriminate | exact Hnan |].
    apply IH; [discriminate|].
    intros x Hx. apply Hnan. apply in_or_app. now left.
Qed.

Lemma hd_error_in {A : Type} (l : list A) (x : A) :
  hd_error l = Some x -> In x l.
Proof. destruct l; [discriminate|]. intros [= ->]. now left. Qed.

(** X1.  After any non-empty run of ticks with numeric prices, the four
    prices of the bar are set and ordered: [low <= open <= high],
    [low <= close <= high] and [low <= high]. *)
Theorem bar_prices_are_ordered (ticks : list OHLCV.tick) :
  ticks <> [] ->
  (forall t, In t ticks -> is_nan (fst t) = false) ->
  let bar := OHLCV.add_ticks OHLCV.init ticks in
  exists o h l c,
    OHLCV.open bar = Some o /\ OHLCV.high bar = Some h
    /\ OHLCV.low bar = Some l /\ OHLCV.close bar = Some c
    /\ leb l o = true /\ leb o h = true
    /\ leb l c = true /\ leb c h = true
    /\ leb l h = true.
Proof.
  intros Hne Hnan bar.
  destruct (summarises_run ticks Hne Hnan)
    as [Ho Hc [h [Hh [Hhin Hhmax]]] [l [Hl [Hlin Hlmin]]] _].
  fold bar in Ho, Hc, Hh, Hl.
  destruct (hd_error (OHLCV.prices ticks)) as [o|] eqn:Eo.
  2:{ destruct ticks; [congruence | discriminate]. }
  destruct (hd_error (rev (OHLCV.prices ticks))) as [c|] eqn:Ec.
  2:{ destruct ticks as [|t ticks]; [congruence|]. simpl in Ec.
      destruct (rev (OHLCV.prices ticks)); discriminate. }
  assert (Hoin : In o (OHLCV.prices ticks)) by now apply hd_error_in.
  assert (Hcin : In c (OHLCV.prices ticks)).
  { apply in_rev. now apply hd_error_in. }
  exists o, h, l, c. repeat split; auto.
Qed.

Lemma bar_prices_are_ordered_witness :
  let ticks := [(lit 100, lit 1); (lit 105, lit 2); (lit 95, lit 1)] in
  let bar := OHLCV.add_ticks OHLCV.init ticks in
  exists o h l c,
    OHLCV.open bar = Some o /\ OHLCV.high bar = Some h
    /\ OHLCV.low bar = Some l /\ OHLCV.close bar = Some c
    /\ leb l o = true /\ leb o h = true
    /\ leb l c = true /\ leb c h = true
    /\ leb l h = true.
Proof.
  intros ticks bar. apply bar_prices_are_ordered; [discriminate|].
  intros t [<-|[<-|[<-|[]]]]; reflexivity.
Defined.

(** What later ticks may do to a bar whose extremes are numbers. *)
Lemma add_tick_widens (bar : OHLCV.t) (p s o h l : float) :
  OHLCV.open bar = Some o -> OHLCV.high bar = Some h ->
  OHLCV.low bar = Some l ->
  is_nan h = false -> is_nan l = false ->
  exists h' l',
    OHLCV.open (OHLCV.add_tick bar p s) = Some o
    /\ OHLCV.high (OHLCV.add_tick bar p s) = Some h'
    /\ OHLCV.low (OHLCV.add_tick bar p s) = Some l'
    /\ is_nan h' = false /\ is_nan l' = false
    /\ leb h h' = true /\ leb l' l = true.
Proof.
  intros Ho Hh Hl Hnh Hnl. unfold OHLCV.add_tick. simpl.
  rewrite Ho, Hh, Hl.
  exists (if gtb p h then p else h), (if ltb p l then p else l).
  split; [reflexivity|]. split; [reflexivity|]. split; [reflexivity|].
  destruct (gtb p h) eqn:Eh; destruct (ltb p l) eqn:El;
    repeat match goal with
    | H : gtb _ _ = true |- _ =>
        unfold gtb in H; fold (ltb h p) in H;
        pose proof (ltb_leb _ _ H); pose proof (proj2 (ltb_not_nan _ _ H));
        clear H
    | H : ltb p l = true |- _ =>
        pose proof (ltb_leb _ _ H); pose proof (proj1 (ltb_not_nan _ _ H));
        clear H
    end;
    repeat split; auto using leb_refl.
Qed.

(** X2.  Once a bar holds numeric extremes, no later tick, whatever its
    price, changes [open], lowers [high] or raises [low]. *)
Theorem later_ticks_only_widen (bar : OHLCV.t) (ticks : list OHLCV.tick)
        (o h l : float) :
  OHLCV.open bar = Some o -> OHLCV.high bar = Some h ->
  OHLCV.low bar = Some l ->
  is_nan h = false -> is_nan l = false ->
  let bar' := OHLCV.add_ticks bar ticks in
  exists h' l',
    OHLCV.open bar' = Some o
    /\ OHLCV.high bar' = Some h' /\ OHLCV.low bar' = Some l'
    /\ leb h h' = true /\ leb l' l = true.
Proof.
  revert bar h l. induction ticks as [|[p s] ticks IH];
    intros bar h l Ho Hh Hl Hnh Hnl bar'.
  - exists h, l. unfold bar'. simpl. repeat split; auto using leb_refl.
  - destruct (add_tick_widens bar p s o h l Ho Hh Hl Hnh Hnl)
      as [h1 [l1 [Ho1 [Hh1 [Hl1 [Hnh1 [Hnl1 [Hle1 Hle2]]]]]]]].
    destruct (IH _ h1 l1 Ho1 Hh1 Hl1 Hnh1 Hnl1) as [h' [l' [H1 [H2 [H3 [H4 H5]]]]]].
    exists h', l'. unfold bar'. simpl.
    split; [exact H1|]. split; [exact H2|]. split; [exact H3|].
    split; eapply leb_trans; eauto.
Qed.

Lemma later_ticks_only_widen_witness :
  let bar := OHLCV.add_tick OHLCV.init (lit 100) (lit 1) in
  let bar' := OHLCV.add_ticks bar [(lit 105, lit 2); (S754_nan, lit 1)] in
  exists h' l',
    OHLCV.open bar' = Some (lit 100)
    /\ OHLCV.high bar' = Some h' /\ OHLCV.low bar' = Some l'
    /\ leb (lit 100) h' = true /\ leb l' (lit 100) = true.
Proof.
  intros bar bar'.
  apply (later_ticks_only_widen bar _ (lit 100) (lit 100) (lit 100));
    reflexivity.
Defined.

(** X3.  A NaN price is not rejected.  As the first price of a bar it
    stays in [open], [high] and [low] whatever ticks follow; as a later
    price it leaves [high] and [low] as they are and becomes [close]. *)
Theorem nan_price_sticks (bar : OHLCV.t) (s h l : float)
        (ticks : list OHLCV.tick) :
  OHLCV.high bar = Some h -> OHLCV.low bar = Some l ->
  (let first := OHLCV.add_tick OHLCV.init S754_nan s in
   let bar' := OHLCV.add_ticks first ticks in
   OHLCV.open bar' = Some S754_nan
   /\ OHLCV.high bar' = Some S754_nan
   /\ OHLCV.low bar' = Some S754_nan)
  /\ (let bar' := OHLCV.add_tick bar S754_nan s in
      OHLCV.high bar' = Some h
      /\ OHLCV.low bar' = Some l
      /\ OHLCV.close bar' = Some S754_nan).
Proof.
  intros Hh Hl. split.
  - cbv zeta.
    assert (H : forall b, OHLCV.open b = Some S754_nan ->
                OHLCV.high b = Some S754_nan -> OHLCV.low b = Some S754_nan ->
                OHLCV.open (OHLCV.add_ticks b ticks) = Some S754_nan
                /\ OHLCV.high (OHLCV.add_ticks b ticks) = Some S754_nan
                /\ OHLCV.low (OHLCV.add_ticks b ticks) = Some S754_nan).
    { induction ticks as [|[p q] ticks IH]; intros b Ho Hhb Hlb; [auto|].
      simpl. apply IH; unfold OHLCV.add_tick; simpl; rewrite ?Ho, ?Hhb, ?Hlb;
        try reflexivity.
      rewrite ltb_nan_r. reflexivity. }
    apply H; reflexivity.
  - intros bar'. unfold bar', OHLCV.add_tick. simpl. rewrite Hh, Hl.
    change (gtb S754_nan h) with (ltb h S754_nan). rewrite ltb_nan_r.
    auto.
Qed.

Lemma nan_price_sticks_witness :
  let bar := OHLCV.add_tick OHLCV.init (lit 100) (lit 1) in
  (let first := OHLCV.add_tick OHLCV.init S754_nan (lit 1) in
   let bar' := OHLCV.add_ticks first [(lit 105, lit 2)] in
   OHLCV.open bar' = Some S754_nan
   /\ OHLCV.high bar' = Some S754_nan
   /\ OHLCV.low bar' = Some S754_nan)
  /\ (let bar' := OHLCV.add_tick bar S754_nan (lit 1) in
      OHLCV.high bar' = Some (lit 100)
      /\ OHLCV.low bar' = Some (lit 100)
      /\ OHLCV.close bar' = Some S754_nan).
Proof.
  intros bar.
  apply (nan_price_sticks bar (lit 1) (lit 100) (lit 100)); reflexivity.
Defined.

End BarExtras.

(** ** More on the flush *)

Section FlushExtras.

Import PyFloat Datetime Json CoinbaseIngestor.

Variable float_of_str : string -> option float.
Variable isoparse : string -> option datetime.

Local Abbreviation py_float := (py_float float_of_str).
Local Abbreviation isoparse_value := (isoparse_value isoparse).
Local Abbreviation is_old := (is_old isoparse).
Local Abbreviation old_key := (old_key isoparse).
Local Abbreviation comparable := (comparable isoparse).
Local Abbreviation flushed := (flushed isoparse).
Local Abbreviation remaining := (remaining isoparse).
Local Abbreviation row_of_entry := (row_of_entry isoparse).
Local Abbreviation maybe_flush_old_buckets := (maybe_flush_old_buckets isoparse).
Local Abbreviation handle_trade_msg := (handle_trade_msg float_of_str isoparse).
Local Abbreviation rest_poll := (rest_poll float_of_str isoparse).

Lemma remaining_flushed_length (ch : datetime) (a : store) :
  List.length a = (List.length (remaining ch a) + List.length (flushed ch a))%nat.
Proof.
  unfold CoinbaseIngestor.remaining, CoinbaseIngestor.flushed.
  induction a as [|[k o] a IH]; simpl; [reflexivity|].
  destruct (old_key ch k); simpl; lia.
Qed.

Lemma lookup_in (k : string) (a : store) (o : OHLCV.t) :
  lookup k a = Some o -> In (k, o) a.
Proof.
  induction a as [|[k' o'] a IH]; simpl; [discriminate|].
  destruct (String.eqb k k') eqn:E.
  - apply String.eqb_eq in E. subst k'. intros [= ->]. now left.
  - intros H. right. now apply IH.
Qed.

(** X4.  A flush that completes changes nothing but the buckets it evicts:
    the store that remains is the former store without the old entries,
    in the same order, so the bar under every key that is not old is the
    bar that was there; and the product, the table names and the supervisor
    flag are untouched. *)
Theorem flush_keeps_live_buckets (e : env) (st : ingestor) :
  let ch := replace_hour_start (now e) in
  comparable ch (agg st) ->
  let st' := snd (maybe_flush_old_buckets e st) in
  agg st' = filter (fun kv => negb (old_key ch (fst kv))) (agg st)
  /\ (forall k, old_key ch k = false -> lookup k (agg st') = lookup k (agg st))
  /\ (forall kv, In kv (agg st') -> In kv (agg st))
  /\ product_id st' = product_id st /\ running st' = running st
  /\ project st' = project st /\ dataset st' = dataset st
  /\ table st' = table st.
Proof.
  intros ch Hc st'.
  pose proof (maybe_flush_agg isoparse e st Hc) as Hagg.
  fold ch st' in Hagg.
  split; [exact Hagg|]. split.
  { intros k Hk. rewrite Hagg. now apply lookup_remaining_kept. }
  split.
  { intros kv Hin. rewrite Hagg in Hin.
    unfold CoinbaseIngestor.remaining in Hin. apply filter_In in Hin. tauto. }
  unfold st'. rewrite (maybe_flush_spec isoparse e st Hc). fold ch.
  destruct (map _ _); [repeat split|].
  rewrite write_rows_bq_spec. destruct (insert_rows_json e); repeat split.
Qed.

(** What the call of [insert_rows_json] leaves in the trace. *)
Lemma write_rows_bq_events (rows : list OHLCV.row)
      (outcome : result (list string)) (st : ingestor) :
  let table_id := (project st ++ "." ++ dataset st ++ "." ++ table st)%string in
  events (snd (write_rows_bq rows outcome st))
  = events st
    ++ BqInsert table_id rows outcome
       :: match outcome with
          | Ok [] => [LogInserted (List.length rows) table_id]
          | Ok ((_ :: _) as errors) => [LogInsertErrors errors]
          | Raise _ => []
          end.
Proof.
  rewrite write_rows_bq_spec. destruct outcome as [[|x errors]|x]; simpl;
    try rewrite <- app_assoc; reflexivity.
Qed.

(** The call a flush makes when some bucket is old. *)
Lemma flush_hands_over_rows (e : env) (st : ingestor) :
  let ch := replace_hour_start (now e) in
  comparable ch (agg st) ->
  let st' := snd (maybe_flush_old_buckets e st) in
  let gone := flushed ch (agg st) in
  let rows := map (row_of_entry (product_id st)) gone in
  let table_id := (project st ++ "." ++ dataset st ++ "." ++ table st)%string in
  (gone = [] -> maybe_flush_old_buckets e st = (Ok tt, st))
  /\ (gone <> [] ->
      fst (maybe_flush_old_buckets e st)
      = match insert_rows_json e with
        | Ok _ => Ok tt
        | Raise x => Raise x
        end
      /\ events st'
         = events st
           ++ BqInsert table_id rows (insert_rows_json e)
              :: match insert_rows_json e with
                 | Ok [] => [LogInserted (List.length rows) table_id]
                 | Ok ((_ :: _) as errors) => [LogInsertErrors errors]
                 | Raise _ => []
                 end).
Proof.
  intros ch Hc st' gone rows table_id.
  split; [intros Hgone; now apply maybe_flush_nothing_old|].
  intros Hgone. unfold st'.
  rewrite (maybe_flush_spec isoparse e st Hc). fold ch gone rows.
  destruct rows as [|r rows'] eqn:Er.
  { unfold rows in Er. destruct gone; [congruence | discriminate]. }
  rewrite write_rows_bq_fst, write_rows_bq_events. split; reflexivity.
Qed.

(** X5.  When its keys can be compared, a flush hands the backend one row
    for each evicted bucket, in store order, in a single call, and makes
    no call at all when no bucket is old; the store shrinks by the number
    of rows handed over, whatever the call does.  When the call returns,
    one log line follows it, the errors or the count, and the flush
    returns; when the call raises, nothing is logged and the flush raises
    that exception. *)
Theorem flush_hands_over_one_row_per_bucket (e : env) (st : ingestor) :
  let ch := replace_hour_start (now e) in
  comparable ch (agg st) ->
  let st' := snd (maybe_flush_old_buckets e st) in
  let gone := flushed ch (agg st) in
  let rows := map (row_of_entry (product_id st)) gone in
  let table_id := (project st ++ "." ++ dataset st ++ "." ++ table st)%string in
  List.length (agg st) = (List.length (agg st') + List.length rows)%nat
  /\ (gone = [] -> maybe_flush_old_buckets e st = (Ok tt, st))
  /\ (gone <> [] ->
      fst (maybe_flush_old_buckets e st)
      = match insert_rows_json e with
        | Ok _ => Ok tt
        | Raise x => Raise x
        end
      /\ events st'
         = events st
           ++ BqInsert table_id rows (insert_rows_json e)
              :: match insert_rows_json e with
                 | Ok [] => [LogInserted (List.length rows) table_id]
                 | Ok ((_ :: _) as errors) => [LogInsertErrors errors]
                 | Raise _ => []
                 end).
Proof.
  intros ch Hc st' gone rows table_id.
  pose proof (maybe_flush_agg isoparse e st Hc) as Hagg.
  fold ch st' in Hagg. split.
  { rewrite Hagg. unfold rows. rewrite length_map.
    apply remaining_flushed_length. }
  exact (flush_hands_over_rows e st Hc).
Qed.

End FlushExtras.

(** ** What becomes of the bucket of a handled trade *)

Section TradeExtras.

Import PyFloat Datetime Json CoinbaseIngestor.

Variable float_of_str : string -> option float.
Variable isoparse : string -> option datetime.

Local Abbreviation py_float := (py_float float_of_str).
Local Abbreviation isoparse_value := (isoparse_value isoparse).
Local Abbreviation old_key := (old_key isoparse).
Local Abbreviation comparable := (comparable isoparse).
Local Abbreviation flushed := (flushed isoparse).
Local Abbreviation row_of_entry := (row_of_entry isoparse).
Local Abbreviation maybe_flush_old_buckets := (maybe_flush_old_buckets isoparse).
Local Abbreviation handle_trade_msg := (handle_trade_msg float_of_str isoparse).
Local Abbreviation rest_poll := (rest_poll float_of_str isoparse).

Lemma floor_hour_le (i : Z) : floor_hour i <= i < floor_hour i + HOUR_US.
Proof.
  unfold floor_hour, HOUR_US.
  pose proof (Z.div_mod i 3600000000 ltac:(lia)).
  pose proof (Z.mod_pos_bound i 3600000000 ltac:(lia)). lia.
Qed.

Lemma floor_hour_mono (i j : Z) : i <= j -> floor_hour i <= floor_hour j.
Proof.
  intros H. unfold floor_hour, HOUR_US.
  apply Z.mul_le_mono_nonneg_r; [lia|].
  apply Z.div_le_mono; lia.
Qed.

Lemma floor_hour_idem (i : Z) : floor_hour (floor_hour i) = floor_hour i.
Proof.
  unfold floor_hour at 2. rewrite <- (Z.add_0_r (i / HOUR_US * HOUR_US)).
  apply floor_hour_decompose. unfold HOUR_US. lia.
Qed.

(** Whether the key of an aware bucket start is old, from the instants. *)
Lemma old_key_by_instant (ch dt : datetime) (k : string) (off : Z) :
  tzinfo ch = utc -> isoparse k = Some dt -> tzinfo dt = Some off ->
  old_key ch k = (instant dt <? instant ch).
Proof.
  intros Hch Hp Htz.
  unfold CoinbaseIngestor.old_key, CoinbaseIngestor.is_old, Datetime.lt.
  rewrite Hp, Htz, Hch. unfold utc, instant. rewrite Htz, Hch. reflexivity.
Qed.

(** A tick applied under [key], then the flush. *)
Lemma tick_then_flush (key : string) (p s : float) (e : env) (st : ingestor) :
  let st1 := snd (agg_add_tick key p s st) in
  let ch := replace_hour_start (now e) in
  let old := match lookup key (agg st) with
             | Some o => o
             | None => OHLCV.init
             end in
  let bar := OHLCV.add_tick old p s in
  let st' := snd (maybe_flush_old_buckets e st1) in
  let table_id := (project st ++ "." ++ dataset st ++ "." ++ table st)%string in
  comparable ch (agg st1) ->
  (old_key ch key = false -> lookup key (agg st') = Some bar)
  /\ (old_key ch key = true ->
      lookup key (agg st') = None
      /\ fst (maybe_flush_old_buckets e st1)
         = match insert_rows_json e with
           | Ok _ => Ok tt
           | Raise x => Raise x
           end
      /\ exists rows,
           In (row_of_entry (product_id st) (key, bar)) rows
           /\ events st'
              = events st
                ++ BqInsert table_id rows (insert_rows_json e)
                   :: match insert_rows_json e with
                      | Ok [] => [LogInserted (List.length rows) table_id]
                      | Ok ((_ :: _) as errors) => [LogInsertErrors errors]
                      | Raise _ => []
                      end).
Proof.
  intros st1 ch old bar st' table_id Hc.
  assert (Hbar : lookup key (agg st1) = Some bar).
  { unfold st1. simpl. apply lookup_after_update. }
  pose proof (maybe_flush_agg isoparse e st1 Hc) as Hagg.
  fold ch st' in Hagg.
  split.
  - intros Hk. rewrite Hagg, lookup_remaining_kept by exact Hk. exact Hbar.
  - intros Hk. split.
    + rewrite Hagg. now apply lookup_remaining_old.
    + assert (Hin : In (key, bar) (flushed ch (agg st1))).
      { unfold CoinbaseIngestor.flushed. apply filter_In.
        split; [now apply lookup_in | exact Hk]. }
      destruct (flush_hands_over_rows isoparse e st1 Hc) as [_ Hgo].
      destruct Hgo as [Hfst Hev].
      { intros Hnil. fold ch in Hnil. rewrite Hnil in Hin. destruct Hin. }
      split; [exact Hfst|].
      exists (map (row_of_entry (product_id st1)) (flushed ch (agg st1))).
      split; [|exact Hev].
      apply (in_map (row_of_entry (product_id st1))) in Hin. exact Hin.
Qed.

(** X6.  What becomes of the bucket of a handled trade, the clock being
    UTC and the key of the trade parsing to an aware bucket start.  When
    that start is not before the current hour, the bucket is in the store
    after the call, holding the former bar (or a fresh one) with the tick
    applied.  When it is before the current hour, a late trade, the bucket
    is already gone when the call ends and its row, made from the former
    bar or from a fresh one with this tick applied, is in the batch handed
    to the backend by this very call: a trade for an hour flushed earlier
    produces a second row for that hour.  That call is followed by its log
    line and the handler returns when the backend call returns; when it
    raises, nothing is logged and the handler raises. *)
Theorem handled_trade_bucket_fate
        (fields : list (string * value)) (e : env) (st : ingestor)
        (p s : float) (t dt : datetime) (off : Z) :
  py_float (lookup_or fields "price" JNull) = Ok p ->
  py_float (lookup_or fields "size" (JFloat zero)) = Ok s ->
  isoparse_value (lookup_or fields "time" JNull) = Ok t ->
  valid (now e) = true -> tzinfo (now e) = utc ->
  isoparse (bucket_key t) = Some dt -> tzinfo dt = Some off ->
  let key := bucket_key t in
  let boundary := floor_hour (instant (now e)) in
  let old := match lookup key (agg st) with
             | Some o => o
             | None => OHLCV.init
             end in
  let bar := OHLCV.add_tick old p s in
  let st' := snd (handle_trade_msg (JObj fields) e st) in
  let table_id := (project st ++ "." ++ dataset st ++ "." ++ table st)%string in
  comparable (replace_hour_start (now e))
             (agg (snd (agg_add_tick key p s st))) ->
  (returns e -> fst (handle_trade_msg (JObj fields) e st) = Ok tt)
  /\ (boundary <= instant dt -> lookup key (agg st') = Some bar)
  /\ (instant dt < boundary ->
      lookup key (agg st') = None
      /\ fst (handle_trade_msg (JObj fields) e st)
         = match insert_rows_json e with
           | Ok _ => Ok tt
           | Raise x => Raise x
           end
      /\ exists rows,
           In (row_of_entry (product_id st) (key, bar)) rows
           /\ events st'
              = events st
                ++ BqInsert table_id rows (insert_rows_json e)
                   :: match insert_rows_json e with
                      | Ok [] => [LogInserted (List.length rows) table_id]
                      | Ok ((_ :: _) as errors) => [LogInsertErrors errors]
                      | Raise _ => []
                      end).
Proof.
  intros Hp Hs Ht Hv Hutc Hparse Haware key boundary old bar st' table_id Hc.
  assert (Hb : instant (replace_hour_start (now e)) = boundary)
    by (apply instant_hour_start_utc; assumption).
  assert (Hold : old_key (replace_hour_start (now e)) key
                 = (instant dt <? boundary)).
  { rewrite <- Hb. eapply old_key_by_instant; eauto. }
  assert (Hrun : handle_trade_msg (JObj fields) e st
                 = maybe_flush_old_buckets e (snd (agg_add_tick key p s st))).
  { rewrite handle_trade_msg_obj, Hp, Hs, Ht. reflexivity. }
  unfold st'. rewrite Hrun.
  destruct (tick_then_flush key p s e st Hc) as [Hkeep Hgo].
  split; [|split].
  - intros Hret.
    exact (proj1 (maybe_flush_result isoparse e _ Hc (or_introl Hret))).
  - intros Hge. apply Hkeep. rewrite Hold. apply Z.ltb_ge. exact Hge.
  - intros Hlt. apply Hgo. rewrite Hold. apply Z.ltb_lt. exact Hlt.
Qed.

(** X7.  A REST ticker whose [time] is missing or falsy (null, the empty
    string, zero) is not an error: the tick is stamped with the clock.
    With UTC clocks, when the flush clock has not passed into a later hour
    than the stamp, the tick lands in the bucket of the current hour and
    that bucket is still in the store after the poll.  The poll returns,
    except when the flush finds a completed bucket to write and the
    backend call raises: then the poll raises that exception, the tick
    applied all the same. *)
Theorem rest_poll_without_time_uses_clock
        (fields : list (string * value)) (r : rest_input) (st : ingestor)
        (p s : float) :
  ticker_response r = Ok (JObj fields) ->
  truthy (lookup_or fields "time" JNull) = false ->
  py_float (lookup_or fields "price" JNull) = Ok p ->
  py_float (lookup_or fields "size" (JFloat zero)) = Ok s ->
  valid (rest_clock r) = true -> tzinfo (rest_clock r) = utc ->
  valid (now (rest_env r)) = true -> tzinfo (now (rest_env r)) = utc ->
  floor_hour (instant (now (rest_env r))) <= instant (rest_clock r) ->
  isoparse (bucket_key (rest_clock r))
  = Some (replace_hour_start_utc (rest_clock r)) ->
  let key := bucket_key (rest_clock r) in
  let old := match lookup key (agg st) with
             | Some o => o
             | None => OHLCV.init
             end in
  let ticked := snd (agg_add_tick key p s st) in
  let ch := replace_hour_start (now (rest_env r)) in
  comparable ch (agg ticked) ->
  rest_poll r st = maybe_flush_old_buckets (rest_env r) ticked
  /\ lookup key (agg (snd (rest_poll r st))) = Some (OHLCV.add_tick old p s)
  /\ fst (rest_poll r st)
     = match flushed ch (agg ticked), insert_rows_json (rest_env r) with
       | _ :: _, Raise x => Raise x
       | _, _ => Ok tt
       end.
Proof.
  intros Hr Hfalsy Hp Hs Hvc Htzc Hvn Htzn Hsame Hparse key old ticked ch Hc.
  assert (Hrun : rest_poll r st = maybe_flush_old_buckets (rest_env r) ticked).
  { rewrite (rest_poll_obj float_of_str isoparse fields r st Hr).
    rewrite Hp, Hs, Hfalsy. reflexivity. }
  split; [exact Hrun|]. rewrite Hrun.
  split; [|exact (maybe_flush_fst isoparse (rest_env r) ticked Hc)].
  destruct (tick_then_flush key p s (rest_env r) st Hc) as [Hkeep _].
  apply Hkeep.
  assert (Hb : instant (replace_hour_start (now (rest_env r)))
               = floor_hour (instant (now (rest_env r))))
    by (apply instant_hour_start_utc; assumption).
  rewrite (old_key_by_instant (replace_hour_start (now (rest_env r))) _ key 0
             Htzn Hparse eq_refl).
  rewrite Hb. apply Z.ltb_ge.
  rewrite (instant_key_utc (rest_clock r) Hvc (or_introl Htzc)).
  rewrite <- (floor_hour_idem (instant (now (rest_env r)))).
  now apply floor_hour_mono.
Qed.

End TradeExtras.

(** ** The supervisor and the trace of effects *)

Section SupervisorExtras.

Import PyFloat Datetime Json CoinbaseIngestor.

Variable float_of_str : string -> option float.
Variable isoparse : string -> option datetime.

Local Abbreviation py_float := (py_float float_of_str).
Local Abbreviation isoparse_value := (isoparse_value isoparse).
Local Abbreviation comparable := (comparable isoparse).
Local Abbreviation flush_loop := (flush_loop isoparse).
Local Abbreviation evict_old_buckets := (evict_old_buckets isoparse).
Local Abbreviation maybe_flush_old_buckets := (maybe_flush_old_buckets isoparse).
Local Abbreviation handle_trade_msg := (handle_trade_msg float_of_str isoparse).
Local Abbreviation on_message := (on_message float_of_str isoparse).
Local Abbreviation message_loop := (message_loop float_of_str isoparse).
Local Abbreviation connect_ws := (connect_ws float_of_str isoparse).
Local Abbreviation rest_poll := (rest_poll float_of_str isoparse).
Local Abbreviation run_iteration := (run_iteration float_of_str isoparse).
Local Abbreviation run_loop := (run_loop float_of_str isoparse).
Local Abbreviation run := (run float_of_str isoparse).
Local Abbreviation reachable := (reachable float_of_str isoparse).

(** *** From the primitive steps to every method *)

Section Lifting.

Variable I : ingestor -> Prop.

Hypothesis I_log : forall ev,
  (forall t r x, ev <> BqInsert t r x) -> keeps I (emit ev) (fun _ => True).
Hypothesis I_tick : forall k p s, keeps I (agg_add_tick k p s) (fun _ => True).
Hypothesis I_flush : forall e, keeps I (maybe_flush_old_buckets e) (fun _ => True).
Hypothesis I_running : forall st, I st -> I (set_running true st).

Lemma lifted_handle (data : value) (e : env) :
  keeps I (handle_trade_msg data e) (fun _ => True).
Proof.
  unfold CoinbaseIngestor.handle_trade_msg.
  eapply keeps_bind; [apply keeps_lift|]. intros p _.
  eapply keeps_bind; [apply keeps_lift|]. intros s _.
  eapply keeps_bind; [apply keeps_lift|]. intros t _.
  eapply keeps_bind; [apply I_tick|]. intros _ _. apply I_flush.
Qed.

Lemma lifted_on_message (f : frame) :
  keeps I (on_message f) (fun _ => True).
Proof.
  unfold CoinbaseIngestor.on_message. destruct (frame_msg f) as [|data].
  - now apply keeps_ret.
  - eapply keeps_bind; [apply keeps_lift|]. intros ty _.
    destruct (eq_str ty "match"); [apply lifted_handle | now apply keeps_ret].
Qed.

Lemma lifted_message_loop (fs : list frame) :
  keeps I (message_loop fs) (fun _ => True).
Proof.
  induction fs as [|f fs IH]; simpl; [now apply keeps_ret|].
  eapply keeps_bind; [apply lifted_on_message|]. intros _ _. exact IH.
Qed.

Lemma lifted_connect_ws (s : ws_session) :
  keeps I (connect_ws s) (fun _ => True).
Proof.
  unfold CoinbaseIngestor.connect_ws.
  destruct (connect_ok s); [|apply keeps_raise].
  eapply keeps_bind with (Q := fun _ => True).
  { intros st Hst. split; [exact Hst | trivial]. }
  intros p _. eapply keeps_bind; [apply I_log; discriminate|].
  intros _ _. eapply keeps_bind; [apply lifted_message_loop|]. intros _ _.
  destruct (closes_with_error s); [apply keeps_raise | now apply keeps_ret].
Qed.

Lemma lifted_rest_poll (r : rest_input) :
  keeps I (rest_poll r) (fun _ => True).
Proof.
  unfold CoinbaseIngestor.rest_poll.
  eapply keeps_bind; [apply keeps_lift|]. intros ticker _.
  eapply keeps_bind; [apply keeps_lift|]. intros p _.
  eapply keeps_bind; [apply keeps_lift|]. intros s _.
  eapply keeps_bind; [apply keeps_lift|]. intros tv _.
  eapply keeps_bind; [apply keeps_lift|]. intros t _.
  eapply keeps_bind; [apply I_tick|]. intros _ _. apply I_flush.
Qed.

Lemma lifted_run_iteration (s : ws_session) (r : rest_input) :
  keeps I (run_iteration s r) (fun _ => True).
Proof.
  unfold CoinbaseIngestor.run_iteration.
  apply keeps_try; [apply lifted_connect_ws|]. intros x.
  eapply keeps_bind; [apply I_log; discriminate|]. intros _ _.
  eapply keeps_bind.
  - apply keeps_try; [apply lifted_rest_poll|]. intros y.
    apply I_log; discriminate.
  - intros _ _. apply I_log; discriminate.
Qed.

Lemma lifted_run_loop (turns : list (ws_session * rest_input)) :
  keeps I (run_loop turns) (fun _ => True).
Proof.
  induction turns as [|[s r] turns IH]; simpl; [now apply keeps_ret|].
  eapply keeps_bind; [apply lifted_run_iteration|]. intros _ _. exact IH.
Qed.

Lemma lifted_run (turns : list (ws_session * rest_input)) :
  keeps I (run turns) (fun _ => True).
Proof.
  unfold CoinbaseIngestor.run.
  eapply keeps_bind with (Q := fun _ => True); [|intros _ _; apply lifted_run_loop].
  intros st Hst. split; [|trivial]. now apply I_running.
Qed.

End Lifting.

(** *** The trace invariant *)

Section Trace.

Variable proj pid : string.

Local Abbreviation J := (trace_invariant proj pid).

Lemma J_log (ev : event) :
  (forall t r x, ev <> BqInsert t r x) -> keeps J (emit ev) (fun _ => True).
Proof.
  intros Hev st [H1 [H2 [H3 [H4 H5]]]]. split; [|trivial].
  repeat split; auto. intros ev' Hin. simpl in Hin.
  apply in_app_or in Hin. destruct Hin as [Hin|[<-|[]]]; [auto|].
  destruct ev; try exact I. exfalso. eapply Hev; eauto.
Qed.

Lemma J_set_agg (a : store) (st : ingestor) : J st -> J (set_agg a st).
Proof. intros H. exact H. Qed.

Lemma J_tick (k : string) (p s : float) :
  keeps J (agg_add_tick k p s) (fun _ => True).
Proof. intros st Hst. split; [|trivial]. exact Hst. Qed.

Lemma J_pop (k : string) : keeps J (agg_pop k) (fun _ => True).
Proof.
  intros st Hst. unfold agg_pop. split; [|trivial].
  destruct (pop k (agg st)) as [[o a]|]; exact Hst.
Qed.

Lemma J_flush_loop (to_flush : list string) (rows : list OHLCV.row) :
  (forall r, In r rows -> OHLCV.row_symbol r = pid) ->
  keeps J (flush_loop to_flush rows)
        (fun rows' => forall r, In r rows' -> OHLCV.row_symbol r = pid).
Proof.
  revert rows. induction to_flush as [|k ks IH]; intros rows Hrows.
  - now apply keeps_ret.
  - simpl. eapply keeps_bind; [apply keeps_lift|]. intros dt _.
    eapply keeps_bind; [apply J_pop|]. intros o _.
    eapply keeps_bind with (Q := fun r => OHLCV.row_symbol r = pid).
    + intros st Hst. split; [exact Hst|]. intros r [= <-]. simpl.
      destruct Hst as [_ [H2 _]]. exact H2.
    + intros r Hr. apply IH. intros r' Hin. apply in_app_or in Hin.
      destruct Hin as [Hin|[<-|[]]]; auto.
Qed.

Lemma J_write (rows : list OHLCV.row) (outcome : result (list string)) :
  rows <> [] -> (forall r, In r rows -> OHLCV.row_symbol r = pid) ->
  keeps J (write_rows_bq rows outcome) (fun _ => True).
Proof.
  intros Hne Hsym st [H1 [H2 [H3 [H4 H5]]]].
  rewrite write_rows_bq_spec. split; [|trivial].
  assert (Hcall : forall ev,
            In ev (events st ++ [BqInsert (project st ++ "." ++ dataset st ++ "."
                                           ++ table st) rows outcome]) ->
            good_event proj pid ev).
  { intros ev Hin. apply in_app_or in Hin.
    destruct Hin as [Hin|[<-|[]]]; [auto|].
    simpl. rewrite H1, H3, H4. auto. }
  destruct outcome as [errors|x]; cbn [snd]; repeat split; auto.
  intros ev Hin. simpl in Hin.
  apply in_app_or in Hin. destruct Hin as [Hin|[<-|[]]]; [auto|].
  destruct errors; exact I.
Qed.

Lemma J_flush (e : env) : keeps J (maybe_flush_old_buckets e) (fun _ => True).
Proof.
  unfold CoinbaseIngestor.maybe_flush_old_buckets.
  eapply keeps_bind.
  - unfold CoinbaseIngestor.evict_old_buckets.
    eapply keeps_bind with (Q := fun _ => True).
    + intros st Hst. split; [exact Hst | trivial].
    + intros to_flush _. apply J_flush_loop. intros r [].
  - intros rows Hrows. destruct rows as [|r rows]; [now apply keeps_ret|].
    apply J_write; [discriminate | exact Hrows].
Qed.

Lemma J_reachable_step {A : Type} (m : M A) (st : ingestor) :
  keeps J m (fun _ => True) -> J st ->
  trace_invariant (project (snd (m st))) (product_id (snd (m st))) (snd (m st)).
Proof.
  intros Hm Hst. destruct (Hm st Hst) as [H _].
  destruct H as [H1 [H2 H]]. rewrite H1, H2. repeat split; tauto.
Qed.

End Trace.

Lemma reachable_trace (st : ingestor) :
  reachable st -> trace_invariant (project st) (product_id st) st.
Proof.
  induction 1 as [bq product | st f _ IH | st r _ IH | st s r _ IH | st turns _ IH].
  - repeat split. intros ev [].
  - apply (J_reachable_step (project st) (product_id st)); [|exact IH].
    apply lifted_on_message; auto using J_log, J_tick, J_flush.
  - apply (J_reachable_step (project st) (product_id st)); [|exact IH].
    apply lifted_rest_poll; auto using J_log, J_tick, J_flush.
  - apply (J_reachable_step (project st) (product_id st)); [|exact IH].
    apply lifted_run_iteration; auto using J_log, J_tick, J_flush.
  - apply (J_reachable_step (project st) (product_id st)); [|exact IH].
    apply lifted_run; auto using J_log, J_tick, J_flush.
Qed.

(** X8.  In every reachable state the dataset and table are the ones set
    at construction, and every call of [insert_rows_json] made so far was
    for a batch that is not empty, sent to the table
    [<project>.moda_mcp.raw_ohlcv], each row carrying the product of the
    ingestor as its symbol. *)
Theorem inserts_are_non_empty_and_well_addressed (st : ingestor) :
  reachable st ->
  dataset st = "moda_mcp"%string /\ table st = "raw_ohlcv"%string
  /\ forall table_id rows errors,
       In (BqInsert table_id rows errors) (events st) ->
       rows <> []
       /\ table_id = (project st ++ ".moda_mcp.raw_ohlcv")%string
       /\ forall r, In r rows -> OHLCV.row_symbol r = product_id st.
Proof.
  intros Hr. destruct (reachable_trace st Hr) as [_ [_ [H3 [H4 H5]]]].
  split; [exact H3|]. split; [exact H4|].
  intros t rows errs Hin. exact (H5 _ Hin).
Qed.

(** *** The supervisor *)

Lemma run_iteration_returns (s : ws_session) (r : rest_input) (st : ingestor) :
  fst (run_iteration s r st) = Ok tt.
Proof.
  unfold CoinbaseIngestor.run_iteration, try_except.
  destruct (connect_ws s st) as [[[]|x] st1]; [reflexivity|].
  unfold bind, emit. simpl.
  destruct (rest_poll r _) as [[[]|y] st2]; reflexivity.
Qed.

Lemma run_loop_returns (turns : list (ws_session * rest_input)) (st : ingestor) :
  fst (run_loop turns st) = Ok tt.
Proof.
  revert st. induction turns as [|[s r] turns IH]; intros st; [reflexivity|].
  simpl. unfold bind. pose proof (run_iteration_returns s r st) as H.
  destruct (run_iteration s r st) as [[[]|x] st1]; [apply IH | discriminate].
Qed.

Lemma running_kept (turns : list (ws_session * rest_input)) :
  keeps (fun st => running st = true) (run_loop turns) (fun _ => True).
Proof.
  apply lifted_run_loop.
  - intros ev _ st Hst. split; [exact Hst | trivial].
  - intros k p s st Hst. split; [exact Hst | trivial].
  - intros e st Hst. split; [|trivial].
    destruct (select_old_cases isoparse (replace_hour_start (now e)) (agg st))
      as [[Hc _]|[x Hx]].
    + rewrite (maybe_flush_spec isoparse e st Hc).
      destruct (map _ _); [exact Hst|].
      rewrite write_rows_bq_spec. destruct (insert_rows_json e); exact Hst.
    + assert (Hn : ~ comparable (replace_hour_start (now e)) (agg st)).
      { intros Hc. rewrite select_old_ok in Hx by exact Hc. discriminate. }
      destruct (maybe_flush_raises isoparse e st Hn) as [y Hy].
      rewrite Hy. exact Hst.
Qed.

(** X9.  No exception escapes the supervisor: whatever the stream and the
    REST endpoint do, every turn of [run] returns, and after any number of
    turns [running] is still set, nothing in the loop ever clearing it.
    A turn whose connection ends without an exception returns at once,
    with no poll and no sleep, so the loop reconnects immediately.  A turn
    whose connection raises logs the failure, polls REST once, logs a
    failed poll if it raised, and sleeps five seconds. *)
Theorem supervisor_turn_always_returns
        (s : ws_session) (r : rest_input)
        (turns : list (ws_session * rest_input)) (st : ingestor) :
  fst (run_iteration s r st) = Ok tt
  /\ fst (run turns st) = Ok tt
  /\ running (snd (run turns st)) = true
  /\ (forall st1, connect_ws s st = (Ok tt, st1) ->
                  run_iteration s r st = (Ok tt, st1))
  /\ (forall x st1, connect_ws s st = (Raise x, st1) ->
        let st2 := add_event (LogWsFailed x) st1 in
        let st3 := match rest_poll r st2 with
                   | (Ok _, st') => st'
                   | (Raise y, st') => add_event (LogRestFailed y) st'
                   end in
        run_iteration s r st = (Ok tt, add_event (Sleep 5) st3)).
Proof.
  split; [apply run_iteration_returns|].
  split.
  { unfold CoinbaseIngestor.run, bind. simpl. apply run_loop_returns. }
  split.
  { unfold CoinbaseIngestor.run, bind. cbn [fst snd].
    now apply (running_kept turns (set_running true st)). }
  split.
  - intros st1 Hc. unfold CoinbaseIngestor.run_iteration, try_except.
    rewrite Hc. reflexivity.
  - intros x st1 Hc st2 st3.
    unfold CoinbaseIngestor.run_iteration, try_except. rewrite Hc.
    unfold bind, emit. simpl. fold st2. unfold st3.
    destruct (rest_poll r st2) as [[[]|y] st']; reflexivity.
Qed.

End SupervisorExtras.

(** ** Exceptions in the stream loop *)

Section StreamExtras.

Import PyFloat Datetime Json CoinbaseIngestor.

Variable float_of_str : string -> option float.
Variable isoparse : string -> option datetime.

Local Abbreviation py_float := (py_float float_of_str).
Local Abbreviation isoparse_value := (isoparse_value isoparse).
Local Abbreviation comparable := (comparable isoparse).
Local Abbreviation maybe_flush_old_buckets := (maybe_flush_old_buckets isoparse).
Local Abbreviation handle_trade_msg := (handle_trade_msg float_of_str isoparse).
Local Abbreviation on_message := (on_message float_of_str isoparse).
Local Abbreviation message_loop := (message_loop float_of_str isoparse).
Local Abbreviation connect_ws := (connect_ws float_of_str isoparse).
Local Abbreviation run_iteration := (run_iteration float_of_str isoparse).

Lemma message_loop_app (fs1 fs2 : list frame) (st : ingestor) :
  message_loop (fs1 ++ fs2) st
  = match message_loop fs1 st with
    | (Ok _, st1) => message_loop fs2 st1
    | (Raise x, st1) => (Raise x, st1)
    end.
Proof.
  revert st. induction fs1 as [|f fs1 IH]; intros st; [reflexivity|].
  simpl. unfold bind.
  destruct (on_message f st) as [[[]|x] st1]; [apply IH | reflexivity].
Qed.

(** An event once recorded stays recorded. *)
Lemma flush_keeps_events (ev : event) (e : env) :
  keeps (fun st => In ev (events st)) (maybe_flush_old_buckets e) (fun _ => True).
Proof.
  intros st Hst. split; [|trivial].
  destruct (select_old_cases isoparse (replace_hour_start (now e)) (agg st))
    as [[Hc _]|[x Hx]].
  - rewrite (maybe_flush_spec isoparse e st Hc).
    destruct (map _ _); [exact Hst|].
    rewrite write_rows_bq_events. simpl.
    apply in_or_app. now left.
  - assert (Hn : ~ comparable (replace_hour_start (now e)) (agg st)).
    { intros Hc. rewrite select_old_ok in Hx by exact Hc. discriminate. }
    destruct (maybe_flush_raises isoparse e st Hn) as [y Hy].
    rewrite Hy. exact Hst.
Qed.

Lemma rest_poll_keeps_events (ev : event) (r : rest_input) :
  keeps (fun st => In ev (events st))
        (CoinbaseIngestor.rest_poll float_of_str isoparse r) (fun _ => True).
Proof.
  apply lifted_rest_poll.
  - intros k p s st Hst. split; [exact Hst | trivial].
  - apply flush_keeps_events.
Qed.

Lemma connect_ws_open (fs : list frame) (closes : bool) (st : ingestor) :
  connect_ws (mkSession true fs closes) st
  = match message_loop fs (add_event (LogSubscribed (product_id st)) st) with
    | (Ok _, st1) =>
        if closes then (Raise ConnectionClosedError, st1) else (Ok tt, st1)
    | (Raise x, st1) => (Raise x, st1)
    end.
Proof.
  unfold CoinbaseIngestor.connect_ws, bind, emit. simpl.
  destruct (message_loop fs _) as [[[]|x] st1]; [|reflexivity].
  destruct closes; reflexivity.
Qed.

(** X10.  The stream loop has no handler of its own.  A message that
    decodes to anything but an object (a list, a string, a number, null)
    raises AttributeError out of the loop body.  And once the body has
    raised on a message, whatever the exception, the messages that follow
    on that connection are never looked at: the loop ends as it would
    without them, so do the connection and the supervisor turn, however
    the connection would have closed, and the turn logs the exception as a
    failed connection. *)
Theorem handler_exception_ends_the_stream
        (data : value) (e : env) (fs1 fs2 : list frame) (closes : bool)
        (r : rest_input) (x : exn) (st : ingestor) :
  ((forall fields, data <> JObj fields) ->
   on_message (mkFrame (Decoded data) e) st = (Raise AttributeError, st))
  /\ (fst (message_loop fs1 st) = Raise x ->
      message_loop (fs1 ++ fs2) st = message_loop fs1 st)
  /\ (fst (connect_ws (mkSession true fs1 false) st) = Raise x ->
      connect_ws (mkSession true (fs1 ++ fs2) closes) st
      = connect_ws (mkSession true fs1 false) st
      /\ run_iteration (mkSession true (fs1 ++ fs2) closes) r st
         = run_iteration (mkSession true fs1 false) r st
      /\ In (LogWsFailed x)
            (events (snd (run_iteration (mkSession true fs1 false) r st)))).
Proof.
  split; [|split].
  - intros Hobj. unfold CoinbaseIngestor.on_message. simpl.
    destruct data; try reflexivity. exfalso. eapply Hobj; eauto.
  - intros Hraise. rewrite message_loop_app.
    destruct (message_loop fs1 st) as [[[]|y] s1]; [discriminate | reflexivity].
  - intros Hraise.
    assert (Hconn : connect_ws (mkSession true (fs1 ++ fs2) closes) st
                    = connect_ws (mkSession true fs1 false) st).
    { rewrite connect_ws_open in Hraise. rewrite !connect_ws_open.
      rewrite message_loop_app.
      destruct (message_loop fs1 _) as [[[]|y] s1]; [discriminate | reflexivity]. }
    split; [exact Hconn|]. split.
    + unfold CoinbaseIngestor.run_iteration, try_except. rewrite Hconn.
      reflexivity.
    + unfold CoinbaseIngestor.run_iteration, try_except.
      destruct (connect_ws (mkSession true fs1 false) st) as [[[]|y] s1];
        [discriminate|].
      simpl in Hraise. injection Hraise as ->.
      unfold bind, emit. simpl.
      set (s2 := add_event (LogWsFailed x) s1).
      assert (Hin2 : In (LogWsFailed x) (events s2)).
      { unfold s2. simpl. apply in_or_app. right. now left. }
      destruct (rest_poll_keeps_events (LogWsFailed x) r s2 Hin2) as [Hin3 _].
      destruct (CoinbaseIngestor.rest_poll float_of_str isoparse r s2)
        as [[[]|y] s3]; simpl in *.
      * apply in_or_app. now left.
      * apply in_or_app. left. apply in_or_app. now left.
Qed.

End StreamExtras.

(** ** Failed conversions, and keys *)

Section ConversionExtras.

Import PyFloat Datetime Json CoinbaseIngestor.

Variable float_of_str : string -> option float.
Variable isoparse : string -> option datetime.

Local Abbreviation py_float := (py_float float_of_str).
Local Abbreviation isoparse_value := (isoparse_value isoparse).
Local Abbreviation comparable := (comparable isoparse).
Local Abbreviation flushed := (flushed isoparse).
Local Abbreviation remaining := (remaining isoparse).
Local Abbreviation row_of_entry := (row_of_entry isoparse).
Local Abbreviation maybe_flush_old_buckets := (maybe_flush_old_buckets isoparse).
Local Abbreviation handle_trade_msg := (handle_trade_msg float_of_str isoparse).

(** X11.  A trade handler that raises leaves the ingestor in one of three
    states.  It has changed nothing at all, when price, size or time could
    not be converted.  Or it has applied the tick and nothing else, when
    the flush met a key it could not parse or compare.  Or it has applied
    the tick, evicted the completed buckets and handed their rows to the
    backend, when that call raised: then the exception is the client's,
    the batch is in the trace with no log line after it, and the evicted
    buckets are gone.  In particular a [size] that is present but null is
    not replaced by the default: the handler raises TypeError and the
    ingestor is as before. *)
Theorem raising_handler_leaves_three_states
        (fields : list (string * value)) (e : env) (st st' : ingestor)
        (x : exn) :
  (handle_trade_msg (JObj fields) e st = (Raise x, st') ->
   st' = st
   \/ exists p s t,
        py_float (lookup_or fields "price" JNull) = Ok p
        /\ py_float (lookup_or fields "size" (JFloat zero)) = Ok s
        /\ isoparse_value (lookup_or fields "time" JNull) = Ok t
        /\ let ticked := snd (agg_add_tick (bucket_key t) p s st) in
           let ch := replace_hour_start (now e) in
           let rows := map (row_of_entry (product_id st))
                           (flushed ch (agg ticked)) in
           let table_id :=
             (project st ++ "." ++ dataset st ++ "." ++ table st)%string in
           (st' = ticked /\ ~ comparable ch (agg ticked))
           \/ (comparable ch (agg ticked)
               /\ rows <> []
               /\ insert_rows_json e = Raise x
               /\ st' = add_event (BqInsert table_id rows (Raise x))
                                  (set_agg (remaining ch (agg ticked)) ticked)))
  /\ (assoc "size" fields = Some JNull ->
      (exists p, py_float (lookup_or fields "price" JNull) = Ok p) ->
      handle_trade_msg (JObj fields) e st = (Raise TypeError, st)).
Proof.
  split.
  - rewrite handle_trade_msg_obj.
    destruct (py_float (lookup_or fields "price" JNull)) as [p|y] eqn:Ep.
    2:{ intros [= _ <-]. now left. }
    destruct (py_float (lookup_or fields "size" (JFloat zero))) as [s|y] eqn:Es.
    2:{ intros [= _ <-]. now left. }
    destruct (isoparse_value (lookup_or fields "time" JNull)) as [t|y] eqn:Et.
    2:{ intros [= _ <-]. now left. }
    intros Hflush. right. exists p, s, t.
    split; [reflexivity|]. split; [reflexivity|]. split; [reflexivity|].
    intros ticked ch rows table_id. fold ticked in Hflush.
    destruct (select_old_cases isoparse ch (agg ticked)) as [[Hc _]|[y Hy]].
    + right. rewrite (maybe_flush_spec isoparse e ticked Hc) in Hflush.
      fold ch in Hflush. change (product_id ticked) with (product_id st) in Hflush.
      fold rows in Hflush.
      destruct rows as [|r rows'] eqn:Er; [discriminate|].
      rewrite write_rows_bq_spec in Hflush.
      destruct (insert_rows_json e) as [errors|y]; [discriminate|].
      injection Hflush as -> <-.
      split; [exact Hc|]. split; [discriminate|]. split; reflexivity.
    + left.
      assert (Hn : ~ comparable ch (agg ticked)).
      { intros Hc. rewrite select_old_ok in Hy by exact Hc. discriminate. }
      destruct (maybe_flush_raises isoparse e ticked Hn) as [z Hz].
      rewrite Hz in Hflush. injection Hflush as _ <-. split; auto.
  - intros Hsize [p Hp]. rewrite handle_trade_msg_obj, Hp.
    unfold lookup_or at 1. rewrite Hsize. reflexivity.
Qed.

(** X12.  For a trade stamped in UTC, or without an offset, the bucket
    start its key names is the start of the UTC hour of its instant, and
    the instant lies in the hour that begins there. *)
Theorem utc_trade_key_is_hour_floor (t : datetime) :
  valid t = true -> (tzinfo t = utc \/ tzinfo t = None) ->
  let start := instant (replace_hour_start_utc t) in
  start = floor_hour (instant t)
  /\ start <= instant t < start + HOUR_US.
Proof.
  intros Hv Htz start. unfold start.
  rewrite (instant_key_utc t Hv Htz). split; [reflexivity|].
  apply floor_hour_le.
Qed.

(** X13.  Two valid timestamps get the same key exactly when they agree on
    year, month, day and hour as written; minutes, seconds, microseconds
    and the offset play no part. *)
Theorem bucket_key_eq_iff (t1 t2 : datetime) :
  valid t1 = true -> valid t2 = true ->
  (bucket_key t1 = bucket_key t2
   <-> year t1 = year t2 /\ month t1 = month t2
       /\ day t1 = day t2 /\ hour t1 = hour t2).
Proof.
  intros H1 H2. split.
  - intros Hk. pose proof (bucket_key_parses t1 H1) as P1.
    pose proof (bucket_key_parses t2 H2) as P2.
    rewrite Hk, P2 in P1. injection P1 as Hy Hm Hd Hh. auto.
  - intros [Hy [Hm [Hd Hh]]]. unfold bucket_key, replace_hour_start_utc.
    now rewrite Hy, Hm, Hd, Hh.
Qed.

End ConversionExtras.

(** ** The breakout signal *)

Section SignalExtras.

Import PyFloat Signals.

Lemma fold_max_spec (rest : list float) (x : float) :
  is_nan x = false -> (forall p, In p rest -> is_nan p = false) ->
  let m := fold_left (fun m y => if gtb y m then y else m) rest x in
  In m (x :: rest) /\ is_nan m = false /\ leb x m = true
  /\ forall p, In p rest -> leb p m = true.
Proof.
  revert x. induction rest as [|y rest IH]; intros x Hx Hrest m.
  - unfold m. simpl. repeat split; auto using leb_refl; intros p [].
  - assert (Hy : is_nan y = false) by (apply Hrest; now left).
    set (x' := if gtb y x then y else x).
    assert (Hx' : is_nan x' = false) by (unfold x'; destruct (gtb y x); auto).
    assert (Hxx' : leb x x' = true).
    { unfold x'. destruct (gtb y x) eqn:E; [|now apply leb_refl].
      apply ltb_leb. exact E. }
    assert (Hyx' : leb y x' = true).
    { unfold x'. destruct (gtb y x) eqn:E; [now apply leb_refl|].
      apply leb_of_not_ltb; auto. }
    destruct (IH x' Hx' (fun p Hp => Hrest p (or_intror Hp)))
      as [Hin [Hn [Hle Hall]]].
    fold m in Hin, Hn, Hle, Hall. change (fold_left _ rest x') with m in *.
    split.
    { destruct Hin as [Hin|Hin]; [|right; now right].
      unfold x' in Hin. destruct (gtb y x); [right; now left | now left]. }
    split; [exact Hn|]. split; [eapply leb_trans; eauto|].
    intros p [<-|Hp]; [eapply leb_trans; eauto | now apply Hall].
Qed.

Lemma in_skipn_in {A : Type} (n : nat) (l : list A) (x : A) :
  In x (skipn n l) -> In x l.
Proof.
  revert l. induction n as [|n IH]; intros l; [auto|].
  destruct l as [|y l]; simpl; [auto|]. intros H. right. now apply IH.
Qed.

Lemma last_n_length (n : nat) (prices : list float) :
  (n <= List.length prices)%nat -> List.length (last_n n prices) = n.
Proof. intros H. unfold last_n. rewrite length_skipn. lia. Qed.

(** X14.  [breakout_signal] never raises: [max] is only taken of a window
    that is not empty.  It answers [False] on an empty list, on a lookback
    that is not positive and on a list shorter than the lookback.  On
    prices that are numbers it answers [True] exactly when the list is not
    empty, the lookback is between 1 and its length, and no price among
    the last [lookback] ones exceeds the last price. *)
Theorem breakout_signal_spec (prices : list float) (lookback : Z) :
  exists b,
    breakout_signal prices lookback = Some b
    /\ (prices = [] \/ lookback <= 0 \/ Z.of_nat (List.length prices) < lookback ->
        b = false)
    /\ ((forall p, In p prices -> is_nan p = false) ->
        (b = true <->
         prices <> [] /\ 0 < lookback <= Z.of_nat (List.length prices)
         /\ forall p, In p (last_n (Z.to_nat lookback) prices) ->
                      leb p (last prices zero) = true)).
Proof.
  unfold breakout_signal.
  destruct prices as [|p0 ps] eqn:Ep.
  { exists false. split; [reflexivity|]. split; [reflexivity|].
    intros _. split; [discriminate|]. intros [H _]. congruence. }
  rewrite <- Ep. cbn [orb].
  destruct (lookback <=? 0) eqn:E1.
  { exists false. split; [reflexivity|]. split; [reflexivity|].
    intros _. split; [discriminate|]. apply Z.leb_le in E1. lia. }
  destruct (Z.of_nat (List.length prices) <? lookback) eqn:E2.
  { exists false. split; [reflexivity|]. split; [reflexivity|].
    intros _. split; [discriminate|]. apply Z.ltb_lt in E2. lia. }
  cbn [orb]. apply Z.leb_gt in E1. apply Z.ltb_ge in E2.
  set (window := last_n (Z.to_nat lookback) prices).
  assert (Hlen : List.length window = Z.to_nat lookback).
  { apply last_n_length. lia. }
  destruct window as [|w ws] eqn:Ew; [simpl in Hlen; lia|].
  simpl py_max. cbv iota.
  set (m := fold_left (fun m y => if gtb y m then y else m) ws w).
  exists (geb (last prices zero) m).
  split; [reflexivity|]. split.
  { intros [H|[H|H]]; [congruence | lia | lia]. }
  intros Hnan.
  assert (Hsub : forall p, In p (w :: ws) -> In p prices).
  { intros p Hp. rewrite <- Ew in Hp. unfold window, last_n in Hp.
    eapply in_skipn_in; eauto. }
  destruct (fold_max_spec ws w) as [Hin [Hn [Hle Hall]]].
  { apply Hnan, Hsub. now left. }
  { intros p Hp. apply Hnan, Hsub. now right. }
  fold m in Hin, Hn, Hle, Hall.
  unfold geb. change (SFleb m (last prices zero)) with (leb m (last prices zero)).
  split.
  - intros Hb. split; [congruence|]. split; [lia|].
    intros p [<-|Hp]; eapply leb_trans; eauto.
  - intros [_ [_ Hall']]. apply Hall'. exact Hin.
Qed.

End SignalExtras.

(** ** The moving average *)

Section SmaExtras.

Import Features.

Variables A B : Type.
Variable average : list A -> B.

Local Abbreviation window_mean := (window_mean A B average).
Local Abbreviation sma_loop := (sma_loop A B average).
Local Abbreviation simple_sma := (simple_sma A B average).
Local Abbreviation window_at := (window_at A).

Lemma window_at_length (values : list A) (window : Z) (i : nat) :
  0 < window -> (i < List.length values)%nat ->
  List.length (window_at values window i)
  = Z.to_nat (Z.min (Z.of_nat i + 1) window).
Proof.
  intros Hw Hi. unfold Features.window_at, slice.
  rewrite length_firstn, length_skipn. lia.
Qed.

Lemma sma_loop_spec (values : list A) (window : Z) (indices : list nat)
      (out : list B) :
  (forall i, In i indices -> window_at values window i <> []) ->
  sma_loop values window indices out
  = Some (out ++ map (fun i => average (window_at values window i)) indices).
Proof.
  revert out. induction indices as [|i rest IH]; intros out Hne; simpl.
  - now rewrite app_nil_r.
  - unfold Features.window_mean.
    destruct (window_at values window i) as [|a w] eqn:E.
    + exfalso. apply (Hne i); [now left | exact E].
    + rewrite IH by (intros j Hj; apply Hne; now right).
      rewrite <- app_assoc. reflexivity.
Qed.

Lemma nth_error_map_seq (f : nat -> B) (start n i : nat) :
  (i < n)%nat -> nth_error (map f (seq start n)) i = Some (f (start + i)%nat).
Proof.
  revert start i. induction n as [|n IH]; intros start i Hi; [lia|].
  destruct i as [|i]; simpl.
  - now rewrite Nat.add_0_r.
  - rewrite IH by lia. f_equal. f_equal. lia.
Qed.

(** X15.  [simple_sma] never divides by zero: every window it averages
    holds at least one value.  It returns the empty list for an empty
    input or a window that is not positive.  Otherwise the output is as
    long as the input and its item [i] is the average of the last
    [min(i + 1, window)] values up to and including index [i], so the
    first [window - 1] items are averages of shorter, growing prefixes. *)
Theorem simple_sma_spec (values : list A) (window : Z) :
  exists out,
    simple_sma values window = Some out
    /\ (values = [] \/ window <= 0 -> out = [])
    /\ (values <> [] -> 0 < window ->
        List.length out = List.length values
        /\ forall i, (i < List.length values)%nat ->
             let k := Z.to_nat (Z.min (Z.of_nat i + 1) window) in
             nth_error out i
             = Some (average (firstn k (skipn (i + 1 - k) values)))
             /\ List.length (firstn k (skipn (i + 1 - k) values)) = k
             /\ (1 <= k)%nat).
Proof.
  unfold Features.simple_sma.
  destruct values as [|v vs] eqn:Ev.
  { exists []. split; [reflexivity|]. split; [reflexivity|]. congruence. }
  rewrite <- Ev. cbn [orb].
  destruct (window <=? 0) eqn:Ew.
  { exists []. split; [reflexivity|]. split; [reflexivity|].
    apply Z.leb_le in Ew. lia. }
  apply Z.leb_gt in Ew.
  assert (Hne : forall i, In i (seq 0 (List.length values)) ->
                  window_at values window i <> []).
  { intros i Hi Hnil. apply in_seq in Hi.
    pose proof (window_at_length values window i Ew ltac:(lia)) as Hlen.
    rewrite Hnil in Hlen. simpl in Hlen. lia. }
  rewrite (sma_loop_spec values window _ [] Hne). simpl.
  eexists. split; [reflexivity|]. split.
  { intros [H|H]; [congruence | lia]. }
  intros _ _. split; [now rewrite length_map, length_seq|].
  intros i Hi. set (k := Z.to_nat (Z.min (Z.of_nat i + 1) window)).
  assert (Hwin : window_at values window i = firstn k (skipn (i + 1 - k) values)).
  { unfold Features.window_at, slice, k. f_equal; [lia|]. f_equal. lia. }
  split.
  { rewrite nth_error_map_seq by exact Hi. simpl. now rewrite Hwin. }
  split.
  { rewrite <- Hwin. now apply window_at_length. }
  unfold k. lia.
Qed.

End SmaExtras.

(** ** The broker simulator *)

Section BrokerExtras.

Import PyFloat Broker.

Lemma digits2_pos_bounds (m : positive) :
  2 ^ (Zpos (digits2_pos m) - 1) <= Zpos m < 2 ^ Zpos (digits2_pos m).
Proof.
  induction m as [m IH|m IH|]; simpl digits2_pos.
  - rewrite Pos2Z.inj_succ.
    replace (Z.succ (Zpos (digits2_pos m)) - 1) with (Z.succ (Zpos (digits2_pos m) - 1)) by lia.
    rewrite !Z.pow_succ_r by lia. lia.
  - rewrite Pos2Z.inj_succ.
    replace (Z.succ (Zpos (digits2_pos m)) - 1) with (Z.succ (Zpos (digits2_pos m) - 1)) by lia.
    rewrite !Z.pow_succ_r by lia. lia.
  - simpl. lia.
Qed.

Lemma iter_xO (m d : positive) : Zpos (Pos.iter xO m d) = Zpos m * 2 ^ Zpos d.
Proof.
  induction d as [|d IH] using Pos.peano_ind.
  - simpl. lia.
  - rewrite Pos.iter_succ, Pos2Z.inj_succ, Z.pow_succ_r by lia.
    rewrite Pos2Z.inj_xO, IH. lia.
Qed.

Lemma shl_align_value (m : positive) (e e' : Z) :
  e' <= e -> Zpos (fst (shl_align m e e')) = Zpos m * 2 ^ (e - e').
Proof.
  intros H. unfold shl_align.
  destruct (e' - e) as [|d|d] eqn:E; simpl fst.
  - replace (e - e') with 0 by lia. simpl. lia.
  - lia.
  - rewrite iter_xO. f_equal. f_equal. lia.
Qed.

Lemma bounded_facts (m : positive) (e : Z) :
  bounded prec emax m e = true ->
  e = Z.max (Zpos (digits2_pos m) + e - 53) (-1074).
Proof.
  unfold bounded, canonical_mantissa, fexp, SpecFloat.emin, prec, emax.
  intros H. apply andb_prop in H. destruct H as [H _].
  apply Z.eqb_eq in H. lia.
Qed.

Lemma aligned_le (ma mb : positive) (ea eb : Z) :
  bounded prec emax ma ea = true -> bounded prec emax mb eb = true ->
  eb < ea -> Zpos mb <= Zpos ma * 2 ^ (ea - eb).
Proof.
  intros Ha Hb Hlt. apply bounded_facts in Ha, Hb.
  pose proof (digits2_pos_bounds ma) as Da.
  pose proof (digits2_pos_bounds mb) as Db.
  assert (Hda : Zpos (digits2_pos ma) = 53) by lia.
  assert (Hdb : Zpos (digits2_pos mb) <= 53) by lia.
  rewrite Hda in Da.
  assert (H1 : 2 ^ Zpos (digits2_pos mb) <= 2 ^ 53) by (apply Z.pow_le_mono_r; lia).
  assert (H2 : 2 ^ 1 <= 2 ^ (ea - eb)) by (apply Z.pow_le_mono_r; lia).
  change (2 ^ 53) with (2 * 2 ^ (53 - 1)) in H1.
  change (2 ^ 1) with 2 in H2. nia.
Qed.

Lemma shr_1_nonneg (mrs : shr_record) : 0 <= shr_m mrs -> 0 <= shr_m (shr_1 mrs).
Proof.
  destruct mrs as [m r s]. simpl. intros H.
  destruct m as [|[p|p|]|p]; simpl; lia.
Qed.

Lemma iter_shr_1_nonneg (p : positive) (mrs : shr_record) :
  0 <= shr_m mrs -> 0 <= shr_m (iter_pos shr_1 p mrs).
Proof.
  revert mrs. induction p as [p IH|p IH|]; intros mrs H; simpl.
  - apply IH, IH. now apply shr_1_nonneg.
  - apply IH, IH. exact H.
  - now apply shr_1_nonneg.
Qed.

Lemma shr_fexp_nonneg (m e : Z) (l : location) :
  0 <= m -> 0 <= shr_m (fst (shr_fexp prec emax m e l)).
Proof.
  intros H. unfold shr_fexp, shr.
  assert (H0 : 0 <= shr_m (shr_record_of_loc m l)).
  { destruct l as [|[| |]]; simpl; exact H. }
  destruct (fexp prec emax (Zdigits2 m + e) - e); simpl; auto.
  now apply iter_shr_1_nonneg.
Qed.

Lemma round_nearest_even_nonneg (m : Z) (l : location) :
  0 <= m -> 0 <= round_nearest_even m l.
Proof.
  intros H. destruct l as [|[| |]]; simpl; try lia.
  destruct (Z.even m); lia.
Qed.

Lemma binary_round_aux_nonneg (m e : Z) (l : location) :
  0 <= m -> Broker.nonneg (binary_round_aux prec emax false m e l).
Proof.
  intros H. unfold binary_round_aux.
  pose proof (shr_fexp_nonneg m e l H) as H1.
  destruct (shr_fexp prec emax m e l) as [mrs' e'] eqn:E1. simpl in H1.
  pose proof (shr_fexp_nonneg _ e' loc_Exact
                (round_nearest_even_nonneg _ (loc_of_shr_record mrs') H1)) as H2.
  destruct (shr_fexp prec emax _ e' loc_Exact) as [mrs'' e''] eqn:E2.
  simpl in H2.
  destruct (shr_m mrs'') as [|p|p]; [reflexivity | | lia].
  destruct (e'' <=? emax - prec); reflexivity.
Qed.

Lemma binary_normalize_nonneg (m e : Z) :
  0 <= m -> Broker.nonneg (binary_normalize prec emax m e false).
Proof.
  intros H. unfold binary_normalize.
  destruct m as [|p|p]; [reflexivity | | lia].
  unfold binary_round.
  destruct (shl_align p e _) as [mz ez].
  apply binary_round_aux_nonneg. lia.
Qed.

(** [a - b] on finite floats when [a < b] fails. *)
Lemma sub_nonneg (a b : float) :
  Broker.finite_valid a -> Broker.finite_valid b ->
  ltb a b = false -> Broker.nonneg (Broker.sub a b).
Proof.
  intros [Fa Va] [Fb Vb] Hlt.
  destruct a as [sa|sa| |sa ma ea]; try discriminate;
  destruct b as [sb|sb| |sb mb eb]; try discriminate.
  - destruct sa, sb; reflexivity.
  - unfold ltb, SFltb in Hlt. simpl in Hlt. destruct sb; [reflexivity | discriminate].
  - unfold ltb, SFltb in Hlt. simpl in Hlt. destruct sa; [discriminate | reflexivity].
  - unfold Broker.sub, SFsub. apply binary_normalize_nonneg.
    simpl in Va, Vb.
    revert Hlt. unfold ltb, SFltb, SFcompare.
    change (Pos.compare_cont Eq) with Pos.compare.
    destruct sa, sb; unfold cond_Zopp.
    + (* both negative *)
      destruct (Z.compare_spec ea eb) as [He|He|He].
      * subst eb. rewrite Z.min_id.
        rewrite !shl_align_value by lia. rewrite Z.sub_diag. simpl (2 ^ 0).
        destruct (Pos.compare_spec ma mb); cbn [CompOpp]; try discriminate; intros _; lia.
      * intros _. rewrite Z.min_l by lia.
        rewrite !shl_align_value by lia. rewrite Z.sub_diag. simpl (2 ^ 0).
        pose proof (aligned_le mb ma eb ea Vb Va He). lia.
      * discriminate.
    + discriminate.
    + intros _. lia.
    + destruct (Z.compare_spec ea eb) as [He|He|He].
      * subst eb. rewrite Z.min_id.
        rewrite !shl_align_value by lia. rewrite Z.sub_diag. simpl (2 ^ 0).
        destruct (Pos.compare_spec ma mb); cbn [CompOpp]; try discriminate; intros _; lia.
      * discriminate.
      * intros _. rewrite Z.min_r by lia.
        rewrite !shl_align_value by lia. rewrite Z.sub_diag. simpl (2 ^ 0).
        pose proof (aligned_le ma mb ea eb Va Vb He). lia.
Qed.

Lemma get_set_same (symbol : string) (v d : float) (ps : list (string * float)) :
  get symbol (set symbol v ps) d = v.
Proof.
  induction ps as [|[k w] ps IH]; simpl.
  - now rewrite String.eqb_refl.
  - destruct (String.eqb symbol k) eqn:E; simpl; rewrite E; auto.
Qed.

Lemma get_set_other (symbol other : string) (v d : float)
      (ps : list (string * float)) :
  other <> symbol -> get other (set symbol v ps) d = get other ps d.
Proof.
  intros Hne. induction ps as [|[k w] ps IH]; simpl.
  - destruct (String.eqb other symbol) eqn:E; [|reflexivity].
    apply String.eqb_eq in E. congruence.
  - destruct (String.eqb symbol k) eqn:E; simpl.
    + apply String.eqb_eq in E. subst k.
      destruct (String.eqb other symbol) eqn:E'; [|reflexivity].
      apply String.eqb_eq in E'. congruence.
    + now rewrite IH.
Qed.

(** X16.  [buy] is refused exactly when the cost exceeds the cash, and a
    refused order leaves the broker as it was.  An accepted order, on
    finite amounts, never overdraws: the cash that remains is a number and
    [0.0 <= cash] holds, whatever the cash was before.  The position in
    the symbol grows by the quantity and no other position changes. *)
Theorem buy_never_overdraws (self : t) (symbol : string) (qty price : float) :
  let cost := mul qty price in
  let after := snd (buy self symbol qty price) in
  (fst (buy self symbol qty price) = false <-> gtb cost (cash self) = true)
  /\ (fst (buy self symbol qty price) = false -> after = self)
  /\ (fst (buy self symbol qty price) = true ->
      cash after = sub (cash self) cost
      /\ get symbol (positions after) zero
         = add (get symbol (positions self) zero) qty
      /\ (forall other d, other <> symbol ->
            get other (positions after) d = get other (positions self) d)
      /\ (finite_valid (cash self) -> finite_valid cost -> nonneg (cash after))).
Proof.
  intros cost after. unfold after, buy. fold cost.
  destruct (gtb cost (cash self)) eqn:E; simpl.
  - split; [tauto|]. split; [reflexivity | discriminate].
  - split; [split; discriminate|]. split; [discriminate|]. intros _.
    split; [reflexivity|]. split; [apply get_set_same|].
    split; [intros other d Hne; now apply get_set_other|].
    intros Hc Hcost. now apply sub_nonneg.
Qed.

(** X17.  [sell] is refused exactly when the quantity exceeds the position
    held, an unknown symbol counting as a position of [0.0], and a refused
    order leaves the broker as it was.  An accepted order, on finite
    amounts, never leaves a negative position: the new position is a
    number and [0.0 <= position] holds.  The proceeds are added to the
    cash unchecked, and a negative quantity is accepted on any position
    that is not negative. *)
Theorem sell_never_goes_short (self : t) (symbol : string) (qty price : float) :
  let pos := get symbol (positions self) zero in
  let after := snd (sell self symbol qty price) in
  (fst (sell self symbol qty price) = false <-> gtb qty pos = true)
  /\ (fst (sell self symbol qty price) = false -> after = self)
  /\ (fst (sell self symbol qty price) = true ->
      cash after = add (cash self) (mul qty price)
      /\ get symbol (positions after) zero = sub pos qty
      /\ (forall other d, other <> symbol ->
            get other (positions after) d = get other (positions self) d)
      /\ (finite_valid pos -> finite_valid qty ->
          nonneg (get symbol (positions after) zero)))
  /\ (nonneg pos -> ltb qty zero = true ->
      fst (sell self symbol qty price) = true).
Proof.
  intros pos after. unfold after, sell. fold pos.
  destruct (gtb qty pos) eqn:E; simpl.
  - split; [tauto|]. split; [reflexivity|]. split; [discriminate|].
    intros Hpos Hneg. exfalso.
    apply (leb_ltb_absurd zero pos Hpos).
    exact (ltb_trans _ _ _ E Hneg).
  - split; [split; discriminate|]. split; [discriminate|]. split; [|reflexivity].
    intros _. split; [reflexivity|]. split; [apply get_set_same|].
    split; [intros other d Hne; now apply get_set_other|].
    intros Hp Hq. rewrite get_set_same. now apply sub_nonneg.
Qed.

End BrokerExtras.

(** ** The further properties on the scenario *)

Section ExtraChecks.

Import PyFloat Datetime Json CoinbaseIngestor Scenario.

Local Abbreviation on_message := (on_message float_of_decimal isoparse_ext).
Local Abbreviation message_loop := (message_loop float_of_decimal isoparse_ext).
Local Abbreviation connect_ws := (connect_ws float_of_decimal isoparse_ext).
Local Abbreviation run_iteration := (run_iteration float_of_decimal isoparse_ext).
Local Abbreviation run := (run float_of_decimal isoparse_ext).
Local Abbreviation handle_trade_msg := (handle_trade_msg float_of_decimal isoparse_ext).
Local Abbreviation rest_poll := (rest_poll float_of_decimal isoparse_ext).
Local Abbreviation maybe_flush := (maybe_flush_old_buckets isoparse_ext).

Lemma flush_keeps_live_buckets_witness :
  let e := frame_env f3 in
  let st' := snd (maybe_flush e st_two_buckets) in
  lookup key11 (agg st') = lookup key11 (agg st_two_buckets)
  /\ (forall kv, In kv (agg st') -> In kv (agg st_two_buckets))
  /\ product_id st' = "BTC-USD"%string.
Proof.
  intros e st'.
  destruct (flush_keeps_live_buckets isoparse_ext e st_two_buckets
              two_buckets_comparable) as [_ [Hkeep [Hsub [Hpid _]]]].
  split; [apply Hkeep; reflexivity|]. split; [exact Hsub|]. exact Hpid.
Defined.

Lemma flush_hands_over_one_row_per_bucket_witness :
  let e := frame_env f3 in
  let e' := frame_env f3_raising in
  let st' := snd (maybe_flush e st_two_buckets) in
  let gone := flushed isoparse_ext (replace_hour_start (now e)) (agg st_two_buckets) in
  let rows := map (row_of_entry isoparse_ext "BTC-USD") gone in
  List.length (agg st_two_buckets) = (List.length (agg st') + List.length rows)%nat
  /\ fst (maybe_flush e st_two_buckets) = Ok tt
  /\ events st'
     = events st_two_buckets
       ++ [BqInsert "proj.moda_mcp.raw_ohlcv" rows
                    (Ok ["backend unavailable"%string]);
           LogInsertErrors ["backend unavailable"%string]]
  /\ fst (maybe_flush e' st_two_buckets) = Raise GoogleAPICallError
  /\ events (snd (maybe_flush e' st_two_buckets))
     = events st_two_buckets
       ++ [BqInsert "proj.moda_mcp.raw_ohlcv" rows (Raise GoogleAPICallError)].
Proof.
  intros e e' st' gone rows.
  destruct (flush_hands_over_one_row_per_bucket isoparse_ext e st_two_buckets
              two_buckets_comparable) as [Hlen [_ Hev]].
  destruct (flush_hands_over_one_row_per_bucket isoparse_ext e' st_two_buckets
              two_buckets_comparable) as [_ [_ Hev']].
  destruct Hev as [Hfst Hevents]; [discriminate|].
  destruct Hev' as [Hfst' Hevents']; [discriminate|].
  split; [exact Hlen|]. split; [exact Hfst|]. split; [exact Hevents|].
  split; [exact Hfst' | exact Hevents'].
Defined.

(** A trade stamped 10:50 that arrives at 11:05, after the 10:00 bucket was
    flushed: the backend gets a second row for 10:00, made of that trade
    alone. *)
Lemma handled_trade_bucket_fate_witness :
  let fields := [("type", JStr "match"); ("price", JStr "101");
                 ("size", JStr "1"); ("time", JStr "2024-01-01T10:50:00Z")]%string in
  let e := mkEnv (clock 11 5 0) (Ok []) in
  let st := snd (message_loop [f1; f2; f3] st0) in
  let st' := snd (handle_trade_msg (JObj fields) e st) in
  let bar := OHLCV.add_tick OHLCV.init (lit 101) (lit 1) in
  lookup key10 (agg st) = None
  /\ fst (handle_trade_msg (JObj fields) e st) = Ok tt
  /\ lookup key10 (agg st') = None
  /\ exists rows,
       In (row_of_entry isoparse_ext "BTC-USD" (key10, bar)) rows
       /\ events st'
          = events st ++ [BqInsert "proj.moda_mcp.raw_ohlcv" rows (Ok []);
                          LogInserted (List.length rows) "proj.moda_mcp.raw_ohlcv"].
Proof.
  intros fields e st st' bar.
  assert (Hc : comparable isoparse_ext (replace_hour_start (now e))
                 (agg (snd (agg_add_tick key10 (lit 101) (lit 1) st)))).
  { apply aware_keys_comparable; [reflexivity|].
    intros k Hin. vm_compute in Hin.
    destruct Hin as [<-|[<-|[]]]; vm_compute; eauto. }
  destruct (handled_trade_bucket_fate float_of_decimal isoparse_ext
              fields e st (lit 101) (lit 1)
              (mkDatetime 2024 1 1 10 50 0 0 utc)
              (mkDatetime 2024 1 1 10 0 0 0 utc) 0
              eq_refl eq_refl eq_refl eq_refl eq_refl eq_refl eq_refl Hc)
    as [Hok [_ Hlate]].
  split; [reflexivity|].
  split; [apply Hok; exists []; reflexivity|].
  destruct (Hlate eq_refl) as [Hgone [_ Hrows]].
  split; [exact Hgone | exact Hrows].
Defined.

Lemma rest_poll_without_time_uses_clock_witness :
  let fields := [("price", JStr "100"); ("size", JStr "1")]%string in
  let r := mkRest (Ok (JObj fields)) (clock 10 5 2) (mkEnv (clock 10 5 3) (Ok [])) in
  truthy (lookup_or fields "time" JNull) = false
  /\ fst (rest_poll r st0) = Ok tt
  /\ lookup key10 (agg (snd (rest_poll r st0)))
     = Some (OHLCV.add_tick OHLCV.init (lit 100) (lit 1)).
Proof.
  intros fields r. split; [reflexivity|].
  assert (Hc : comparable isoparse_ext (replace_hour_start (now (rest_env r)))
                 (agg (snd (agg_add_tick (bucket_key (rest_clock r))
                                         (lit 100) (lit 1) st0)))).
  { apply aware_keys_comparable; [reflexivity|].
    intros k Hin. vm_compute in Hin.
    destruct Hin as [<-|[]]; vm_compute; eauto. }
  destruct (rest_poll_without_time_uses_clock float_of_decimal isoparse_ext
              fields r st0 (lit 100) (lit 1)
              eq_refl eq_refl eq_refl eq_refl eq_refl eq_refl eq_refl eq_refl
              ltac:(vm_compute; discriminate) eq_refl Hc) as [_ [Hbar Hfst]].
  split; [rewrite Hfst; reflexivity | exact Hbar].
Defined.

Lemma inserts_are_non_empty_and_well_addressed_witness :
  let st := snd (on_message f3 (snd (on_message f2 (snd (on_message f1 st0))))) in
  reachable float_of_decimal isoparse_ext st
  /\ dataset st = "moda_mcp"%string /\ table st = "raw_ohlcv"%string
  /\ forall table_id rows errors,
       In (BqInsert table_id rows errors) (events st) ->
       rows <> []
       /\ table_id = (project st ++ ".moda_mcp.raw_ohlcv")%string
       /\ forall r, In r rows -> OHLCV.row_symbol r = product_id st.
Proof.
  intros st.
  assert (Hr : reachable float_of_decimal isoparse_ext st).
  { unfold st. repeat apply reach_message. apply reach_init. }
  split; [exact Hr|].
  exact (inserts_are_non_empty_and_well_addressed float_of_decimal isoparse_ext st Hr).
Defined.

Lemma supervisor_turn_always_returns_witness :
  let clean := mkSession true [f1] false in
  let refused := mkSession false [] false in
  run_iteration clean idle_rest st0 = connect_ws clean st0
  /\ fst (connect_ws clean st0) = Ok tt
  /\ run_iteration refused idle_rest st0
     = (Ok tt,
        add_event (Sleep 5)
          (add_event (LogRestFailed HTTPError)
             (add_event (LogWsFailed ConnectionFailed) st0)))
  /\ running (snd (run [(refused, idle_rest); (clean, idle_rest)] st0)) = true.
Proof.
  intros clean refused.
  destruct (supervisor_turn_always_returns float_of_decimal isoparse_ext
              clean idle_rest [(refused, idle_rest); (clean, idle_rest)] st0)
    as [_ [_ [Hrun [Hclean _]]]].
  destruct (supervisor_turn_always_returns float_of_decimal isoparse_ext
              refused idle_rest [] st0) as [_ [_ [_ [_ Hfail]]]].
  assert (Hc : exists st1, connect_ws clean st0 = (Ok tt, st1)).
  { eexists. vm_compute. reflexivity. }
  destruct Hc as [st1 Hc].
  split; [rewrite Hc; now apply Hclean|].
  split; [now rewrite Hc|].
  split; [exact (Hfail ConnectionFailed st0 eq_refl) | exact Hrun].
Defined.

Lemma handler_exception_ends_the_stream_witness :
  let g := mkFrame (Decoded (JObj no_price_fields)) quiet in
  on_message (mkFrame (Decoded (JArr [])) quiet) st0 = (Raise AttributeError, st0)
  /\ message_loop ([g] ++ [f1]) st0 = message_loop [g] st0
  /\ run_iteration (mkSession true ([g] ++ [f1]) true) idle_rest st0
     = run_iteration (mkSession true [g] false) idle_rest st0
  /\ In (LogWsFailed TypeError)
        (events (snd (run_iteration (mkSession true [g] false) idle_rest st0))).
Proof.
  intros g.
  destruct (handler_exception_ends_the_stream float_of_decimal isoparse_ext
              (JArr []) quiet [g] [f1] true idle_rest TypeError st0)
    as [Hobj [Hloop Hconn]].
  split; [apply Hobj; discriminate|].
  split; [apply Hloop; reflexivity|].
  destruct (Hconn eq_refl) as [_ [Hrun Hlog]].
  split; [exact Hrun | exact Hlog].
Defined.

(** The third trade of the run when the client raises: the third state. *)
Lemma raising_handler_leaves_three_states_witness :
  let null_size := [("type", JStr "match"); ("price", JStr "100");
                    ("size", JNull); ("time", JStr "2024-01-01T10:05:00Z")]%string in
  let fields := [("type", JStr "match"); ("price", JStr "95");
                 ("size", JStr "1"); ("time", JStr "2024-01-01T11:02:00Z")]%string in
  let e := frame_env f3_raising in
  let st := snd (message_loop [f1; f2] st0) in
  let st' := snd (handle_trade_msg (JObj fields) e st) in
  handle_trade_msg (JObj null_size) quiet st0 = (Raise TypeError, st0)
  /\ fst (handle_trade_msg (JObj fields) e st) = Raise GoogleAPICallError
  /\ st' <> st
  /\ (st' = st
      \/ exists p s t,
           py_float float_of_decimal (lookup_or fields "price" JNull) = Ok p
           /\ py_float float_of_decimal (lookup_or fields "size" (JFloat zero))
              = Ok s
           /\ isoparse_value isoparse_ext (lookup_or fields "time" JNull) = Ok t
           /\ let ticked := snd (agg_add_tick (bucket_key t) p s st) in
              let ch := replace_hour_start (now e) in
              let rows := map (row_of_entry isoparse_ext (product_id st))
                              (flushed isoparse_ext ch (agg ticked)) in
              let table_id :=
                (project st ++ "." ++ dataset st ++ "." ++ table st)%string in
              (st' = ticked /\ ~ comparable isoparse_ext ch (agg ticked))
              \/ (comparable isoparse_ext ch (agg ticked)
                  /\ rows <> []
                  /\ insert_rows_json e = Raise GoogleAPICallError
                  /\ st' = add_event (BqInsert table_id rows
                                               (Raise GoogleAPICallError))
                                     (set_agg (remaining isoparse_ext ch (agg ticked))
                                              ticked))).
Proof.
  intros null_size fields e st st'.
  destruct (raising_handler_leaves_three_states float_of_decimal isoparse_ext
              null_size quiet st0 st0 TypeError) as [_ Hnull].
  split.
  { apply Hnull; [reflexivity|]. eexists. reflexivity. }
  split; [vm_compute; reflexivity|].
  split; [vm_compute; discriminate|].
  destruct (raising_handler_leaves_three_states float_of_decimal isoparse_ext
              fields e st st' GoogleAPICallError) as [Hraise _].
  apply Hraise. vm_compute. reflexivity.
Defined.

Lemma utc_trade_key_is_hour_floor_witness :
  let t := mkDatetime 2024 1 1 10 5 0 0 utc in
  let start := instant (replace_hour_start_utc t) in
  start = floor_hour (instant t) /\ start <= instant t < start + HOUR_US.
Proof.
  intros t.
  apply (utc_trade_key_is_hour_floor t); [reflexivity | now left].
Defined.

Lemma bucket_key_eq_iff_witness :
  let t1 := mkDatetime 2024 1 1 10 5 0 0 utc in
  let t2 := mkDatetime 2024 1 1 10 40 30 250000 (Some 18000) in
  bucket_key t1 = bucket_key t2
  <-> year t1 = year t2 /\ month t1 = month t2
      /\ day t1 = day t2 /\ hour t1 = hour t2.
Proof.
  intros t1 t2. apply (bucket_key_eq_iff t1 t2); reflexivity.
Defined.

End ExtraChecks.

Section OtherChecks.

Import PyFloat.

Lemma breakout_signal_spec_witness :
  let prices := [lit 100; lit 105; lit 95; lit 105] in
  Signals.breakout_signal prices 3 = Some true
  /\ forall p, In p (Signals.last_n 3 prices) -> leb p (lit 105) = true.
Proof.
  intros prices.
  destruct (Signals.breakout_signal prices 3) as [b|] eqn:E; [|discriminate].
  destruct (breakout_signal_spec prices 3) as [b' [Hb [_ Hiff]]].
  rewrite E in Hb. injection Hb as <-.
  assert (Hnan : forall p, In p prices -> is_nan p = false).
  { intros p [<-|[<-|[<-|[<-|[]]]]]; reflexivity. }
  assert (Htrue : b = true) by (vm_compute in E; congruence).
  split; [now rewrite Htrue|].
  apply (proj1 (Hiff Hnan) Htrue).
Defined.

Lemma simple_sma_spec_witness :
  let average := fun w : list Z => (fold_left Z.add w 0, Z.of_nat (List.length w)) in
  Features.simple_sma Z (Z * Z) average [10; 20; 60] 2
  = Some [(10, 1); (30, 2); (80, 2)]
  /\ forall out, Features.simple_sma Z (Z * Z) average [10; 20; 60] 2 = Some out ->
       List.length out = 3%nat.
Proof.
  intros average. split; [reflexivity|].
  intros out Hout.
  destruct (simple_sma_spec Z (Z * Z) average [10; 20; 60] 2) as [out' [H1 [_ H2]]].
  rewrite Hout in H1. injection H1 as <-.
  destruct H2 as [Hlen _]; [discriminate | lia | exact Hlen].
Defined.

Lemma buy_never_overdraws_witness :
  let self := Broker.init (lit 10000) in
  let after := snd (Broker.buy self "BTC" (lit 2) (lit 100)) in
  fst (Broker.buy self "BTC" (lit 2) (lit 100)) = true
  /\ Broker.cash after = lit 9800
  /\ Broker.nonneg (Broker.cash after)
  /\ fst (Broker.buy self "BTC" (lit 101) (lit 100)) = false.
Proof.
  intros self after.
  destruct (buy_never_overdraws self "BTC" (lit 2) (lit 100)) as [_ [_ Hok]].
  destruct (Hok eq_refl) as [Hcash [_ [_ Hnn]]].
  split; [reflexivity|]. split; [etransitivity; [exact Hcash | reflexivity]|].
  split; [apply Hnn; split; reflexivity|].
  destruct (buy_never_overdraws self "BTC" (lit 101) (lit 100)) as [Hrej _].
  apply Hrej. reflexivity.
Defined.

Lemma sell_never_goes_short_witness :
  let self := snd (Broker.buy (Broker.init (lit 10000)) "BTC" (lit 2) (lit 100)) in
  let after := snd (Broker.sell self "BTC" (lit 2) (lit 105)) in
  fst (Broker.sell self "BTC" (lit 2) (lit 105)) = true
  /\ Broker.nonneg (Broker.get "BTC" (Broker.positions after) zero)
  /\ fst (Broker.sell self "ETH" (lit 1) (lit 105)) = false
  /\ fst (Broker.sell self "ETH" (SFopp (lit 1)) (lit 105)) = true.
Proof.
  intros self after.
  destruct (sell_never_goes_short self "BTC" (lit 2) (lit 105)) as [_ [_ [Hok _]]].
  destruct (Hok eq_refl) as [_ [_ [_ Hnn]]].
  split; [reflexivity|].
  split; [apply Hnn; split; reflexivity|].
  destruct (sell_never_goes_short self "ETH" (lit 1) (lit 105)) as [Hrej _].
  split; [apply Hrej; reflexivity|].
  destruct (sell_never_goes_short self "ETH" (SFopp (lit 1)) (lit 105))
    as [_ [_ [_ Hneg]]].
  apply Hneg; reflexivity.
Defined.

End OtherChecks.

(** ** Aggregation over a stream, and the turn of the hour *)

Section PipelineExtras.

Import PyFloat Datetime Json CoinbaseIngestor.

Variable float_of_str : string -> option float.
Variable isoparse : string -> option datetime.

Local Abbreviation py_float := (py_float float_of_str).
Local Abbreviation isoparse_value := (isoparse_value isoparse).
Local Abbreviation is_old := (is_old isoparse).
Local Abbreviation old_key := (old_key isoparse).
Local Abbreviation comparable := (comparable isoparse).
Local Abbreviation flushed := (flushed isoparse).
Local Abbreviation remaining := (remaining isoparse).
Local Abbreviation row_of_entry := (row_of_entry isoparse).
Local Abbreviation maybe_flush_old_buckets := (maybe_flush_old_buckets isoparse).
Local Abbreviation handle_trade_msg := (handle_trade_msg float_of_str isoparse).
Local Abbreviation on_message := (on_message float_of_str isoparse).
Local Abbreviation message_loop := (message_loop float_of_str isoparse).

Lemma lookup_app_other (k k' : string) (o : OHLCV.t) (a : store) :
  k' <> k -> lookup k' (a ++ [(k, o)]) = lookup k' a.
Proof.
  intros Hne. induction a as [|[k1 o1] a IH]; simpl.
  - destruct (String.eqb k' k) eqn:E; [|reflexivity].
    apply String.eqb_eq in E. congruence.
  - destruct (String.eqb k' k1); [reflexivity | exact IH].
Qed.

Lemma lookup_update_other (k k' : string) (f : OHLCV.t -> OHLCV.t) (a : store) :
  k' <> k -> lookup k' (mutate k f (getitem_default k a)) = lookup k' a.
Proof.
  intros Hne. rewrite lookup_mutate_other by exact Hne.
  unfold getitem_default. destruct (lookup k a); [reflexivity|].
  now apply lookup_app_other.
Qed.

Lemma keys_after_update (k k' : string) (f : OHLCV.t -> OHLCV.t) (a : store) :
  In k' (keys (mutate k f (getitem_default k a))) -> In k' (keys a) \/ k' = k.
Proof.
  unfold keys. intros Hin. apply in_map_iff in Hin.
  destruct Hin as [kv [<- Hin]]. apply in_update in Hin.
  destruct Hin as [Hin | [o [_ ->]]]; [left; now apply in_map | now right].
Qed.

Lemma comparable_after_tick (ch : datetime) (k : string) (p s : float)
      (st : ingestor) (b : bool) :
  comparable ch (agg st) -> is_old ch k = Ok b ->
  comparable ch (agg (snd (agg_add_tick k p s st))).
Proof.
  intros Hc Hk k' Hin. simpl in Hin. apply keys_after_update in Hin.
  destruct Hin as [Hin | ->]; [now apply Hc | eauto].
Qed.

Lemma is_old_by_instant (ch dt : datetime) (k : string) (off : Z) :
  tzinfo ch = utc -> isoparse k = Some dt -> tzinfo dt = Some off ->
  is_old ch k = Ok (instant dt <? instant ch).
Proof.
  intros Hch Hp Htz. unfold CoinbaseIngestor.is_old, Datetime.lt.
  rewrite Hp, Htz, Hch. unfold utc, instant. rewrite Htz, Hch. reflexivity.
Qed.

(** A flush hands over the row of every old entry it finds. *)
Lemma flush_emits_old_entry (e : env) (st : ingestor) (k : string) (b : OHLCV.t) :
  let ch := replace_hour_start (now e) in
  let st' := snd (maybe_flush_old_buckets e st) in
  let table_id := (project st ++ "." ++ dataset st ++ "." ++ table st)%string in
  comparable ch (agg st) ->
  lookup k (agg st) = Some b -> old_key ch k = true ->
  lookup k (agg st') = None
  /\ fst (maybe_flush_old_buckets e st)
     = match insert_rows_json e with
       | Ok _ => Ok tt
       | Raise x => Raise x
       end
  /\ exists rows,
       In (row_of_entry (product_id st) (k, b)) rows
       /\ events st'
          = events st
            ++ BqInsert table_id rows (insert_rows_json e)
               :: match insert_rows_json e with
                  | Ok [] => [LogInserted (List.length rows) table_id]
                  | Ok ((_ :: _) as errors) => [LogInsertErrors errors]
                  | Raise _ => []
                  end.
Proof.
  intros ch st' table_id Hc Hb Hk.
  pose proof (maybe_flush_agg isoparse e st Hc) as Hagg.
  fold ch st' in Hagg. split.
  { rewrite Hagg. now apply lookup_remaining_old. }
  assert (Hin : In (k, b) (flushed ch (agg st))).
  { unfold CoinbaseIngestor.flushed. apply filter_In.
    split; [now apply lookup_in | exact Hk]. }
  destruct (flush_hands_over_rows isoparse e st Hc) as [_ Hgo].
  destruct Hgo as [Hfst Hev].
  { intros Hnil. fold ch in Hnil. rewrite Hnil in Hin. destruct Hin. }
  split; [exact Hfst|].
  exists (map (row_of_entry (product_id st)) (flushed ch (agg st))).
  split; [exact (in_map (row_of_entry (product_id st)) _ _ Hin) | exact Hev].
Qed.

(** A tick under a key that is not old adds nothing to what a flush
    evicts. *)
Lemma flushed_after_tick (ch : datetime) (k : string) (f : OHLCV.t -> OHLCV.t)
      (a : store) :
  old_key ch k = false ->
  flushed ch (mutate k f (getitem_default k a)) = flushed ch a.
Proof.
  intros Hk. unfold getitem_default.
  destruct (lookup k a) as [o|] eqn:E.
  - clear E. unfold CoinbaseIngestor.flushed.
    induction a as [|[k' o'] a IH]; simpl; [reflexivity|].
    destruct (String.eqb k k') eqn:Ek; simpl.
    + apply String.eqb_eq in Ek. subst k'. rewrite Hk. reflexivity.
    + rewrite IH. reflexivity.
  - unfold CoinbaseIngestor.flushed. revert E.
    induction a as [|[k' o'] a IH]; simpl.
    + intros _. rewrite String.eqb_refl. simpl. rewrite Hk. reflexivity.
    + destruct (String.eqb k k') eqn:Ek; [discriminate|]. intros E. simpl.
      rewrite (IH E). reflexivity.
Qed.

End PipelineExtras.

Section PipelineTheorems.

Import PyFloat Datetime Json CoinbaseIngestor.

Variable float_of_str : string -> option float.
Variable isoparse : string -> option datetime.

Local Abbreviation py_float := (py_float float_of_str).
Local Abbreviation isoparse_value := (isoparse_value isoparse).
Local Abbreviation is_old := (is_old isoparse).
Local Abbreviation old_key := (old_key isoparse).
Local Abbreviation comparable := (comparable isoparse).
Local Abbreviation row_of_entry := (row_of_entry isoparse).
Local Abbreviation maybe_flush_old_buckets := (maybe_flush_old_buckets isoparse).
Local Abbreviation handle_trade_msg := (handle_trade_msg float_of_str isoparse).
Local Abbreviation on_message := (on_message float_of_str isoparse).
Local Abbreviation message_loop := (message_loop float_of_str isoparse).
Local Abbreviation carries := (carries float_of_str isoparse).
Local Abbreviation flushed := (flushed isoparse).

(** One carried trade of the current hour: handled, kept, and after it
    the store holds no completed bucket. *)
Lemma carried_trade_step (k : string) (ch dt : datetime) (off : Z)
      (f : frame) (tick : OHLCV.tick) (st : ingestor) :
  carries k ch f tick ->
  tzinfo ch = utc -> isoparse k = Some dt -> tzinfo dt = Some off ->
  instant ch <= instant dt ->
  comparable ch (agg st) ->
  flushed ch (agg st) = [] \/ returns (frame_env f) ->
  let old := match lookup k (agg st) with
             | Some o => o
             | None => OHLCV.init
             end in
  fst (on_message f st) = Ok tt
  /\ lookup k (agg (snd (on_message f st)))
     = Some (OHLCV.add_tick old (fst tick) (snd tick))
  /\ comparable ch (agg (snd (on_message f st)))
  /\ flushed ch (agg (snd (on_message f st))) = [].
Proof.
  intros [fields [t [Hmsg [Hty [Hp [Hs [Ht [Hk Hch]]]]]]]] Hutc Hparse Haware Hge Hc
         Hquiet old.
  assert (Hrun : on_message f st
                 = maybe_flush_old_buckets (frame_env f)
                     (snd (agg_add_tick k (fst tick) (snd tick) st))).
  { unfold CoinbaseIngestor.on_message. rewrite Hmsg.
    unfold bind at 1, lift, get. rewrite Hty.
    rewrite handle_trade_msg_obj, Hp, Hs, Ht, Hk. reflexivity. }
  rewrite Hrun.
  set (st1 := snd (agg_add_tick k (fst tick) (snd tick) st)).
  assert (Hold : is_old ch k = Ok false).
  { rewrite (is_old_by_instant isoparse ch dt k off Hutc Hparse Haware).
    f_equal. apply Z.ltb_ge. exact Hge. }
  assert (Hnot : old_key ch k = false).
  { unfold CoinbaseIngestor.old_key. now rewrite Hold. }
  assert (Hc1 : comparable (replace_hour_start (now (frame_env f))) (agg st1)).
  { rewrite Hch. eapply comparable_after_tick; eauto. }
  assert (Hquiet1 : returns (frame_env f)
                    \/ flushed (replace_hour_start (now (frame_env f))) (agg st1) = []).
  { destruct Hquiet as [Hnone|Hret]; [right | now left].
    rewrite Hch. unfold st1. simpl.
    rewrite (flushed_after_tick isoparse ch k _ (agg st) Hnot). exact Hnone. }
  destruct (maybe_flush_result isoparse _ st1 Hc1 Hquiet1) as [Hok Hagg].
  rewrite Hch in Hagg.
  split; [exact Hok|]. split; [|split].
  - rewrite Hagg, lookup_remaining_kept by exact Hnot.
    unfold st1. simpl. apply lookup_after_update.
  - rewrite Hagg. apply comparable_remaining. now rewrite <- Hch.
  - rewrite Hagg. apply flushed_remaining.
Qed.

Lemma carried_trades (k : string) (ch dt : datetime) (off : Z)
      (fs : list frame) (ticks : list OHLCV.tick) :
  Forall2 (carries k ch) fs ticks ->
  tzinfo ch = utc -> isoparse k = Some dt -> tzinfo dt = Some off ->
  instant ch <= instant dt ->
  forall st, comparable ch (agg st) ->
  flushed ch (agg st) = []
  \/ (exists f, hd_error fs = Some f /\ returns (frame_env f)) ->
  fst (message_loop fs st) = Ok tt
  /\ lookup k (agg (snd (message_loop fs st)))
     = match ticks with
       | [] => lookup k (agg st)
       | _ :: _ =>
           Some (OHLCV.add_ticks
                   (match lookup k (agg st) with
                    | Some o => o
                    | None => OHLCV.init
                    end) ticks)
       end.
Proof.
  intros Hall Hutc Hparse Haware Hge.
  induction Hall as [|f tick fs ticks Hf Hrest IH]; intros st Hc Hquiet.
  - simpl. auto.
  - assert (Hq : flushed ch (agg st) = [] \/ returns (frame_env f)).
    { destruct Hquiet as [Hnone|[f' [[= <-] Hret]]]; [now left | now right]. }
    destruct (carried_trade_step k ch dt off f tick st Hf Hutc Hparse Haware Hge
                Hc Hq) as [Hok [Hbar [Hc1 Hnone1]]].
    simpl message_loop. unfold bind.
    destruct (on_message f st) as [[[]|x] st1]; [|discriminate].
    simpl in Hbar, Hc1, Hnone1.
    destruct (IH st1 Hc1 (or_introl Hnone1)) as [Hok' Hbar'].
    split; [exact Hok'|].
    rewrite Hbar'. destruct ticks as [|t2 ticks]; [exact Hbar|].
    rewrite Hbar. reflexivity.
Qed.

(** X18.  Aggregation over a stream.  When a connection delivers a run of
    well-formed match messages that all fall into one bucket, a bucket
    that the clock's hour has not passed, only the first of them can find
    a completed bucket to write.  If the store holds none, or if the
    backend call made while that first message is handled returns, the
    loop handles them all, and the bar of their bucket after the last one
    is the bar that was there before (or a fresh one) with the ticks
    applied in the order of arrival. *)
Theorem stream_aggregates_in_order
        (k : string) (ch dt : datetime) (off : Z)
        (fs : list frame) (ticks : list OHLCV.tick) (st : ingestor) :
  Forall2 (carries k ch) fs ticks -> ticks <> [] ->
  tzinfo ch = utc -> isoparse k = Some dt -> tzinfo dt = Some off ->
  instant ch <= instant dt ->
  comparable ch (agg st) ->
  flushed ch (agg st) = []
  \/ (exists f, hd_error fs = Some f /\ returns (frame_env f)) ->
  let old := match lookup k (agg st) with
             | Some o => o
             | None => OHLCV.init
             end in
  fst (message_loop fs st) = Ok tt
  /\ lookup k (agg (snd (message_loop fs st)))
     = Some (OHLCV.add_ticks old ticks).
Proof.
  intros Hall Hne Hutc Hparse Haware Hge Hc Hquiet old.
  destruct (carried_trades k ch dt off fs ticks Hall Hutc Hparse Haware Hge st Hc
              Hquiet) as [Hok Hbar].
  split; [exact Hok|]. rewrite Hbar.
  destruct ticks; [congruence | reflexivity].
Qed.

(** X19.  The turn of the hour.  When a trade of the current hour is
    handled while the store still holds the bucket of an hour that has
    passed, that bucket leaves the store and the bar it held goes to the
    backend, in the batch of this call, as the row [to_row] makes of it
    with the product and the parsed key; the bucket of the trade itself
    stays, with the tick applied.  When the backend call returns, its log
    line follows and the handler returns; when it raises, nothing is
    logged, the handler raises that exception, and the store is the same. *)
Theorem hour_turn_emits_finished_bar
        (fields : list (string * value)) (e : env) (st : ingestor)
        (p s : float) (t dt dt1 : datetime) (off off1 : Z)
        (k1 : string) (b1 : OHLCV.t) :
  py_float (lookup_or fields "price" JNull) = Ok p ->
  py_float (lookup_or fields "size" (JFloat zero)) = Ok s ->
  isoparse_value (lookup_or fields "time" JNull) = Ok t ->
  valid (now e) = true -> tzinfo (now e) = utc ->
  isoparse (bucket_key t) = Some dt -> tzinfo dt = Some off ->
  floor_hour (instant (now e)) <= instant dt ->
  lookup k1 (agg st) = Some b1 ->
  isoparse k1 = Some dt1 -> tzinfo dt1 = Some off1 ->
  instant dt1 < floor_hour (instant (now e)) ->
  comparable (replace_hour_start (now e)) (agg st) ->
  let key := bucket_key t in
  let old := match lookup key (agg st) with
             | Some o => o
             | None => OHLCV.init
             end in
  let st' := snd (handle_trade_msg (JObj fields) e st) in
  let table_id := (project st ++ "." ++ dataset st ++ "." ++ table st)%string in
  fst (handle_trade_msg (JObj fields) e st)
  = match insert_rows_json e with
    | Ok _ => Ok tt
    | Raise x => Raise x
    end
  /\ lookup k1 (agg st') = None
  /\ lookup key (agg st') = Some (OHLCV.add_tick old p s)
  /\ exists rows,
       In (OHLCV.to_row b1 (product_id st) dt1) rows
       /\ events st'
          = events st
            ++ BqInsert table_id rows (insert_rows_json e)
               :: match insert_rows_json e with
                  | Ok [] => [LogInserted (List.length rows) table_id]
                  | Ok ((_ :: _) as errors) => [LogInsertErrors errors]
                  | Raise _ => []
                  end.
Proof.
  intros Hp Hs Ht Hv Hutc Hparse Haware Hge Hb1 Hparse1 Haware1 Hlt Hc
         key old st' table_id.
  set (ch := replace_hour_start (now e)) in *.
  assert (Hch : tzinfo ch = utc) by exact Hutc.
  assert (Hb : instant ch = floor_hour (instant (now e)))
    by (apply instant_hour_start_utc; assumption).
  assert (Hold : is_old ch key = Ok false).
  { rewrite (is_old_by_instant isoparse ch dt key off Hch Hparse Haware).
    f_equal. apply Z.ltb_ge. lia. }
  assert (Hold1 : old_key ch k1 = true).
  { unfold CoinbaseIngestor.old_key.
    rewrite (is_old_by_instant isoparse ch dt1 k1 off1 Hch Hparse1 Haware1).
    apply Z.ltb_lt. lia. }
  assert (Hne : k1 <> key).
  { intros ->. unfold CoinbaseIngestor.old_key in Hold1.
    rewrite Hold in Hold1. discriminate. }
  set (st1 := snd (agg_add_tick key p s st)).
  assert (Hrun : handle_trade_msg (JObj fields) e st = maybe_flush_old_buckets e st1).
  { rewrite handle_trade_msg_obj, Hp, Hs, Ht. reflexivity. }
  assert (Hc1 : comparable ch (agg st1)).
  { eapply comparable_after_tick; eauto. }
  assert (Hb1' : lookup k1 (agg st1) = Some b1).
  { unfold st1. simpl. rewrite lookup_update_other by exact Hne. exact Hb1. }
  unfold st'. rewrite Hrun.
  pose proof (maybe_flush_agg isoparse e st1 Hc1) as Hagg.
  destruct (flush_emits_old_entry isoparse e st1 k1 b1 Hc1 Hb1' Hold1)
    as [Hgone [Hfst [rows [Hin Hev]]]].
  split; [exact Hfst|]. split; [exact Hgone|]. split.
  - rewrite Hagg. fold ch. rewrite lookup_remaining_kept.
    + unfold st1. simpl. apply lookup_after_update.
    + unfold CoinbaseIngestor.old_key. now rewrite Hold.
  - exists rows. split; [|exact Hev].
    unfold CoinbaseIngestor.row_of_entry, parsed_key in Hin. simpl in Hin.
    rewrite Hparse1 in Hin. exact Hin.
Qed.

End PipelineTheorems.

Section PipelineChecks.

Import PyFloat Datetime Json CoinbaseIngestor Scenario.

Local Abbreviation message_loop := (message_loop float_of_decimal isoparse_ext).
Local Abbreviation handle_trade_msg := (handle_trade_msg float_of_decimal isoparse_ext).

(** The third and fourth trades of the run, on one connection, the store
    holding the completed 10:00 bucket: the backend answers the write made
    for the third trade with errors, and both trades are aggregated. *)
Lemma stream_aggregates_in_order_witness :
  let st := snd (message_loop [f1; f2] st0) in
  fst (message_loop [f3; f4] st) = Ok tt
  /\ lookup key11 (agg (snd (message_loop [f3; f4] st)))
     = Some (OHLCV.add_ticks OHLCV.init [(lit 95, lit 1); (lit 96, lit 1)]).
Proof.
  intros st.
  assert (Hc : comparable isoparse_ext (clock 11 0 0) (agg st)).
  { apply aware_keys_comparable; [reflexivity|].
    intros k Hin. vm_compute in Hin.
    destruct Hin as [<-|[]]; vm_compute; eauto. }
  apply (stream_aggregates_in_order float_of_decimal isoparse_ext
           key11 (clock 11 0 0) (clock 11 0 0) 0
           [f3; f4] [(lit 95, lit 1); (lit 96, lit 1)] st).
  - constructor; [|constructor; [|constructor]].
    + exists [("type", JStr "match"); ("price", JStr "95"); ("size", JStr "1");
              ("time", JStr "2024-01-01T11:02:00Z")]%string,
             (mkDatetime 2024 1 1 11 2 0 0 utc).
      repeat split; reflexivity.
    + exists [("type", JStr "match"); ("price", JStr "96"); ("size", JStr "1");
              ("time", JStr "2024-01-01T11:03:00Z")]%string,
             (mkDatetime 2024 1 1 11 3 0 0 utc).
      repeat split; reflexivity.
  - discriminate.
  - reflexivity.
  - reflexivity.
  - reflexivity.
  - vm_compute. discriminate.
  - exact Hc.
  - right. exists f3. split; [reflexivity|].
    exists ["backend unavailable"%string]. reflexivity.
Defined.

(** The third trade of the run, stamped 11:02: the 10:00 bar of the first
    two trades goes to the backend, which rejects it; and the same trade
    when the client raises instead. *)
Lemma hour_turn_emits_finished_bar_witness :
  let st := snd (message_loop [f1; f2] st0) in
  let third := trade "95" "1" "2024-01-01T11:02:00Z" in
  let st' := snd (handle_trade_msg third (frame_env f3) st) in
  let st'' := snd (handle_trade_msg third (frame_env f3_raising) st) in
  let b1 := OHLCV.add_ticks OHLCV.init [(lit 100, lit 1); (lit 105, lit 2)] in
  fst (handle_trade_msg third (frame_env f3) st) = Ok tt
  /\ lookup key10 (agg st') = None
  /\ lookup key11 (agg st') = Some (OHLCV.add_tick OHLCV.init (lit 95) (lit 1))
  /\ (exists rows,
        In (OHLCV.to_row b1 "BTC-USD" (clock 10 0 0)) rows
        /\ events st'
           = events st
             ++ [BqInsert "proj.moda_mcp.raw_ohlcv" rows
                          (Ok ["backend unavailable"%string]);
                 LogInsertErrors ["backend unavailable"%string]])
  /\ fst (handle_trade_msg third (frame_env f3_raising) st)
     = Raise GoogleAPICallError
  /\ agg st'' = agg st'
  /\ (exists rows,
        In (OHLCV.to_row b1 "BTC-USD" (clock 10 0 0)) rows
        /\ events st''
           = events st
             ++ [BqInsert "proj.moda_mcp.raw_ohlcv" rows
                          (Raise GoogleAPICallError)]).
Proof.
  intros st third st' st'' b1.
  assert (Hc : comparable isoparse_ext (replace_hour_start (now (frame_env f3)))
                 (agg st)).
  { apply aware_keys_comparable; [reflexivity|].
    intros k Hin. vm_compute in Hin.
    destruct Hin as [<-|[]]; vm_compute; eauto. }
  pose proof (fun e Hv Hutc Hge Hlt Hcmp =>
    hour_turn_emits_finished_bar float_of_decimal isoparse_ext
      [("type", JStr "match"); ("price", JStr "95"); ("size", JStr "1");
       ("time", JStr "2024-01-01T11:02:00Z")]%string
      e st (lit 95) (lit 1)
      (mkDatetime 2024 1 1 11 2 0 0 utc) (clock 11 0 0) (clock 10 0 0)
      0 0 key10 b1
      eq_refl eq_refl eq_refl Hv Hutc eq_refl eq_refl
      Hge eq_refl eq_refl eq_refl Hlt Hcmp) as H.
  destruct (H (frame_env f3) eq_refl eq_refl
              ltac:(vm_compute; discriminate) eq_refl Hc)
    as [Hfst [Hgone [Hbar Hrows]]].
  destruct (H (frame_env f3_raising) eq_refl eq_refl
              ltac:(vm_compute; discriminate) eq_refl Hc)
    as [Hfst' [_ [_ Hrows']]].
  split; [exact Hfst|]. split; [exact Hgone|]. split; [exact Hbar|].
  split; [exact Hrows|]. split; [exact Hfst'|].
  split; [vm_compute; reflexivity | exact Hrows'].
Defined.

End PipelineChecks.
